(** * Empathy Engine: a shallow embedding of the emotion, modulation,
      SSML and speech code, with the properties of its specification.

    Sources embedded here:
    - [empathy_engine/emotion.py]  ([EMPHASIS_WORDS], [EmotionResult],
                                    [EmotionDetector]: [__init__], [detect],
                                    [_resolve_token])
    - [empathy_engine/config.py]   ([VoiceProfile], [EmotionMapping])
    - [empathy_engine/service.py]  ([_default_mapping], [EmpathyEngine]:
                                    [__init__], [speak_to_file],
                                    [_build_filename], [_modulate_parameters],
                                    [_interpolate])
    - [empathy_engine/ssml.py]     ([_rate_percentage], [_volume_descriptor],
                                    [_pitch_step], [SSMLComposer.build])
    - [empathy_engine/speech.py]   ([SpeechSynthesizer])
    - [empathy_engine/api.py]      ([synthesize])
    - [empathy_engine/cli.py]      ([main])

    Modelling choices.
    - A Python [float] is an IEEE-754 binary64 number: [spec_float] with the
      operations of [SpecFloat] at precision 53 and maximal exponent 1024
      (round to nearest, ties to even).  Comparisons involving NaN are false.
    - A Python [int] is a [Z]; mixed arithmetic converts the integer operand
      to a float first, which raises [OverflowError] outside the float range.
    - A Python [str] is a [string]; a character is its code point below 256.
    - Exceptions are values of [exn]; fallible code returns a [result].
    - The classifier endpoint and the text-to-speech driver are external:
      they appear as records of functions ([Env], [Driver]); so do the
      files the command line reads and writes ([cli.Files]), whose
      operations can raise. *)

From Stdlib Require Import ZArith Bool List Lia String Ascii.
From Stdlib Require Import DecimalString.
From Stdlib Require Import Floats.SpecFloat.
Import ListNotations.

Local Open Scope string_scope.
Local Open Scope Z_scope.

(* ================================================================= *)
(** ** Exceptions and results *)

Inductive exn : Type :=
| RuntimeError (msg : string)
| KeyError
| TypeError
| AttributeError
| ValueError
| OverflowError
| ZeroDivisionError
| IndexError
| DriverError.

Inductive result (A : Type) : Type :=
| Ok (a : A)
| Raise (e : exn).

Arguments Ok {A} a.
Arguments Raise {A} e.

Definition bind {A B : Type} (r : result A) (k : A -> result B) : result B :=
  match r with
  | Ok a => k a
  | Raise e => Raise e
  end.

Notation "x <- r ;; k" := (bind r (fun x => k))
  (at level 61, r at next level, right associativity).
Notation "r ;; k" := (bind r (fun _ => k))
  (at level 61, right associativity).

Definition is_runtime_error {A : Type} (r : result A) : bool :=
  match r with Raise (RuntimeError _) => true | _ => false end.

(* ================================================================= *)
(** ** Python floats (binary64) *)

Module PyFloat.

Definition float : Type := spec_float.

Definition prec : Z := 53.
Definition emax : Z := 1024.

Definition fadd : float -> float -> float := SFadd prec emax.
Definition fsub : float -> float -> float := SFsub prec emax.
Definition fmul : float -> float -> float := SFmul prec emax.
Definition fdiv : float -> float -> float := SFdiv prec emax.

(** [x < y], [x <= y], [x > y], [x >= y], [x == y] on floats. *)
Definition flt (x y : float) : bool := SFltb x y.
Definition fle (x y : float) : bool := SFleb x y.
Definition fgt (x y : float) : bool := SFltb y x.
Definition fge (x y : float) : bool := SFleb y x.
Definition feq (x y : float) : bool := SFeqb x y.

Definition is_nan (x : float) : bool :=
  match x with S754_nan => true | _ => false end.

Definition is_finite (x : float) : bool :=
  match x with S754_zero _ | S754_finite _ _ _ => true | _ => false end.

(** Every float a Python program holds is a canonical binary64 value. *)
Definition valid (x : float) : bool := valid_binary prec emax x.

(** The nearest float of an integer, infinite when out of range. *)
Definition of_Z (n : Z) : float := binary_normalize prec emax n 0 false.

(** [float(n)] for an [int] n, also the implicit conversion of mixed
    arithmetic: correctly rounded, [OverflowError] when too large. *)
Definition of_int (n : Z) : result float :=
  match of_Z n with
  | S754_infinity _ => Raise OverflowError
  | f => Ok f
  end.

(** The value of the decimal literal [a / 10^k]: both operands are exact
    for [|a|, 10^k < 2^53], and the division rounds once, to nearest. *)
Definition dec (a : Z) (k : Z) : float := fdiv (of_Z a) (of_Z (10 ^ k)).

Definition f0 : float := S754_zero false.
Definition f1 : float := Eval vm_compute in of_Z 1.

(** Truth value of a float: [x != 0.0]. *)
Definition truthy (x : float) : bool := negb (feq x f0).

(** The builtins [max(a, b)] and [min(a, b)]: the first argument is kept
    unless the second is strictly greater (resp. smaller). *)
Definition py_max (a b : float) : float := if fgt b a then b else a.
Definition py_min (a b : float) : float := if flt b a then b else a.

(** [m * 2^e] rounded to the nearest integer, ties to even ([0 < m]). *)
Definition round_half_even (m e : Z) : Z :=
  if 0 <=? e then m * 2 ^ e
  else
    let d := 2 ^ (- e) in
    let q := m / d in
    let r := m mod d in
    match 2 * r ?= d with
    | Lt => q
    | Gt => q + 1
    | Eq => if Z.even q then q else q + 1
    end.

(** The builtin [round(x)] of a float, an [int]. *)
Definition py_round (x : float) : result Z :=
  match x with
  | S754_nan => Raise ValueError
  | S754_infinity _ => Raise OverflowError
  | S754_zero _ => Ok 0
  | S754_finite s m e => Ok (cond_Zopp s (round_half_even (Zpos m) e))
  end.

(** True division [a / b] of two [int]s: the correctly rounded quotient. *)
Definition int_truediv (a b : Z) : result float :=
  if b =? 0 then Raise ZeroDivisionError
  else
    match a with
    | Z0 => Ok (S754_zero (b <? 0))
    | _ =>
        match fdiv (S754_finite (a <? 0) (Z.to_pos (Z.abs a)) 0)
                   (S754_finite (b <? 0) (Z.to_pos (Z.abs b)) 0) with
        | S754_infinity _ => Raise OverflowError
        | f => Ok f
        end
    end.

#[global] Arguments fadd : simpl never.
#[global] Arguments fsub : simpl never.
#[global] Arguments fmul : simpl never.
#[global] Arguments fdiv : simpl never.
#[global] Arguments flt : simpl never.
#[global] Arguments fle : simpl never.
#[global] Arguments fgt : simpl never.
#[global] Arguments fge : simpl never.
#[global] Arguments feq : simpl never.
#[global] Arguments of_Z : simpl never.

End PyFloat.
Import PyFloat.

(** A Python number as the arithmetic of [service.py] meets it. *)
Inductive num : Type :=
| PyInt (z : Z)
| PyFloat (f : float).

Definition to_float (x : num) : result float :=
  match x with
  | PyInt z => of_int z
  | PyFloat f => Ok f
  end.

(** [a - b]: exact on two [int]s, a float operation otherwise. *)
Definition num_sub (a b : num) : result num :=
  match a, b with
  | PyInt x, PyInt y => Ok (PyInt (x - y))
  | _, _ =>
      fa <- to_float a ;;
      fb <- to_float b ;;
      Ok (PyFloat (fsub fa fb))
  end.

(* ================================================================= *)
(** ** Python strings *)

Module PyStr.

Definition code (c : ascii) : N := N_of_ascii c.

(** [str.isspace] on one character: the Unicode white space below 256. *)
Definition isspace (c : ascii) : bool :=
  let n := code c in
  (((9 <=? n) && (n <=? 13)) || ((28 <=? n) && (n <=? 32))
   || (n =? 133) || (n =? 160))%N.

Fixpoint lstrip (s : string) : string :=
  match s with
  | EmptyString => EmptyString
  | String c s' => if isspace c then lstrip s' else s
  end.

(** Drops the trailing white space: a character is kept when it is not
    white space or when something is kept after it. *)
Fixpoint rstrip (s : string) : string :=
  match s with
  | EmptyString => EmptyString
  | String c s' =>
      match rstrip s' with
      | EmptyString => if isspace c then EmptyString else String c EmptyString
      | r => String c r
      end
  end.

(** [s.strip()] *)
Definition strip (s : string) : string := rstrip (lstrip s).

(** [s.split()]: the maximal runs of characters that are not white space.
    [cur] is the run being read, in reverse. *)
Fixpoint split_aux (s : string) (cur : list ascii) : list string :=
  let flush (rest : list string) :=
    match cur with
    | [] => rest
    | _ => string_of_list_ascii (rev cur) :: rest
    end in
  match s with
  | EmptyString => flush []
  | String c s' =>
      if isspace c then flush (split_aux s' [])
      else split_aux s' (c :: cur)
  end.

Definition split (s : string) : list string := split_aux s [].

(** [sep.join(l)] *)
Fixpoint join (sep : string) (l : list string) : string :=
  match l with
  | [] => EmptyString
  | [x] => x
  | x :: rest => x ++ sep ++ join sep rest
  end.

(** [not s] *)
Definition is_empty (s : string) : bool :=
  match s with EmptyString => true | _ => false end.

(** [s.count(c)] for a one-character pattern. *)
Fixpoint count_char (c : ascii) (s : string) : Z :=
  match s with
  | EmptyString => 0
  | String c' s' => (if Ascii.eqb c c' then 1 else 0) + count_char c s'
  end.

(** [c in s] for a one-character pattern. *)
Fixpoint contains_char (c : ascii) (s : string) : bool :=
  match s with
  | EmptyString => false
  | String c' s' => Ascii.eqb c c' || contains_char c s'
  end.

(** [s.count(w)] for a non-empty [w]: occurrences that do not overlap,
    read from the left.  [skip] characters belong to the last match. *)
Fixpoint count_from (w s : string) (skip : nat) : Z :=
  match s with
  | EmptyString => 0
  | String _ s' =>
      match skip with
      | S k => count_from w s' k
      | O =>
          if String.prefix w s
          then 1 + count_from w s' (Nat.pred (String.length w))
          else count_from w s' O
      end
  end.

Definition count (w s : string) : Z := count_from w s O.

(** [str.lower] on one character: A-Z, and the capital letters of the
    Latin-1 supplement (192-222 but the multiplication sign 215). *)
Definition lower_char (c : ascii) : ascii :=
  let n := code c in
  if (((65 <=? n) && (n <=? 90))
      || ((192 <=? n) && (n <=? 222) && negb (n =? 215)))%N
  then ascii_of_N (n + 32)
  else c.

Fixpoint lower (s : string) : string :=
  match s with
  | EmptyString => EmptyString
  | String c s' => String (lower_char c) (lower s')
  end.

Definition dquote : ascii := ascii_of_nat 34.
Definition squote : ascii := ascii_of_nat 39.

(** [html.escape(s)], with its default [quote=True]. *)
Fixpoint html_escape (s : string) : string :=
  match s with
  | EmptyString => EmptyString
  | String c s' =>
      let rest := html_escape s' in
      if Ascii.eqb c "&" then "&amp;" ++ rest
      else if Ascii.eqb c "<" then "&lt;" ++ rest
      else if Ascii.eqb c ">" then "&gt;" ++ rest
      else if Ascii.eqb c dquote then "&quot;" ++ rest
      else if Ascii.eqb c squote then "&#x27;" ++ rest
      else String c rest
  end.

(** [str(n)] for an [int] n. *)
Definition str_of_int (n : Z) : string := NilZero.string_of_int (Z.to_int n).

End PyStr.

(* ================================================================= *)
(** ** emotion.py *)

Module emotion.
Import PyStr.

(** [EmotionLabel = Literal["positive", "neutral", "negative"]] *)
Inductive EmotionLabel : Type := positive | neutral | negative.

Definition label_str (l : EmotionLabel) : string :=
  match l with
  | positive => "positive"
  | neutral => "neutral"
  | negative => "negative"
  end.

Definition EMPHASIS_WORDS : list string :=
  ["really"; "very"; "so"; "extremely"; "incredibly"].

Record EmotionResult : Type := { label : EmotionLabel; intensity : float }.

(** What [response.json()] can hand back. *)
#[warnings="-register-all"]
Inductive json : Type :=
| JNull
| JBool (b : bool)
| JInt (z : Z)
| JFloat (f : float)
| JStr (s : string)
| JList (items : list json)
| JDict (fields : list (string * json)).

(** The outcome of the one request of [detect]: [post], [raise_for_status]
    and [json()] either raise a [requests.RequestException] or give data. *)
Inductive http_result : Type :=
| RequestException
| Response (data : json).

(** The world outside: the inference endpoint, and the parser behind
    [float(s)] for a string [s] ([None] when it raises [ValueError]). *)
Record Env : Type := {
  post : string -> http_result;
  float_of_str : string -> option float
}.

Fixpoint dict_get {V : Type} (k : string) (d : list (string * V)) : option V :=
  match d with
  | [] => None
  | (k', v) :: rest => if String.eqb k k' then Some v else dict_get k rest
  end.

Definition has_key {V : Type} (k : string) (d : list (string * V)) : bool :=
  match dict_get k d with Some _ => true | None => false end.

(** [not data] *)
Definition falsy (data : json) : bool :=
  match data with
  | JNull => true
  | JBool b => negb b
  | JInt z => z =? 0
  | JFloat f => negb (truthy f)
  | JStr s => is_empty s
  | JList items => match items with [] => true | _ => false end
  | JDict fields => match fields with [] => true | _ => false end
  end.

(** [data[0]]; the keys of a decoded object are strings, never [0]. *)
Definition first_item (data : json) : result json :=
  match data with
  | JList (x :: _) => Ok x
  | JStr (String c _) => Ok (JStr (String c EmptyString))
  | JList [] | JStr EmptyString => Raise IndexError
  | JDict _ => Raise KeyError
  | JNull | JBool _ | JInt _ | JFloat _ => Raise TypeError
  end.

Definition unexpected_format : exn :=
  RuntimeError "Unexpected response format from Hugging Face API".

(** Lines 107-114: the list of [{label, score}] items to read. *)
Definition flat_scores (data : json) : result (list json) :=
  first <- first_item data ;;
  match first with
  | JList items => Ok items
  | JDict fields =>
      if has_key "label" fields
      then match data with
           | JList items => Ok items
           | _ => Raise TypeError
           end
      else Raise unexpected_format
  | _ => Raise unexpected_format
  end.

(** [item["label"].lower()] *)
Definition item_label (item : json) : result string :=
  match item with
  | JDict fields =>
      match dict_get "label" fields with
      | Some (JStr s) => Ok (lower s)
      | Some _ => Raise AttributeError
      | None => Raise KeyError
      end
  | _ => Raise TypeError
  end.

(** [float(v)] *)
Definition to_score (env : Env) (v : json) : result float :=
  match v with
  | JInt z => of_int z
  | JFloat f => Ok f
  | JBool b => Ok (if b then f1 else f0)
  | JStr s =>
      match float_of_str env s with
      | Some f => Ok f
      | None => Raise ValueError
      end
  | JNull | JList _ | JDict _ => Raise TypeError
  end.

(** [float(item["score"])] *)
Definition item_score (env : Env) (item : json) : result float :=
  match item with
  | JDict fields =>
      match dict_get "score" fields with
      | Some v => to_score env v
      | None => Raise KeyError
      end
  | _ => Raise TypeError
  end.

(** Line 116, the dict comprehension: a later item replaces an earlier one
    with the same key, so the newest binding is kept in front. *)
Fixpoint score_map (env : Env) (items : list json) (acc : list (string * float))
  : result (list (string * float)) :=
  match items with
  | [] => Ok acc
  | item :: rest =>
      k <- item_label item ;;
      v <- item_score env item ;;
      score_map env rest ((k, v) :: acc)
  end.

(** [score_map.get(canonical) or score_map.get(ordinal, 0.0)] *)
Definition class_score (m : list (string * float)) (canonical ordinal : string)
  : float :=
  let fallback :=
    match dict_get ordinal m with Some s => s | None => f0 end in
  match dict_get canonical m with
  | Some s => if truthy s then s else fallback
  | None => fallback
  end.

(** Lines 123-131. *)
Definition select_winner (positive_score neutral_score negative_score : float)
  : EmotionLabel * float :=
  if fge positive_score (py_max neutral_score negative_score)
  then (positive, positive_score)
  else if fge negative_score (py_max positive_score neutral_score)
  then (negative, negative_score)
  else (neutral, neutral_score).

Definition exclamations (cleaned : string) : Z := count_char "!" cleaned.

Definition question (cleaned : string) : bool := contains_char "?" cleaned.

(** [sum(cleaned.lower().count(word) for word in EMPHASIS_WORDS)] *)
Definition emphasis_terms (cleaned : string) : Z :=
  fold_left (fun acc word => acc + count word (lower cleaned)) EMPHASIS_WORDS 0.

Definition c0_3 : float := Eval vm_compute in dec 3 1.
Definition c0_06 : float := Eval vm_compute in dec 6 2.
Definition c0_05 : float := Eval vm_compute in dec 5 2.
Definition c0_03 : float := Eval vm_compute in dec 3 2.

(** Lines 139-142. *)
Definition intensity_bonus (cleaned : string) : result float :=
  e <- of_int (exclamations cleaned) ;;
  t <- of_int (emphasis_terms cleaned) ;;
  Ok (py_min c0_3
        (fadd (fadd (fmul c0_06 e) (fmul c0_05 t))
              (if question cleaned then c0_03 else f0))).

(** Lines 99-121: the three class scores read from the decoded response.
    The message of the first [RuntimeError] is cut to its fixed part: the
    code appends the value of the [error] field to it. *)
Definition class_scores (env : Env) (data : json)
  : result (float * float * float) :=
  match data with
  | JDict fields =>
      if has_key "error" fields
      then Raise (RuntimeError "Hugging Face API error")
      else Ok tt
  | _ => Ok tt
  end ;;
  (if falsy data
   then Raise (RuntimeError "Hugging Face API returned an empty response")
   else Ok tt) ;;
  items <- flat_scores data ;;
  m <- score_map env items [] ;;
  Ok (class_score m "positive" "label_2",
      class_score m "neutral" "label_1",
      class_score m "negative" "label_0").

(** Lines 99-152: everything [detect] does with the decoded response. *)
Definition classify_payload (env : Env) (cleaned : string) (data : json)
  : result EmotionResult :=
  scores <- class_scores env data ;;
  let '(positive_score, neutral_score, negative_score) := scores in
  let '(lbl, primary_score) :=
    select_winner positive_score neutral_score negative_score in
  bonus <- intensity_bonus cleaned ;;
  Ok {| label := lbl; intensity := py_min f1 (fadd primary_score bonus) |}.

(** Line 75: [" ".join(text.strip().split())] *)
Definition clean (text : string) : string := join " " (split (strip text)).

(** [EmotionDetector.detect].  The first component lists the texts sent to
    the classifier, in order: it is empty when no request was made. *)
Definition detect (env : Env) (text : string)
  : list string * result EmotionResult :=
  if is_empty text || is_empty (strip text)
  then ([], Ok {| label := neutral; intensity := f0 |})
  else
    let cleaned := clean text in
    ([cleaned],
     match post env cleaned with
     | RequestException =>
         Raise (RuntimeError "Failed to classify sentiment via Hugging Face API")
     | Response data => classify_payload env cleaned data
     end).

End emotion.

(* ================================================================= *)
(** ** config.py *)

Module config.

Record VoiceProfile : Type := {
  label : string;
  rate : Z;
  volume : float;
  pitch : option Z;
  rate_delta_range : Z * Z;
  volume_delta_range : float * float;
  pitch_delta_range : option (Z * Z)
}.

Record EmotionMapping : Type := {
  profiles : list (string * VoiceProfile)
}.

(** [EmotionMapping.get] *)
Definition get (self : EmotionMapping) (emotion : string) : result VoiceProfile :=
  let normalized := PyStr.lower emotion in
  match emotion.dict_get normalized (profiles self) with
  | Some p => Ok p
  | None => Raise KeyError
  end.

End config.

(* ================================================================= *)
(** ** service.py, the pure part *)

Module service.
Import config.

Definition c0_95 : float := Eval vm_compute in dec 95 2.
Definition c0_12 : float := Eval vm_compute in dec 12 2.
Definition c0_88 : float := Eval vm_compute in dec 88 2.
Definition c0_04 : float := Eval vm_compute in dec 4 2.
Definition cm0_04 : float := Eval vm_compute in SFopp (dec 4 2).
Definition c0_8 : float := Eval vm_compute in dec 8 1.
Definition cm0_15 : float := Eval vm_compute in SFopp (dec 15 2).

Definition positive_profile : VoiceProfile :=
  {| label := "positive"; rate := 186; volume := c0_95; pitch := Some 70;
     rate_delta_range := (0, 45);
     volume_delta_range := (f0, c0_12);
     pitch_delta_range := Some (0, 12) |}.

Definition neutral_profile : VoiceProfile :=
  {| label := "neutral"; rate := 175; volume := c0_88; pitch := Some 64;
     rate_delta_range := (-5, 5);
     volume_delta_range := (cm0_04, c0_04);
     pitch_delta_range := Some (-3, 4) |}.

Definition negative_profile : VoiceProfile :=
  {| label := "negative"; rate := 160; volume := c0_8; pitch := Some 58;
     rate_delta_range := (0, -40);
     volume_delta_range := (f0, cm0_15);
     pitch_delta_range := Some (0, -12) |}.

Definition _default_mapping : EmotionMapping :=
  {| profiles := [ ("positive", positive_profile);
                   ("neutral", neutral_profile);
                   ("negative", negative_profile) ] |}.

(** [_interpolate]: [start + (end - start) * intensity].  The difference is
    an [int] when both ends are; the product and the sum are floats. *)
Definition _interpolate (delta_range : num * num) (intensity : float)
  : result float :=
  let '(start, end_) := delta_range in
  d <- num_sub end_ start ;;
  fd <- to_float d ;;
  fs <- to_float start ;;
  Ok (fadd fs (fmul fd intensity)).

Definition int_range (r : Z * Z) : num * num := (PyInt (fst r), PyInt (snd r)).
Definition float_range (r : float * float) : num * num :=
  (PyFloat (fst r), PyFloat (snd r)).

Definition c0_3 : float := emotion.c0_3.

(** [_modulate_parameters] *)
Definition _modulate_parameters (profile : VoiceProfile)
    (emotion : emotion.EmotionResult) : result (Z * float * option Z) :=
  let intensity := emotion.intensity emotion in
  rate_delta <- _interpolate (int_range (rate_delta_range profile)) intensity ;;
  volume_delta <-
    _interpolate (float_range (volume_delta_range profile)) intensity ;;
  base_rate <- of_int (rate profile) ;;
  rounded_rate <- py_round (fadd base_rate rate_delta) ;;
  let modulated_rate := Z.max 120 rounded_rate in
  let modulated_volume :=
    py_max c0_3 (py_min f1 (fadd (volume profile) volume_delta)) in
  match pitch profile, pitch_delta_range profile with
  | Some p, Some range =>
      pitch_delta <- _interpolate (int_range range) intensity ;;
      base_pitch <- of_int p ;;
      rounded_pitch <- py_round (fadd base_pitch pitch_delta) ;;
      Ok (modulated_rate, modulated_volume, Some (Z.max 30 rounded_pitch))
  | _, _ => Ok (modulated_rate, modulated_volume, pitch profile)
  end.

(** [_build_filename] *)
Fixpoint replace_space (s : string) : string :=
  match s with
  | EmptyString => EmptyString
  | String c s' =>
      String (if Ascii.eqb c " " then "_"%char else c) (replace_space s')
  end.

Definition _build_filename (emotion_label : string) : string :=
  "empathy_" ++ replace_space emotion_label ++ ".wav".

End service.

(* ================================================================= *)
(** ** ssml.py *)

Module ssml.
Import PyStr.

(** [_rate_percentage] *)
Definition _rate_percentage (baseline applied : Z) : result Z :=
  if baseline <=? 0 then Ok 100
  else
    ratio <- int_truediv applied baseline ;;
    hundred <- of_int 100 ;;
    rounded <- py_round (fmul ratio hundred) ;;
    Ok (Z.max 50 (Z.min 200 rounded)).

Definition c0_95 : float := service.c0_95.
Definition c0_85 : float := Eval vm_compute in dec 85 2.
Definition c0_7 : float := Eval vm_compute in dec 7 1.
Definition c0_5 : float := Eval vm_compute in dec 5 1.
Definition c0_65 : float := Eval vm_compute in dec 65 2.
Definition c0_35 : float := Eval vm_compute in dec 35 2.

(** [_volume_descriptor] *)
Definition _volume_descriptor (volume : float) : string :=
  if fge volume c0_95 then "x-loud"
  else if fge volume c0_85 then "loud"
  else if fge volume c0_7 then "medium"
  else if fge volume c0_5 then "soft"
  else "x-soft".

(** [_pitch_step] *)
Definition _pitch_step (profile_pitch applied_pitch : option Z) : string :=
  match profile_pitch, applied_pitch with
  | Some pp, Some ap =>
      let offset := ap - pp in
      if offset =? 0 then "default"
      else
        let semitone := Z.max (-20) (Z.min 20 offset) in
        let sign := if semitone >? 0 then "+" else EmptyString in
        sign ++ str_of_int semitone ++ "st"
  | _, _ => "default"
  end.

(** An [xml.etree.ElementTree.Element]: tag, attributes in insertion order,
    text, children. *)
#[warnings="-register-all"]
Inductive Element : Type :=
| Elem (tag : string) (attrib : list (string * string)) (text : option string)
       (children : list Element).

Definition tag_of (e : Element) : string := let 'Elem t _ _ _ := e in t.
Definition attrib_of (e : Element) : list (string * string) :=
  let 'Elem _ a _ _ := e in a.
Definition text_of (e : Element) : option string := let 'Elem _ _ t _ := e in t.
Definition children_of (e : Element) : list Element :=
  let 'Elem _ _ _ c := e in c.

Definition namespace : string := "http://www.w3.org/2001/10/synthesis".

(** The attributes of the prosody element (lines 53-60). *)
Definition prosody_attrs (profile : config.VoiceProfile) (applied_rate : Z)
    (applied_volume : float) (applied_pitch : option Z)
  : result (list (string * string)) :=
  pct <- _rate_percentage (config.rate profile) applied_rate ;;
  let base := [ ("rate", str_of_int pct ++ "%");
                ("volume", _volume_descriptor applied_volume) ] in
  let pitch_descriptor := _pitch_step (config.pitch profile) applied_pitch in
  Ok (if String.eqb pitch_descriptor "default" then base
      else (base ++ [("pitch", pitch_descriptor)])%list).

(** The children of the prosody element that carry the text (lines 64-71),
    with the text placed on the prosody element itself in the last case. *)
Definition emphasis_part (intensity : float) (safe_text : string)
  : option string * list Element :=
  if fge intensity c0_65
  then (None, [Elem "emphasis" [("level", "strong")] (Some safe_text) []])
  else if fge intensity c0_35
  then (None, [Elem "emphasis" [("level", "moderate")] (Some safe_text) []])
  else (Some safe_text, []).

(** The pause appended after the text (lines 73-76). *)
Definition break_part (emotion : emotion.EmotionResult) : list Element :=
  match emotion.label emotion with
  | emotion.negative => [Elem "break" [("time", "250ms")] None []]
  | emotion.positive =>
      if fge (emotion.intensity emotion) c0_5
      then [Elem "break" [("strength", "medium")] None []]
      else []
  | emotion.neutral => []
  end.

(** The element tree [SSMLComposer.build] serialises. *)
Definition build_root (text : string) (emotion : emotion.EmotionResult)
    (profile : config.VoiceProfile) (applied_rate : Z) (applied_volume : float)
    (applied_pitch : option Z) : result Element :=
  let safe_text := html_escape (strip text) in
  attrs <- prosody_attrs profile applied_rate applied_volume applied_pitch ;;
  let '(prosody_text, emphasis) :=
    emphasis_part (emotion.intensity emotion) safe_text in
  let prosody :=
    Elem "prosody" attrs prosody_text (emphasis ++ break_part emotion)%list in
  Ok (Elem "speak" [("xmlns", namespace); ("version", "1.0")] None [prosody]).

(** The escaping [ElementTree] applies to text and to attribute values. *)
Fixpoint escape_cdata (s : string) : string :=
  match s with
  | EmptyString => EmptyString
  | String c s' =>
      let rest := escape_cdata s' in
      if Ascii.eqb c "&" then "&amp;" ++ rest
      else if Ascii.eqb c "<" then "&lt;" ++ rest
      else if Ascii.eqb c ">" then "&gt;" ++ rest
      else String c rest
  end.

Fixpoint escape_attrib (s : string) : string :=
  match s with
  | EmptyString => EmptyString
  | String c s' =>
      let rest := escape_attrib s' in
      if Ascii.eqb c "&" then "&amp;" ++ rest
      else if Ascii.eqb c "<" then "&lt;" ++ rest
      else if Ascii.eqb c ">" then "&gt;" ++ rest
      else if Ascii.eqb c dquote then "&quot;" ++ rest
      else if Ascii.eqb c (ascii_of_nat 13) then "&#13;" ++ rest
      else if Ascii.eqb c (ascii_of_nat 10) then "&#10;" ++ rest
      else if Ascii.eqb c (ascii_of_nat 9) then "&#09;" ++ rest
      else String c rest
  end.

Definition write_attrib (kv : string * string) : string :=
  " " ++ fst kv ++ "=" ++ String dquote (escape_attrib (snd kv))
      ++ String dquote EmptyString.

(** [tostring(root, encoding="unicode")]: an element without text and
    without children is written in the short form. *)
Fixpoint tostring (e : Element) : string :=
  let 'Elem tag attrib text children := e in
  let body :=
    match text with Some t => escape_cdata t | None => EmptyString end
    ++ concat EmptyString (map tostring children) in
  let no_text :=
    match text with Some t => is_empty t | None => true end in
  "<" ++ tag ++ concat EmptyString (map write_attrib attrib)
      ++ (if no_text && match children with [] => true | _ => false end
          then " />"
          else ">" ++ body ++ "</" ++ tag ++ ">").

(** [SSMLComposer.build] *)
Definition build (text : string) (emotion : emotion.EmotionResult)
    (profile : config.VoiceProfile) (applied_rate : Z) (applied_volume : float)
    (applied_pitch : option Z) : result string :=
  root <- build_root text emotion profile applied_rate applied_volume
            applied_pitch ;;
  Ok (tostring root).

End ssml.

(* ================================================================= *)
(** ** speech.py *)

Module speech.

(** The properties of the [pyttsx3] engine that [synthesize] sets, and the
    jobs it has rendered, newest first, each with the properties in force
    when it ran.  [pitch = None] is the driver's own default. *)
Record Job : Type := {
  job_text : string;
  job_destination : string;
  job_rate : Z;
  job_volume : float;
  job_pitch : option Z
}.

Record Engine : Type := {
  rate : Z;
  volume : float;
  pitch : option Z;
  jobs : list Job
}.

(** The driver behind the engine: whether it exposes a pitch property, and
    whether rendering a given text to a given destination fails. *)
Record Driver : Type := {
  supports_pitch : bool;
  render_fails : string -> string -> bool
}.

Record SpeechSynthesizer : Type := {
  _engine : Engine;
  _default_rate : Z;
  _default_volume : float
}.

(** [SpeechSynthesizer.__init__]: the defaults are read once, here. *)
Definition init (engine : Engine) : SpeechSynthesizer :=
  {| _engine := engine;
     _default_rate := rate engine;
     _default_volume := volume engine |}.

Definition set_rate (r : Z) (e : Engine) : Engine :=
  {| rate := r; volume := volume e; pitch := pitch e; jobs := jobs e |}.

Definition set_volume (v : float) (e : Engine) : Engine :=
  {| rate := rate e; volume := v; pitch := pitch e; jobs := jobs e |}.

(** [setProperty("pitch", p)] inside [try ... except Exception: pass]. *)
Definition try_set_pitch (drv : Driver) (p : Z) (e : Engine) : Engine :=
  if supports_pitch drv
  then {| rate := rate e; volume := volume e; pitch := Some p; jobs := jobs e |}
  else e.

(** [save_to_file] followed by [runAndWait]. *)
Definition render (drv : Driver) (text destination : string) (e : Engine)
  : result Engine :=
  if render_fails drv text destination then Raise DriverError
  else Ok {| rate := rate e; volume := volume e; pitch := pitch e;
             jobs := {| job_text := text; job_destination := destination;
                        job_rate := rate e; job_volume := volume e;
                        job_pitch := pitch e |} :: jobs e |}.

Definition with_engine (self : SpeechSynthesizer) (e : Engine)
  : SpeechSynthesizer :=
  {| _engine := e;
     _default_rate := _default_rate self;
     _default_volume := _default_volume self |}.

(** [SpeechSynthesizer.synthesize]: the synthesizer after the call, and the
    path returned or the exception.  [destination] is the path the audio is
    written to, [destination_path] of line 29. *)
Definition synthesize (drv : Driver) (self : SpeechSynthesizer) (text : string)
    (rate : option Z) (volume : option float) (pitch : option Z)
    (destination : string) : SpeechSynthesizer * result string :=
  let e1 :=
    match rate with Some r => set_rate r (_engine self) | None => _engine self end in
  let e2 :=
    match volume with
    | Some v => set_volume (py_max f0 (py_min f1 v)) e1
    | None => e1
    end in
  let e3 :=
    match pitch with Some p => try_set_pitch drv p e2 | None => e2 end in
  match render drv text destination e3 with
  | Raise exc => (with_engine self e3, Raise exc)
  | Ok e4 =>
      let e5 := set_rate (_default_rate self) e4 in
      let e6 := set_volume (_default_volume self) e5 in
      (with_engine self e6, Ok destination)
  end.

End speech.

(* ================================================================= *)
(** ** service.py, the orchestration *)

Module engine.

Record EmpathyResponse : Type := {
  audio_path : string;
  emotion : emotion.EmotionResult;
  voice_profile : config.VoiceProfile;
  applied_rate : Z;
  applied_volume : float;
  applied_pitch : option Z;
  ssml : string
}.

Record EmpathyEngine : Type := {
  _mapping : config.EmotionMapping;
  _synthesizer : speech.SpeechSynthesizer;
  _output_directory : string
}.

Definition with_synthesizer (self : EmpathyEngine)
    (s : speech.SpeechSynthesizer) : EmpathyEngine :=
  {| _mapping := _mapping self; _synthesizer := s;
     _output_directory := _output_directory self |}.

(** [EmpathyEngine.speak_to_file]: the engine after the call, the texts
    submitted to the classifier, and the response or the exception.  The
    destination [self._output_directory / output_filename] is written as
    the directory, a slash and the file name, which is what [pathlib] gives
    for a relative file name under a directory other than the root. *)
Definition speak_to_file (env : emotion.Env) (drv : speech.Driver)
    (self : EmpathyEngine) (text : string) (filename : option string)
  : EmpathyEngine * list string * result EmpathyResponse :=
  let '(sent, detected) := emotion.detect env text in
  let prepared :=
    emo <- detected ;;
    profile <- config.get (_mapping self) (emotion.label_str (emotion.label emo)) ;;
    params <- service._modulate_parameters profile emo ;;
    Ok (emo, profile, params) in
  match prepared with
  | Raise exc => (self, sent, Raise exc)
  | Ok (emo, profile, (rate, volume, pitch)) =>
      let output_filename :=
        match filename with
        | Some f => if PyStr.is_empty f
                    then service._build_filename (emotion.label_str (emotion.label emo))
                    else f
        | None => service._build_filename (emotion.label_str (emotion.label emo))
        end in
      let destination := _output_directory self ++ "/" ++ output_filename in
      let '(synth, rendered) :=
        speech.synthesize drv (_synthesizer self) text (Some rate) (Some volume)
          pitch destination in
      (with_synthesizer self synth, sent,
       audio <- rendered ;;
       markup <- ssml.build text emo profile rate volume pitch ;;
       Ok {| audio_path := audio; emotion := emo; voice_profile := profile;
             applied_rate := rate; applied_volume := volume;
             applied_pitch := pitch; ssml := markup |})
  end.

End engine.

(** [not s] for an optional string: [None] and the empty string. *)
Definition none_or_empty (s : option string) : bool :=
  match s with
  | None => true
  | Some v => PyStr.is_empty v
  end.

(* ================================================================= *)
(** ** emotion.py, the construction of the detector *)

Module EmotionDetector.

(** What [__init__] keeps on the detector; [headers] are the ones it adds
    to the session. *)
Record EmotionDetector : Type := {
  _model_id : string;
  _token : string;
  _timeout : float;
  _endpoint : string;
  headers : list (string * string)
}.

(** [_resolve_token]; [getenv] is [os.getenv] on the environment as
    [load_dotenv()] leaves it. *)
Fixpoint _resolve_token (getenv : string -> option string)
    (env_vars : list string) : option string :=
  match env_vars with
  | [] => None
  | name :: rest =>
      match getenv name with
      | Some value =>
          if PyStr.is_empty value then _resolve_token getenv rest
          else Some value
      | None => _resolve_token getenv rest
      end
  end.

Definition default_model_id : string :=
  "cardiffnlp/twitter-roberta-base-sentiment-latest".

Definition default_env_vars : list string :=
  ["HF_TOKEN"; "HUGGINGFACEHUB_API_TOKEN"].

Definition default_timeout : float := Eval vm_compute in of_Z 10.

Definition missing_token (env_vars : list string) : exn :=
  RuntimeError
    ("Set one of the following environment variables "
     ++ "for the Hugging Face API token: "
     ++ PyStr.join ", " env_vars ++ ".").

(** [EmotionDetector.__init__] *)
Definition __init__ (getenv : string -> option string) (model_id : string)
    (token : option string) (env_vars : list string) (timeout : float)
  : result EmotionDetector :=
  let resolved :=
    if none_or_empty token then _resolve_token getenv env_vars else token in
  match resolved with
  | None => Raise (missing_token env_vars)
  | Some tok =>
      if PyStr.is_empty tok then Raise (missing_token env_vars)
      else
        Ok {| _model_id := model_id;
              _token := tok;
              _timeout := timeout;
              _endpoint :=
                "https://router.huggingface.co/hf-inference/models/"
                ++ model_id;
              headers := [ ("Authorization", "Bearer " ++ tok);
                           ("Accept", "application/json");
                           ("Content-Type", "application/json") ] |}
  end.

End EmotionDetector.

(* ================================================================= *)
(** ** service.py, the construction of the engine *)

Module EmpathyEngine.

(** [EmpathyEngine.__init__], in the order of lines 72-77: the arguments
    that are [None] are built with their defaults, the detector from the
    environment and then the synthesizer on the engine that
    [pyttsx3.init()] hands out ([tts]: the engine with its properties, or
    the exception raised when no driver can be loaded); the output
    directory is then resolved ([resolve] is [Path.resolve]) and created
    ([mkdir] is [Path.mkdir(parents=True, exist_ok=True)]).  The detector
    is returned beside the engine; its requests are those of the [Env]. *)
Definition __init__ (getenv : string -> option string)
    (tts : result speech.Engine) (resolve : string -> result string)
    (mkdir : string -> result unit)
    (mapping : option config.EmotionMapping)
    (detector : option EmotionDetector.EmotionDetector)
    (synthesizer : option speech.SpeechSynthesizer)
    (output_directory : string)
  : result (engine.EmpathyEngine * EmotionDetector.EmotionDetector) :=
  let mapping_ :=
    match mapping with Some m => m | None => service._default_mapping end in
  detector_ <-
    match detector with
    | Some d => Ok d
    | None =>
        EmotionDetector.__init__ getenv EmotionDetector.default_model_id None
          EmotionDetector.default_env_vars EmotionDetector.default_timeout
    end ;;
  synthesizer_ <-
    match synthesizer with
    | Some s => Ok s
    | None => e <- tts ;; Ok (speech.init e)
    end ;;
  directory <- resolve output_directory ;;
  mkdir directory ;;
  Ok ({| engine._mapping := mapping_;
         engine._synthesizer := synthesizer_;
         engine._output_directory := directory |},
      detector_).

End EmpathyEngine.

(* ================================================================= *)
(** ** api.py *)

Module api.

Record SynthesisRequest : Type := {
  text : string;
  filename : option string;
  include_ssml : bool
}.

Record SynthesisResponse : Type := {
  emotion : string;
  intensity : float;
  rate : Z;
  volume : float;
  pitch : option Z;
  audio_path : string;
  ssml : option string
}.

(** How a call of the handler ends: with its response, with the
    [HTTPException] it raises, or with an exception of the engine. *)
Inductive outcome : Type :=
| Returned (response : SynthesisResponse)
| HTTPException (status_code : Z) (detail : string)
| Failed (e : exn).

(** [synthesize], the handler of [POST /synthesize], on the module's
    engine [_engine] and a request that has passed validation: the engine
    after the call, the texts submitted to the classifier, and the
    outcome. *)
Definition synthesize (env : emotion.Env) (drv : speech.Driver)
    (_engine : engine.EmpathyEngine) (request : SynthesisRequest)
  : engine.EmpathyEngine * list string * outcome :=
  let text := PyStr.strip (text request) in
  if PyStr.is_empty text
  then (_engine, [], HTTPException 400 "Input text is empty.")
  else
    let '(engine', sent, result) :=
      engine.speak_to_file env drv _engine text (filename request) in
    (engine', sent,
     match result with
     | Raise exc => Failed exc
     | Ok response =>
         Returned
           {| emotion :=
                emotion.label_str (emotion.label (engine.emotion response));
              intensity := emotion.intensity (engine.emotion response);
              rate := engine.applied_rate response;
              volume := engine.applied_volume response;
              pitch := engine.applied_pitch response;
              audio_path := engine.audio_path response;
              ssml := if include_ssml request
                      then Some (engine.ssml response) else None |}
     end).

End api.

(* ================================================================= *)
(** ** cli.py *)

Module cli.






(** How the command ends: normally, with the [BadParameter] it raises, or
    with another exception. *)
Inductive outcome : Type :=
| Finished
| BadParameter (message : string)
| Failed (e : exn).





End cli.

(* ================================================================= *)
(** ** Sample inputs used by the examples below *)

Module sample.
Import emotion.

Definition score_item (l : string) (s : float) : json :=
  JDict [("label", JStr l); ("score", JFloat s)].

(** An endpoint that always answers with [data]. *)
Definition answering (data : json) : Env :=
  {| post := fun _ => Response data; float_of_str := fun _ => None |}.

Definition c0_9 : float := Eval vm_compute in dec 9 1.
Definition c0_07 : float := Eval vm_compute in dec 7 2.
Definition cm0_5 : float := Eval vm_compute in SFopp (dec 5 1).
Definition c0_1 : float := Eval vm_compute in dec 1 1.

Definition positive_answer : json :=
  JList [JList [score_item "positive" c0_9; score_item "neutral" c0_07;
                score_item "negative" c0_03]].

(** Three scores below zero. *)
Definition negative_scores_answer : json :=
  JList [JList [score_item "positive" cm0_5; score_item "neutral" cm0_5;
                score_item "negative" cm0_5]].

(** A response with no class score at all, and one with foreign labels. *)
Definition no_scores_answer : json := JList [JList []].

Definition foreign_labels_answer : json :=
  JList [JList [score_item "joy" c0_9; score_item "anger" c0_07]].

(** A tie between positive and negative, and a neutral score that is not
    a number. *)
Definition tie_answer : json :=
  JList [JList [score_item "positive" c0_9; score_item "neutral" c0_07;
                score_item "negative" c0_9]].

Definition nan_answer : json :=
  JList [JList [score_item "positive" c0_9; score_item "neutral" S754_nan;
                score_item "negative" c0_07]].

(** The canonical positive score is 0.0 and the ordinal one is not. *)
Definition zero_positive_answer : json :=
  JList [JList [score_item "positive" f0; score_item "LABEL_2" c0_9;
                score_item "neutral" c0_07; score_item "negative" c0_03]].

(** A profile with a baseline pitch and no pitch delta range. *)
Definition low_pitch_profile : config.VoiceProfile :=
  {| config.label := "calm"; config.rate := 150; config.volume := c0_9;
     config.pitch := Some 20;
     config.rate_delta_range := (0, 0);
     config.volume_delta_range := (f0, f0);
     config.pitch_delta_range := None |}.

Definition default_engine : speech.Engine :=
  {| speech.rate := 200; speech.volume := f1; speech.pitch := None;
     speech.jobs := [] |}.

Definition good_driver : speech.Driver :=
  {| speech.supports_pitch := true; speech.render_fails := fun _ _ => false |}.

Definition failing_driver : speech.Driver :=
  {| speech.supports_pitch := true; speech.render_fails := fun _ _ => true |}.

Definition default_empathy_engine : engine.EmpathyEngine :=
  {| engine._mapping := service._default_mapping;
     engine._synthesizer := speech.init default_engine;
     engine._output_directory := "outputs" |}.

(** A negative emotion at intensity 0.0, and the tree built for it. *)
Definition sorry_emotion : EmotionResult :=
  {| label := negative; intensity := f0 |}.

Definition sorry_root : ssml.Element :=
  ssml.Elem "speak" [("xmlns", ssml.namespace); ("version", "1.0")] None
    [ssml.Elem "prosody" [("rate", "100%"); ("volume", "medium")]
       (Some "Sorry")
       [ssml.Elem "break" [("time", "250ms")] None []]].

End sample.

(* ================================================================= *)
(** * Vocabulary of the statements and proofs *)

(** *** Floats: order, sign, value *)

(** The rank of a float that is not NaN: [SFcompare] is the lexicographic
    comparison of ranks, whether the mantissas are canonical or not. *)
Definition key (x : float) : Z * Z * Z :=
  match x with
  | S754_nan => (0, 0, 0)
  | S754_zero _ => (0, 0, 0)
  | S754_infinity s => (if s then -2 else 2, 0, 0)
  | S754_finite s m e => if s then (-1, - e, Zneg m) else (1, e, Zpos m)
  end.

Definition lex3 (a b : Z * Z * Z) : comparison :=
  let '(a1, a2, a3) := a in
  let '(b1, b2, b3) := b in
  match a1 ?= b1 with
  | Eq => match a2 ?= b2 with Eq => a3 ?= b3 | c => c end
  | c => c
  end.

Definition lex3_le (a b : Z * Z * Z) : Prop :=
  let '(a1, a2, a3) := a in
  let '(b1, b2, b3) := b in
  a1 < b1 \/ (a1 = b1 /\ (a2 < b2 \/ (a2 = b2 /\ a3 <= b3))).

(** [x] is a zero, a finite float or an infinity of sign [s]. *)
Definition has_sign (s : bool) (x : float) : Prop :=
  match x with
  | S754_zero s' | S754_infinity s' | S754_finite s' _ _ => s' = s
  | S754_nan => False
  end.

(** [0.0 <= x] *)
Definition nonneg (x : float) : Prop := fle f0 x = true.

(** Where a remainder [rem] out of [pow] lies: the location the rounding
    reads. *)
Definition loc_val (rem pow : Z) : location :=
  if rem =? 0 then loc_Exact else loc_Inexact (2 * rem ?= pow).

(** The state of the shift loop after [k] steps on [m]. *)
Definition shifted (m k : Z) (mrs : shr_record) : Prop :=
  shr_m mrs = m / 2 ^ k
  /\ loc_of_shr_record mrs = loc_val (m mod 2 ^ k) (2 ^ k).

(** Float values are read as integers, in units of [2^-bias]: every
    binary64 value, and every exact product of two, is such an integer. *)
Definition bias : Z := 2148.

(** The exponent of the last place of a positive value [N], in the same
    units: 53 digits are kept, down to the smallest subnormal. *)
Definition ulp_exp (N : Z) : Z := Z.max (Z.log2 N - 52) 1074.

(** The quotient to keep, given the remainder [r] out of [P]: to nearest,
    ties to even. *)
Definition pick (q r P : Z) : Z :=
  match 2 * r ?= P with
  | Lt => q
  | Eq => if Z.even q then q else q + 1
  | Gt => q + 1
  end.

(** Rounding of a value [0 <= N] to the binary64 grid, without overflow. *)
Definition rnd_val (N : Z) : Z :=
  let P := 2 ^ ulp_exp N in
  pick (N / P) (N mod P) P * P.

(** Rounding of a signed value. *)
Definition srnd (N : Z) : Z :=
  if N <? 0 then - rnd_val (- N) else rnd_val N.

(** The value of the infinities, and overflow to them. *)
Definition top : Z := 2 ^ (1024 + bias).

Definition clamp (V : Z) : Z := Z.max (- top) (Z.min V top).

(** The value of a float in units of [2^-bias]. *)
Definition Fval (x : float) : Z :=
  match x with
  | S754_zero _ | S754_nan => 0
  | S754_infinity s => cond_Zopp s top
  | S754_finite s m e => cond_Zopp s (Zpos m * 2 ^ (e + bias))
  end.

(** A float in good standing: canonical, and not NaN. *)
Definition wf (x : float) : Prop := valid x = true /\ is_nan x = false.

(** *** Text *)

(** Empty, or white space only. *)
Fixpoint all_space (s : string) : bool :=
  match s with
  | EmptyString => true
  | String c s' => PyStr.isspace c && all_space s'
  end.

(** *** The claims *)

(** C2: an application-level error object. *)
Definition is_error_object (data : emotion.json) : bool :=
  match data with
  | emotion.JDict fields => emotion.has_key "error" fields
  | _ => false
  end.

(** C2: a non-empty list or string whose first item is neither a list nor
    an object with a label. *)
Definition first_is_not_scores (data : emotion.json) : bool :=
  match data with
  | emotion.JList (first :: _) =>
      match first with
      | emotion.JList _ => false
      | emotion.JDict fields => negb (emotion.has_key "label" fields)
      | _ => true
      end
  | emotion.JStr (String _ _) => true
  | _ => false
  end.

(** C3: the score of a class among the three. *)
Definition score_of (l : emotion.EmotionLabel) (p n g : float) : float :=
  match l with
  | emotion.positive => p
  | emotion.neutral => n
  | emotion.negative => g
  end.

(** C4: the three class scores read from the response to [text] are at
    least 0. *)
Definition scores_nonneg (env : emotion.Env) (text : string) : Prop :=
  forall data p n g,
    emotion.post env (emotion.clean text) = emotion.Response data ->
    emotion.class_scores env data = Ok (p, n, g) ->
    nonneg p /\ nonneg n /\ nonneg g.

(** C5: the pitch returned for a profile. *)
Definition pitch_outcome (profile : config.VoiceProfile) (p : option Z)
  : Prop :=
  match config.pitch profile, config.pitch_delta_range profile with
  | Some _, Some _ => exists q, p = Some q /\ 30 <= q
  | Some base, None => p = Some base
  | None, _ => p = None
  end.





(** C6: an intensity in [0, 1]. *)
Definition unit_interval (i : float) : Prop :=
  wf i /\ fle f0 i = true /\ fle i f1 = true.

(** [end - start] as [_interpolate] uses it, a float. *)
Definition difference (lo hi : num) : result float :=
  d <- num_sub hi lo ;; to_float d.


(** A baseline and an integer delta range whose extreme sums fit a float:
    then the rounded sum exists at every intensity in between. *)
Definition corners_fit (base : Z) (range : Z * Z) : Prop :=
  exists fb flo d,
    of_int base = Ok fb
    /\ of_int (fst range) = Ok flo
    /\ of_int (snd range - fst range) = Ok d
    /\ is_finite (fadd flo d) = true
    /\ is_finite (fadd fb flo) = true
    /\ is_finite (fadd fb (fadd flo d)) = true.

(** C7: a positive emotion at intensity 1.0. *)
Definition full_positive : emotion.EmotionResult :=
  {| emotion.label := emotion.positive; emotion.intensity := f1 |}.

(** C8: every element of a tree, the pause elements among them, and the
    two pauses [build] can append. *)
Fixpoint elements (e : ssml.Element) : list ssml.Element :=
  let 'ssml.Elem _ _ _ children := e in
  e :: (fix go (l : list ssml.Element) : list ssml.Element :=
          match l with
          | [] => []
          | c :: rest => (elements c ++ go rest)%list
          end) children.

Definition pauses (root : ssml.Element) : list ssml.Element :=
  filter (fun e => String.eqb (ssml.tag_of e) "break") (elements root).

Definition pause_250ms : ssml.Element :=
  ssml.Elem "break" [("time", "250ms")] None [].

Definition pause_medium : ssml.Element :=
  ssml.Elem "break" [("strength", "medium")] None [].

(** C7, C8: [w in s] on strings; a value between double quotes, as the
    serialiser writes an attribute; and the two pause elements as they are
    written. *)
Fixpoint occurs (w s : string) : bool :=
  String.prefix w s
  || match s with
     | EmptyString => false
     | String _ s' => occurs w s'
     end.

Definition quoted (s : string) : string :=
  String PyStr.dquote (s ++ String PyStr.dquote EmptyString).

Definition written_pause_250ms : string :=
  "<break time=" ++ quoted "250ms" ++ " />".

Definition written_pause_medium : string :=
  "<break strength=" ++ quoted "medium" ++ " />".

(** No [<] of [s] is followed by the letter b or stands at the end of [s]:
    no break element starts in [s], nor across its end. *)
Fixpoint no_break_start (s : string) : bool :=
  match s with
  | EmptyString => true
  | String c s' =>
      (if Ascii.eqb c "<"
       then match s' with
            | String d _ => negb (Ascii.eqb d "b")
            | EmptyString => false
            end
       else true)
      && no_break_start s'
  end.

(** C10: the score kept under an ordinal label, 0.0 when there is none. *)
Definition ordinal_score (m : list (string * float)) (ordinal : string)
  : float :=
  match emotion.dict_get ordinal m with Some v => v | None => f0 end.

(** *** Further properties *)

(** Words separated by single spaces: [prev] tells that a word must start
    here (at the beginning, or after a space). *)
Fixpoint single_spaced (s : string) (prev : bool) : bool :=
  match s with
  | EmptyString => negb prev
  | String c s' =>
      if PyStr.isspace c
      then Ascii.eqb c " " && negb prev && single_spaced s' true
      else single_spaced s' false
  end.

(** A text in normal form: not empty, no white space but single spaces
    between words, none at either end. *)
Definition normalized (s : string) : bool := single_spaced s true.

(** A word: not empty, no white space. *)
Definition no_space (s : string) : bool :=
  negb (PyStr.is_empty s)
  && forallb (fun c => negb (PyStr.isspace c)) (list_ascii_of_string s).

(** The emphasis elements of a tree, and the texts its elements carry. *)
Definition emphases (root : ssml.Element) : list ssml.Element :=
  filter (fun e => String.eqb (ssml.tag_of e) "emphasis") (elements root).

Definition texts (root : ssml.Element) : list string :=
  flat_map (fun e => match ssml.text_of e with Some t => [t] | None => [] end)
    (elements root).

(** The emphasis element [build] makes at a given level. *)
Definition emphasis_at (level safe_text : string) : ssml.Element :=
  ssml.Elem "emphasis" [("level", level)] (Some safe_text) [].

(** A text without any of the five characters [html.escape] replaces. *)
Definition is_special (c : ascii) : bool :=
  Ascii.eqb c "&" || Ascii.eqb c "<" || Ascii.eqb c ">"
  || Ascii.eqb c PyStr.dquote || Ascii.eqb c PyStr.squote.

Fixpoint plain (s : string) : bool :=
  match s with
  | EmptyString => true
  | String c s' => negb (is_special c) && plain s'
  end.

(** The volume descriptors, from the softest to the loudest. *)
Definition loudness (descriptor : string) : Z :=
  if String.eqb descriptor "x-soft" then 0
  else if String.eqb descriptor "soft" then 1
  else if String.eqb descriptor "medium" then 2
  else if String.eqb descriptor "loud" then 3
  else 4.

(** The text as the document shows it: stripped and escaped by [build],
    escaped once more by the serialiser. *)
Definition written_text (text : string) : string :=
  ssml.escape_cdata (PyStr.html_escape (PyStr.strip text)).

(** The nearest integer of a value given in units of [2^-bias], ties to
    even: what [round] computes on a float. *)
Definition int_round (N : Z) : Z :=
  pick (N / 2 ^ bias) (N mod 2 ^ bias) (2 ^ bias).

Definition sint_round (N : Z) : Z :=
  if N <? 0 then - int_round (- N) else int_round N.

(** A profile whose numbers are in good standing: the extreme sums of the
    rate and of the pitch fit a float, and the volume and the ends of its
    delta range are finite floats whose difference and sum are finite. *)
Definition volume_fits (volume : float) (range : float * float) : Prop :=
  let '(lo, hi) := range in
  (wf volume /\ is_finite volume = true)
  /\ (wf lo /\ is_finite lo = true)
  /\ (wf hi /\ is_finite hi = true)
  /\ is_finite (fsub hi lo) = true
  /\ is_finite (fadd lo (fsub hi lo)) = true.

Definition profile_fits (profile : config.VoiceProfile) : Prop :=
  corners_fit (config.rate profile) (config.rate_delta_range profile)
  /\ volume_fits (config.volume profile) (config.volume_delta_range profile)
  /\ (forall p range,
         config.pitch profile = Some p ->
         config.pitch_delta_range profile = Some range ->
         corners_fit p range).

(** The order of two optional pitches: both absent, or both present and
    ordered. *)
Definition opt_le (a b : option Z) : Prop :=
  match a, b with
  | Some x, Some y => x <= y
  | None, None => True
  | _, _ => False
  end.

(** The ends of the ranges that the default table reaches. *)
Definition c0_84 : float := Eval vm_compute in dec 84 2.
Definition c0_92 : float := Eval vm_compute in dec 92 2.

Definition default_ranges (l : emotion.EmotionLabel)
  : (Z * Z) * (float * float) * (Z * Z) :=
  match l with
  | emotion.positive => ((186, 231), (service.c0_95, f1), (70, 82))
  | emotion.neutral => ((170, 180), (c0_84, c0_92), (61, 68))
  | emotion.negative => ((120, 160), (ssml.c0_65, service.c0_8), (46, 58))
  end.

(** An environment variable that is not set, or set to nothing. *)
Definition unset (getenv : string -> option string) (name : string) : Prop :=
  match getenv name with
  | Some value => value = EmptyString
  | None => True
  end.



(** A class score in good standing: a finite float at least 0. *)
Definition score_ok (x : float) : Prop :=
  wf x /\ is_finite x = true /\ nonneg x.

(** The integers [lo], [lo + 1], ..., [n] of them. *)
Definition zrange (lo : Z) (n : nat) : list Z :=
  map (fun k => lo + Z.of_nat k) (seq 0 n).

Definition returns {A : Type} (r : result A) : bool :=
  match r with Ok _ => true | Raise _ => false end.

(* ================================================================= *)
(** * The embedded builtins on small inputs *)

Section Builtins.
Import PyStr.

(** 0.1 is [0x1.999999999999ap-4]; 0.1 + 0.2 is not 0.3. *)
Example literal_0_1 : dec 1 1 = S754_finite false 7205759403792794 (-56).
Proof. reflexivity. Qed.

Example sum_0_1_0_2 : feq (fadd (dec 1 1) (dec 2 1)) (dec 3 1) = false.
Proof. reflexivity. Qed.

(** [round] goes to the even neighbour on a tie. *)
Example round_ties :
  (py_round (dec 5 1), py_round (dec 15 1), py_round (dec 25 1),
   py_round (SFopp (dec 5 1)), py_round (dec 2419 1))
  = (Ok 0, Ok 2, Ok 2, Ok 0, Ok 242).
Proof. reflexivity. Qed.

(** [float(2**53 + 1)] is [2.0**53], and [float(2**1024)] raises. *)
Example int_conversion :
  of_int (2 ^ 53 + 1) = Ok (S754_finite false 4503599627370496 1)
  /\ of_int (2 ^ 1024) = Raise OverflowError.
Proof. split; vm_compute; reflexivity. Qed.

Example one_third : int_truediv 1 3 = Ok (S754_finite false 6004799503160661 (-54)).
Proof. vm_compute. reflexivity. Qed.

Example clean_text :
  emotion.clean "  I   am  here  " = "I am here".
Proof. reflexivity. Qed.

Example count_no_overlap : (count "aa" "aaaaa", count "so" "so sore, also so") = (2, 4).
Proof. reflexivity. Qed.

Example escape_text : html_escape "a<b & 'c'" = "a&lt;b &amp; &#x27;c&#x27;".
Proof. reflexivity. Qed.

Example lower_text : lower "ReALLy So" = "really so".
Proof. reflexivity. Qed.

Example negative_step : ssml._pitch_step (Some 58) (Some 46) = "-12st".
Proof. reflexivity. Qed.

End Builtins.

(* ================================================================= *)
(** * Floats: the order *)

Section Order.

Lemma SFcompare_key (x y : float) :
  is_nan x = false -> is_nan y = false ->
  SFcompare x y = Some (lex3 (key x) (key y)).
Proof.
  destruct x as [sx|sx| |sx mx ex], y as [sy|sy| |sy my ey];
    try discriminate; intros _ _; simpl;
    try (destruct sx); try (destruct sy); simpl; try reflexivity.
  rewrite Z.compare_opp.
  destruct (Z.compare_spec ex ey), (Z.compare_spec ey ex); try lia; reflexivity.
Qed.

Lemma lex3_antisym (a b : Z * Z * Z) : lex3 b a = CompOpp (lex3 a b).
Proof.
  destruct a as [[a1 a2] a3], b as [[b1 b2] b3]; simpl.
  rewrite (Z.compare_antisym a1 b1), (Z.compare_antisym a2 b2),
    (Z.compare_antisym a3 b3).
  destruct (a1 ?= b1), (a2 ?= b2), (a3 ?= b3); reflexivity.
Qed.

Lemma lex3_le_spec (a b : Z * Z * Z) : lex3 a b <> Gt <-> lex3_le a b.
Proof.
  destruct a as [[a1 a2] a3], b as [[b1 b2] b3]; simpl.
  destruct (Z.compare_spec a1 b1), (Z.compare_spec a2 b2),
    (Z.compare_spec a3 b3);
    split; intros; try congruence; try lia.
Qed.

Lemma lex3_le_trans (a b c : Z * Z * Z) :
  lex3_le a b -> lex3_le b c -> lex3_le a c.
Proof.
  destruct a as [[a1 a2] a3], b as [[b1 b2] b3], c as [[c1 c2] c3]; simpl; lia.
Qed.

Lemma fle_not_nan (x y : float) :
  fle x y = true -> is_nan x = false /\ is_nan y = false.
Proof. destruct x, y; try discriminate; auto. Qed.

Lemma fle_key (x y : float) :
  fle x y = true
  <-> (is_nan x = false /\ is_nan y = false /\ lex3_le (key x) (key y)).
Proof.
  split.
  - intros H. destruct (fle_not_nan x y H) as [Hx Hy].
    unfold fle, SFleb in H. rewrite (SFcompare_key _ _ Hx Hy) in H.
    repeat split; auto. apply lex3_le_spec.
    destruct (lex3 (key x) (key y)); congruence.
  - intros (Hx & Hy & H). unfold fle, SFleb.
    rewrite (SFcompare_key _ _ Hx Hy).
    apply lex3_le_spec in H. destruct (lex3 (key x) (key y)); congruence.
Qed.

Lemma fle_trans (x y z : float) :
  fle x y = true -> fle y z = true -> fle x z = true.
Proof.
  rewrite !fle_key. intros (? & ? & ?) (? & ? & ?).
  repeat split; auto. eapply lex3_le_trans; eauto.
Qed.

Lemma fle_refl (x : float) : is_nan x = false -> fle x x = true.
Proof.
  intros H. apply fle_key. repeat split; auto.
  destruct (key x) as [[a1 a2] a3]; simpl; lia.
Qed.

Lemma flt_fle (x y : float) : flt x y = true -> fle x y = true.
Proof.
  unfold flt, fle, SFltb, SFleb. destruct (SFcompare x y) as [[]|]; congruence.
Qed.

(** On numbers the order is total: [not (y < x)] is [x <= y]. *)
Lemma not_flt_fle (x y : float) :
  is_nan x = false -> is_nan y = false -> flt y x = false -> fle x y = true.
Proof.
  intros Hx Hy. unfold flt, fle, SFltb, SFleb.
  rewrite (SFcompare_key _ _ Hx Hy), (SFcompare_key _ _ Hy Hx).
  rewrite (lex3_antisym (key x) (key y)).
  destruct (lex3 (key x) (key y)); simpl; congruence.
Qed.

Lemma not_fle_flt (x y : float) :
  is_nan x = false -> is_nan y = false -> fle x y = false -> flt y x = true.
Proof.
  intros Hx Hy H. destruct (flt y x) eqn:E; auto.
  rewrite (not_flt_fle _ _ Hx Hy E) in H. discriminate.
Qed.

End Order.

(** The builtins [max] and [min] on floats. *)
Section MaxMin.

Lemma py_max_ge_r (a b : float) :
  is_nan a = false -> is_nan b = false -> fle b (py_max a b) = true.
Proof.
  intros Ha Hb. unfold py_max, fgt. destruct (SFltb a b) eqn:E.
  - apply fle_refl, Hb.
  - apply not_flt_fle; auto.
Qed.

Lemma py_max_ge_l (a b : float) :
  is_nan a = false -> fle a (py_max a b) = true.
Proof.
  intros Ha. unfold py_max, fgt. destruct (SFltb a b) eqn:E.
  - apply flt_fle, E.
  - apply fle_refl, Ha.
Qed.

Lemma py_max_lub (a b c : float) :
  fle a c = true -> fle b c = true -> fle (py_max a b) c = true.
Proof.
  intros Ha Hb. unfold py_max. destruct (fgt b a); auto.
Qed.

Lemma py_min_le_l (a b : float) :
  is_nan a = false -> fle (py_min a b) a = true.
Proof.
  intros Ha. unfold py_min. destruct (flt b a) eqn:E.
  - apply flt_fle, E.
  - apply fle_refl, Ha.
Qed.

End MaxMin.

(* ================================================================= *)
(** * Floats: the sign of a result *)

Section Signs.

Lemma iter_pos_invariant {A : Type} (P : A -> Prop) (f : A -> A) :
  (forall x, P x -> P (f x)) -> forall p x, P x -> P (iter_pos f p x).
Proof.
  intros Hf. induction p as [p IH|p IH|]; simpl; intros x Hx; auto.
Qed.

Lemma shr_1_nonneg (mrs : shr_record) : 0 <= shr_m mrs -> 0 <= shr_m (shr_1 mrs).
Proof.
  destruct mrs as [m r s]. simpl.
  destruct m as [|[p|p|]|[p|p|]]; simpl; lia.
Qed.

Lemma shr_nonneg (mrs : shr_record) (e n : Z) :
  0 <= shr_m mrs -> 0 <= shr_m (fst (shr mrs e n)).
Proof.
  intros H. destruct n as [|p|p]; simpl; auto.
  apply (iter_pos_invariant (fun x => 0 <= shr_m x)); auto using shr_1_nonneg.
Qed.

Lemma shr_fexp_nonneg (m e : Z) (l : location) :
  0 <= m -> 0 <= shr_m (fst (shr_fexp prec emax m e l)).
Proof.
  intros H. unfold shr_fexp. apply shr_nonneg.
  destruct l as [|[]]; simpl; auto.
Qed.

Lemma round_nearest_even_nonneg (m : Z) (l : location) :
  0 <= m -> 0 <= round_nearest_even m l.
Proof.
  intros H. destruct l as [|[]]; simpl; try lia. destruct (Z.even m); lia.
Qed.

Lemma binary_round_aux_sign (s : bool) (m e : Z) (l : location) :
  0 <= m -> has_sign s (binary_round_aux prec emax s m e l).
Proof.
  intros H. unfold binary_round_aux.
  pose proof (shr_fexp_nonneg m e l H) as H1.
  destruct (shr_fexp prec emax m e l) as [mrs' e'] eqn:E1. simpl in H1.
  pose proof (shr_fexp_nonneg _ e' loc_Exact
                (round_nearest_even_nonneg _ (loc_of_shr_record mrs') H1)) as H2.
  destruct (shr_fexp prec emax _ e' loc_Exact) as [mrs'' e''] eqn:E2. simpl in H2.
  destruct (shr_m mrs'') as [|p|p]; simpl; auto; try lia.
  destruct (_ <=? _); simpl; auto.
Qed.

Lemma binary_round_sign (s : bool) (m : positive) (e : Z) :
  has_sign s (binary_round prec emax s m e).
Proof.
  unfold binary_round. destruct (shl_align _ _ _) as [mz ez].
  apply binary_round_aux_sign. lia.
Qed.

Lemma nonneg_cases (x : float) :
  nonneg x <->
  match x with
  | S754_zero _ => True
  | S754_infinity s | S754_finite s _ _ => s = false
  | S754_nan => False
  end.
Proof.
  unfold nonneg, fle, SFleb. destruct x as [s|s| |s m e]; simpl; try destruct s;
    split; intros; try reflexivity; try discriminate; try contradiction; auto.
Qed.

Lemma has_sign_nonneg (x : float) : has_sign false x -> nonneg x.
Proof.
  intros H. apply nonneg_cases. destruct x; simpl in *; auto.
Qed.

Lemma of_Z_nonneg (n : Z) : 0 <= n -> nonneg (of_Z n).
Proof.
  intros H. apply has_sign_nonneg. unfold of_Z, binary_normalize.
  destruct n as [|p|p]; simpl; auto; [|lia]. apply binary_round_sign.
Qed.

Lemma of_int_nonneg (n : Z) (f : float) :
  0 <= n -> of_int n = Ok f -> nonneg f /\ is_finite f = true.
Proof.
  intros H. unfold of_int. pose proof (of_Z_nonneg n H) as Hs.
  destruct (of_Z n) eqn:E; intros [= <-]; split; auto.
Qed.

Lemma fmul_nonneg (x y : float) :
  nonneg x -> nonneg y -> is_finite x = true -> is_finite y = true ->
  nonneg (fmul x y).
Proof.
  rewrite !nonneg_cases.
  destruct x as [sx|sx| |sx mx ex], y as [sy|sy| |sy my ey]; simpl;
    try discriminate; try contradiction; intros Hx Hy _ _; subst; auto.
  apply nonneg_cases, has_sign_nonneg, binary_round_aux_sign. lia.
Qed.

Lemma fadd_nonneg (x y : float) : nonneg x -> nonneg y -> nonneg (fadd x y).
Proof.
  rewrite !nonneg_cases.
  destruct x as [sx|sx| |sx mx ex], y as [sy|sy| |sy my ey]; simpl;
    try contradiction; intros Hx Hy; subst; simpl; auto.
  - destruct sx, sy; simpl; auto.
  - apply nonneg_cases, has_sign_nonneg, binary_round_sign.
Qed.

Lemma py_min_nonneg (a b : float) : nonneg a -> nonneg b -> nonneg (py_min a b).
Proof. intros. unfold py_min. destruct (flt b a); auto. Qed.

End Signs.

(** Results that are at least 0, for [auto]: the operations keep the
    property, and a constant has it by evaluation. *)
Create HintDb nonneg.

#[global] Hint Resolve fadd_nonneg fmul_nonneg py_min_nonneg : nonneg.
#[global] Hint Extern 5 (nonneg _) => reflexivity : nonneg.

(* ================================================================= *)
(** * Floats: digits and the shift loop *)

Section Digits.

Lemma digits2_pos_size (p : positive) : digits2_pos p = Pos.size p.
Proof. induction p; simpl; congruence. Qed.

Lemma Zdigits2_log2 (p : positive) :
  Zdigits2 (Zpos p) = Z.log2 (Zpos p) + 1.
Proof.
  unfold Zdigits2. rewrite digits2_pos_size.
  destruct p; simpl; rewrite ?Pos2Z.inj_succ; try lia.
  all: rewrite Pos.add_1_r, Pos2Z.inj_succ; lia.
Qed.

Lemma digits_bounds (p : positive) :
  2 ^ (Zdigits2 (Zpos p) - 1) <= Zpos p < 2 ^ Zdigits2 (Zpos p).
Proof.
  rewrite Zdigits2_log2.
  pose proof (Z.log2_spec (Zpos p) ltac:(lia)) as H.
  replace (Z.log2 (Z.pos p) + 1 - 1) with (Z.log2 (Z.pos p)) by lia.
  replace (Z.log2 (Z.pos p) + 1) with (Z.succ (Z.log2 (Z.pos p))) by lia.
  exact H.
Qed.

End Digits.

Section Shift.

Lemma iter_pos_steps {A : Type} (P : Z -> A -> Prop) (f : A -> A) :
  (forall k x, 0 <= k -> P k x -> P (k + 1) (f x)) ->
  forall p k x, 0 <= k -> P k x -> P (k + Zpos p) (iter_pos f p x).
Proof.
  intros Hf. induction p as [p IH|p IH|]; intros k x Hk Hx; simpl.
  - replace (k + Z.pos p~1) with ((k + 1) + Z.pos p + Z.pos p) by lia.
    apply IH; [lia|]. apply IH; [lia|]. apply Hf; auto.
  - replace (k + Z.pos p~0) with (k + Z.pos p + Z.pos p) by lia.
    apply IH; [lia|]. apply IH; auto.
  - apply Hf; auto.
Qed.

Lemma shr_1_halves (m : Z) (r s : bool) :
  0 <= m ->
  shr_1 (Build_shr_record m r s)
  = Build_shr_record (m / 2) (Z.odd m) (r || s).
Proof.
  intros H. destruct m as [|p|p]; [reflexivity| |lia].
  destruct p as [p|p|]; simpl.
  - rewrite Pos2Z.inj_xI, Z.add_comm, Z.mul_comm, Z.div_add by lia.
    reflexivity.
  - rewrite Pos2Z.inj_xO, Z.mul_comm, Z.div_mul by lia. reflexivity.
  - reflexivity.
Qed.

Lemma loc_exact_iff (mrs : shr_record) (rem pow : Z) :
  loc_of_shr_record mrs = loc_val rem pow ->
  (shr_r mrs || shr_s mrs = false <-> rem = 0).
Proof.
  unfold loc_val. destruct mrs as [m [] []]; simpl;
    destruct (Z.eqb_spec rem 0); intros H; split; intros;
    try discriminate; try lia; auto.
Qed.

Lemma shifted_step (m k : Z) (mrs : shr_record) :
  0 <= m -> 0 <= k -> shifted m k mrs -> shifted m (k + 1) (shr_1 mrs).
Proof.
  intros Hm Hk [Hq Hl].
  pose proof (loc_exact_iff _ _ _ Hl) as Hs.
  destruct mrs as [q r s]. simpl in Hq, Hs.
  assert (Hp : 0 < 2 ^ k) by (apply Z.pow_pos_nonneg; lia).
  assert (Hq0 : 0 <= q) by (subst q; apply Z.div_pos; lia).
  rewrite (shr_1_halves q r s Hq0).
  assert (E1 : 2 ^ (k + 1) = 2 ^ k * 2) by (rewrite Z.pow_add_r; lia).
  assert (E2 : m / 2 ^ (k + 1) = q / 2).
  { rewrite E1, <- Z.div_div by lia. subst q. reflexivity. }
  assert (E3 : m mod 2 ^ (k + 1) = 2 ^ k * (q mod 2) + m mod 2 ^ k).
  { rewrite E1. subst q. rewrite Z.rem_mul_r by lia. lia. }
  pose proof (Z.mod_pos_bound m (2 ^ k) Hp) as Hb.
  split; cbn [shr_m loc_of_shr_record]; [lia|].
  rewrite E3, E1. unfold loc_val.
  rewrite Zodd_mod.
  pose proof (Z.mod_pos_bound q 2 ltac:(lia)) as Hq2.
  destruct (Z.eqb_spec (q mod 2) 1) as [Eo|Eo].
  - rewrite Eo.
    destruct (r || s) eqn:Ers.
    + assert (m mod 2 ^ k <> 0) by (intros C; apply Hs in C; discriminate).
      destruct (Z.eqb_spec (2 ^ k * 1 + m mod 2 ^ k) 0); [lia|].
      cbv beta iota. f_equal. symmetry. apply Z.compare_gt_iff. lia.
    + assert (m mod 2 ^ k = 0) by (apply Hs; reflexivity).
      destruct (Z.eqb_spec (2 ^ k * 1 + m mod 2 ^ k) 0); [lia|].
      cbv beta iota. f_equal. symmetry. apply Z.compare_eq_iff. lia.
  - assert (q mod 2 = 0) by lia. replace (q mod 2 =? 1) with false
      by (symmetry; apply Z.eqb_neq; lia).
    rewrite H. 
    destruct (r || s) eqn:Ers.
    + assert (m mod 2 ^ k <> 0) by (intros C; apply Hs in C; discriminate).
      destruct (Z.eqb_spec (2 ^ k * 0 + m mod 2 ^ k) 0); [lia|].
      cbv beta iota. f_equal. symmetry. apply Z.compare_lt_iff. lia.
    + assert (m mod 2 ^ k = 0) by (apply Hs; reflexivity).
      destruct (Z.eqb_spec (2 ^ k * 0 + m mod 2 ^ k) 0); [|lia].
      reflexivity.
Qed.

Lemma shifted_start (m : Z) : shifted m 0 (Build_shr_record m false false).
Proof.
  unfold shifted, loc_val. simpl. rewrite Z.div_1_r, Z.mod_1_r. auto.
Qed.

Lemma shr_spec (m e n : Z) :
  0 <= m -> 0 <= n ->
  shifted m n (fst (shr (Build_shr_record m false false) e n))
  /\ snd (shr (Build_shr_record m false false) e n) = e + n.
Proof.
  intros Hm Hn. destruct n as [|p|p]; [| |lia].
  - simpl. split; [apply shifted_start|lia].
  - simpl. split; [|reflexivity].
    change (Z.pos p) with (0 + Z.pos p).
    apply (iter_pos_steps (fun k x => shifted m k x)); [|lia|apply shifted_start].
    intros k x Hk Hx. apply shifted_step; auto.
Qed.

End Shift.

(* ================================================================= *)
(** * Floats: rounding of values *)

Section Rounding.

Lemma ulp_exp_pos (N : Z) : 0 < 2 ^ ulp_exp N.
Proof. apply Z.pow_pos_nonneg; unfold ulp_exp; lia. Qed.

Lemma ulp_exp_mono (N N' : Z) : N <= N' -> ulp_exp N <= ulp_exp N'.
Proof.
  intros H. unfold ulp_exp. pose proof (Z.log2_le_mono N N' H). lia.
Qed.

Lemma pick_bounds (q r P : Z) : q <= pick q r P <= q + 1.
Proof.
  unfold pick. destruct (2 * r ?= P); try destruct (Z.even q); lia.
Qed.

Lemma pick_mono (q r q' r' P : Z) :
  0 <= r < P -> 0 <= r' < P ->
  q * P + r <= q' * P + r' -> pick q r P <= pick q' r' P.
Proof.
  intros Hr Hr' H.
  assert (Hq : q <= q') by nia.
  destruct (Z.eq_dec q q') as [<-|Hne].
  - assert (r <= r') by lia. unfold pick.
    destruct (Z.compare_spec (2 * r) P), (Z.compare_spec (2 * r') P);
      try destruct (Z.even q); lia.
  - pose proof (pick_bounds q r P). pose proof (pick_bounds q' r' P). lia.
Qed.

Lemma rnd_val_nonneg (N : Z) : 0 <= N -> 0 <= rnd_val N.
Proof.
  intros H. unfold rnd_val. pose proof (ulp_exp_pos N) as HP.
  pose proof (pick_bounds (N / 2 ^ ulp_exp N) (N mod 2 ^ ulp_exp N) (2 ^ ulp_exp N)).
  assert (0 <= N / 2 ^ ulp_exp N) by (apply Z.div_pos; lia).
  apply Z.mul_nonneg_nonneg; lia.
Qed.

Lemma rnd_val_exact (N : Z) :
  N mod 2 ^ ulp_exp N = 0 -> rnd_val N = N.
Proof.
  intros H. unfold rnd_val, pick. rewrite H.
  pose proof (ulp_exp_pos N) as HP.
  replace (2 * 0 ?= 2 ^ ulp_exp N) with Lt
    by (symmetry; apply Z.compare_lt_iff; lia).
  pose proof (Z.div_mod N (2 ^ ulp_exp N) ltac:(lia)). lia.
Qed.

Lemma rnd_val_upper (N : Z) : 0 < N -> rnd_val N <= 2 ^ (Z.log2 N + 1).
Proof.
  intros H. pose proof (Z.log2_spec N H) as [Hl Hu].
  pose proof (Z.log2_nonneg N) as HL.
  replace (Z.succ (Z.log2 N)) with (Z.log2 N + 1) in Hu by lia.
  unfold rnd_val. set (u := ulp_exp N). 
  assert (Hu0 : 0 <= u) by (unfold u, ulp_exp; lia).
  assert (HP : 0 < 2 ^ u) by (apply Z.pow_pos_nonneg; lia).
  pose proof (Z.div_mod N (2 ^ u) ltac:(lia)) as Hdm.
  pose proof (Z.mod_pos_bound N (2 ^ u) HP) as Hr.
  pose proof (pick_bounds (N / 2 ^ u) (N mod 2 ^ u) (2 ^ u)) as Hp.
  assert (Hq0 : 0 <= N / 2 ^ u) by (apply Z.div_pos; lia).
  destruct (Z_le_gt_dec u (Z.log2 N + 1)) as [Hle|Hgt].
  - assert (E : 2 ^ (Z.log2 N + 1) = 2 ^ (Z.log2 N + 1 - u) * 2 ^ u).
    { rewrite <- Z.pow_add_r by lia. f_equal. lia. }
    rewrite E.
    assert (0 < 2 ^ (Z.log2 N + 1 - u)) by (apply Z.pow_pos_nonneg; lia).
    apply Z.mul_le_mono_nonneg_r; [lia|].
    assert (N / 2 ^ u < 2 ^ (Z.log2 N + 1 - u)) by nia. lia.
  - assert (E : 2 ^ u = 2 ^ (u - (Z.log2 N + 1)) * 2 ^ (Z.log2 N + 1)).
    { rewrite <- Z.pow_add_r by lia. f_equal. lia. }
    assert (2 ^ 1 <= 2 ^ (u - (Z.log2 N + 1)))
      by (apply Z.pow_le_mono_r; lia).
    change (2 ^ 1) with 2 in *.
    assert (Hs : 2 * N < 2 ^ u) by nia.
    assert (Hq : N / 2 ^ u = 0) by (apply Z.div_small; lia).
    assert (Hm : N mod 2 ^ u = N) by (apply Z.mod_small; lia).
    unfold pick. rewrite Hq, Hm.
    replace (2 * N ?= 2 ^ u) with Lt by (symmetry; apply Z.compare_lt_iff; lia).
    assert (0 < 2 ^ (Z.log2 N + 1)) by (apply Z.pow_pos_nonneg; lia). lia.
Qed.

Lemma rnd_val_lower (N : Z) :
  0 < N -> 1074 < ulp_exp N -> 2 ^ Z.log2 N <= rnd_val N.
Proof.
  intros H Hn. pose proof (Z.log2_spec N H) as [Hl Hu].
  unfold rnd_val. set (u := ulp_exp N) in *.
  assert (Eu : u = Z.log2 N - 52) by (unfold u, ulp_exp in *; lia).
  assert (HP : 0 < 2 ^ u) by (apply Z.pow_pos_nonneg; lia).
  pose proof (pick_bounds (N / 2 ^ u) (N mod 2 ^ u) (2 ^ u)) as Hp.
  assert (E : 2 ^ Z.log2 N = 2 ^ 52 * 2 ^ u).
  { rewrite <- Z.pow_add_r by lia. f_equal. lia. }
  rewrite E. apply Z.mul_le_mono_nonneg_r; [lia|].
  assert (2 ^ 52 <= N / 2 ^ u); [|lia].
  apply Z.div_le_lower_bound; lia.
Qed.

Lemma rnd_val_mono (N N' : Z) : 0 <= N <= N' -> rnd_val N <= rnd_val N'.
Proof.
  intros [H0 H].
  destruct (Z.eq_dec N 0) as [->|Hn].
  { change (rnd_val 0) with 0. apply rnd_val_nonneg. lia. }
  pose proof (ulp_exp_mono N N' H) as Hu.
  destruct (Z.eq_dec (ulp_exp N) (ulp_exp N')) as [E|Hne].
  - unfold rnd_val. rewrite <- E. pose proof (ulp_exp_pos N) as HP.
    apply Z.mul_le_mono_nonneg_r; [lia|].
    apply pick_mono; try (apply Z.mod_pos_bound; lia).
    rewrite (Z.mul_comm (N / _)), (Z.mul_comm (N' / _)).
    rewrite <- !Z.div_mod by lia. exact H.
  - assert (Hlt : ulp_exp N < ulp_exp N') by lia.
    assert (H1 : 1074 < ulp_exp N') by (unfold ulp_exp in *; lia).
    pose proof (rnd_val_upper N ltac:(lia)) as U.
    pose proof (rnd_val_lower N' ltac:(lia) H1) as L.
    assert (Z.log2 N + 1 <= Z.log2 N') by (unfold ulp_exp in *; lia).
    assert (2 ^ (Z.log2 N + 1) <= 2 ^ Z.log2 N')
      by (apply Z.pow_le_mono_r; lia).
    lia.
Qed.

Lemma srnd_mono (N N' : Z) : N <= N' -> srnd N <= srnd N'.
Proof.
  intros H. unfold srnd.
  destruct (Z.ltb_spec N 0), (Z.ltb_spec N' 0); try lia.
  - pose proof (rnd_val_mono (- N') (- N) ltac:(lia)). lia.
  - pose proof (rnd_val_nonneg (- N) ltac:(lia)).
    pose proof (rnd_val_nonneg N' ltac:(lia)). lia.
  - apply rnd_val_mono. lia.
Qed.

Lemma srnd_opp (N : Z) : srnd (- N) = - srnd N.
Proof.
  unfold srnd. destruct (Z.ltb_spec N 0), (Z.ltb_spec (- N) 0); try lia.
  - rewrite Z.opp_involutive. reflexivity.
  - assert (N = 0) by lia. subst. reflexivity.
Qed.

Lemma srnd_0 : srnd 0 = 0.
Proof. reflexivity. Qed.

Lemma top_pos : 0 < top.
Proof. unfold top. apply Z.pow_pos_nonneg; unfold bias; lia. Qed.

Lemma clamp_mono (V V' : Z) : V <= V' -> clamp V <= clamp V'.
Proof. unfold clamp. lia. Qed.

Lemma clamp_id (V : Z) : - top <= V <= top -> clamp V = V.
Proof. unfold clamp. lia. Qed.

Lemma clamp_0 : clamp 0 = 0.
Proof. unfold clamp. pose proof top_pos. lia. Qed.

Lemma clamp_nonneg (V : Z) : 0 <= V -> clamp V = Z.min V top.
Proof. intros. unfold clamp. pose proof top_pos. lia. Qed.

Lemma clamp_srnd_mono (N N' : Z) : N <= N' -> clamp (srnd N) <= clamp (srnd N').
Proof. intros. apply clamp_mono, srnd_mono, H. Qed.

Lemma clamp_srnd_nonneg (N : Z) : 0 <= N -> 0 <= clamp (srnd N).
Proof.
  intros H. pose proof (clamp_srnd_mono 0 N H) as M.
  rewrite srnd_0, clamp_0 in M. exact M.
Qed.

Lemma clamp_srnd_nonpos (N : Z) : N <= 0 -> clamp (srnd N) <= 0.
Proof.
  intros H. pose proof (clamp_srnd_mono N 0 H) as M.
  rewrite srnd_0, clamp_0 in M. exact M.
Qed.

End Rounding.

(* ================================================================= *)
(** * Floats: the rounding of SpecFloat computes the rounding of values *)

Section RoundAux.

Lemma fexp_eq (x : Z) : fexp prec emax x = Z.max (x - 53) (-1074).
Proof. reflexivity. Qed.

Lemma pow2_pos (k : Z) : 0 <= k -> 0 < 2 ^ k.
Proof. intros. apply Z.pow_pos_nonneg; lia. Qed.

Lemma pow2_split (a b : Z) : 0 <= a -> 0 <= b -> 2 ^ (a + b) = 2 ^ a * 2 ^ b.
Proof. intros. apply Z.pow_add_r; lia. Qed.

Lemma round_nearest_even_pick (q rem P : Z) :
  0 <= rem < P ->
  round_nearest_even q (loc_val rem P) = pick q rem P.
Proof.
  intros H. unfold loc_val, pick.
  destruct (Z.eqb_spec rem 0) as [->|Hr]; cbn [round_nearest_even].
  - replace (2 * 0 ?= P) with Lt by (symmetry; apply Z.compare_lt_iff; lia).
    reflexivity.
  - destruct (2 * rem ?= P); reflexivity.
Qed.

Lemma canonical_bound (m : positive) (e : Z) :
  canonical_mantissa prec emax m e = true ->
  Zpos m < 2 ^ 53 /\ -1074 <= e /\ (-1074 < e -> 2 ^ 52 <= Zpos m).
Proof.
  unfold canonical_mantissa. intros H. apply Z.eqb_eq in H.
  rewrite fexp_eq in H.
  pose proof (digits_bounds m) as [Hl Hu]. cbn [Zdigits2] in Hl, Hu.
  set (d := Z.pos (digits2_pos m)) in *.
  assert (0 < d) by (unfold d; lia).
  repeat split; try lia.
  - assert (d <= 53) by lia.
    assert (2 ^ d <= 2 ^ 53) by (apply Z.pow_le_mono_r; lia). lia.
  - intros He. assert (d = 53) by lia.
    replace (d - 1) with 52 in Hl by lia. exact Hl.
Qed.

Lemma canonical_intro (m : positive) (e : Z) :
  Zpos m < 2 ^ 53 -> -1074 <= e -> (-1074 < e -> 2 ^ 52 <= Zpos m) ->
  canonical_mantissa prec emax m e = true.
Proof.
  intros Hu He Hl. unfold canonical_mantissa. apply Z.eqb_eq.
  rewrite fexp_eq.
  pose proof (digits_bounds m) as [Dl Du]. cbn [Zdigits2] in Dl, Du.
  set (d := Z.pos (digits2_pos m)) in *.
  assert (0 < d) by (unfold d; lia).
  assert (d <= 53).
  { destruct (Z_le_gt_dec d 53); auto.
    assert (2 ^ 53 <= 2 ^ (d - 1)) by (apply Z.pow_le_mono_r; lia). lia. }
  destruct (Z.eq_dec e (-1074)) as [->|Hn]; [lia|].
  assert (2 ^ 52 <= Z.pos m) by (apply Hl; lia).
  assert (53 <= d).
  { destruct (Z_le_gt_dec 53 d); auto.
    assert (2 ^ d <= 2 ^ 52) by (apply Z.pow_le_mono_r; lia). lia. }
  lia.
Qed.

(** The result of rounding, given the kept quotient [q] at exponent [fe]. *)
Lemma finish_spec (q fe : Z) :
  0 <= q <= 2 ^ 53 -> -1074 <= fe ->
  (-1074 < fe -> 2 ^ 52 <= q) ->
  let '(mrs, e'') := shr_fexp prec emax q fe loc_Exact in
  let out :=
    match shr_m mrs with
    | Z0 => S754_zero false
    | Zpos m =>
        if e'' <=? emax - prec then S754_finite false m e''
        else S754_infinity false
    | Zneg _ => S754_nan
    end in
  wf out /\ Fval out = Z.min (q * 2 ^ (fe + bias)) top.
Proof.
  intros [Hq0 Hq] Hfe Hn.
  assert (Hb : 0 <= fe + bias) by (unfold bias; lia).
  pose proof (pow2_pos _ Hb) as HP.
  unfold shr_fexp. cbn [shr_record_of_loc].
  destruct q as [|p|p]; [| |lia].
  - (* zero *)
    rewrite fexp_eq. cbn [Zdigits2].
    assert (Hz : Z.max (0 + fe - 53) (-1074) - fe <= 0) by lia.
    destruct (Z.max (0 + fe - 53) (-1074) - fe) as [|z|z] eqn:Ez; try lia;
      cbn; (split; [split; reflexivity|]); pose proof top_pos; lia.
  - pose proof (digits_bounds p) as [Dl Du].
    set (d := Zdigits2 (Z.pos p)) in *.
    assert (Hd0 : 0 < d) by (unfold d; cbn; lia).
    assert (Hd : d <= 54).
    { destruct (Z_le_gt_dec d 54); auto.
      assert (2 ^ 54 <= 2 ^ (d - 1)) by (apply Z.pow_le_mono_r; lia). lia. }
    rewrite fexp_eq.
    destruct (Z.eq_dec d 54) as [E54|N54].
    + (* the carry: q = 2^53 *)
      assert (Hp : Z.pos p = 2 ^ 53).
      { rewrite E54 in Dl. replace (54 - 1) with 53 in Dl by lia. lia. }
      replace (Z.max (d + fe - 53) (-1074) - fe) with 1 by lia.
      injection Hp as ->. cbn [shr iter_pos shr_1 shr_m Z.add].
      change (shr_m (shr_1 {| shr_m := 9007199254740992; shr_r := false; shr_s := false |}))
        with 4503599627370496.
      destruct (Z.leb_spec (fe + 1) (emax - prec)) as [Hle|Hgt].
      * split; [split; [|reflexivity]|].
        -- unfold valid, valid_binary, bounded. apply andb_true_intro. split.
           ++ apply canonical_intro; lia.
           ++ apply Z.leb_le. exact Hle.
        -- cbn [Fval cond_Zopp].
           change (Z.pos 4503599627370496) with (2 ^ 52).
           change (2 ^ 53) with (2 ^ 52 * 2).
           replace (fe + 1 + bias) with (1 + (fe + bias)) by lia.
           rewrite (pow2_split 1 (fe + bias)) by lia. change (2 ^ 1) with 2.
           assert (2 ^ 52 * 2 * 2 ^ (fe + bias) < top).
           { unfold top. replace (1024 + bias) with (53 + (971 + bias)) by lia.
             rewrite (pow2_split 53 (971 + bias)) by (unfold bias; lia).
             change (2 ^ 52 * 2) with (2 ^ 53).
             assert (2 ^ (fe + bias) < 2 ^ (971 + bias)).
             { apply Z.pow_lt_mono_r; unfold emax, prec in *; lia. }
             assert (0 < 2 ^ 53) by reflexivity. nia. }
           lia.
      * split; [split; reflexivity|]. cbn [Fval cond_Zopp].
        assert (top <= 2 ^ 53 * 2 ^ (fe + bias)); [|lia].
        unfold top. replace (1024 + bias) with (53 + (971 + bias)) by lia.
        rewrite (pow2_split 53 (971 + bias)) by (unfold bias; lia).
        assert (2 ^ (971 + bias) <= 2 ^ (fe + bias)).
        { apply Z.pow_le_mono_r; unfold emax, prec in *; lia. }
        assert (0 < 2 ^ 53) by reflexivity. nia.
    + (* no further shift *)
      assert (Hlt : Z.pos p < 2 ^ 53).
      { assert (2 ^ d <= 2 ^ 53) by (apply Z.pow_le_mono_r; lia). lia. }
      assert (Hs : Z.max (d + fe - 53) (-1074) - fe <= 0) by lia.
      destruct (Z.max (d + fe - 53) (-1074) - fe) as [|z|z] eqn:Ez; try lia;
        cbn [shr shr_m];
        (destruct (Z.leb_spec fe (emax - prec)) as [Hle|Hgt];
         [ split; [split; [|reflexivity]|];
           [ unfold valid, valid_binary, bounded; apply andb_true_intro; split;
             [apply canonical_intro; auto; lia | apply Z.leb_le; exact Hle]
           | cbn [Fval cond_Zopp];
             assert (Z.pos p * 2 ^ (fe + bias) < top);
             [ unfold top; replace (1024 + bias) with (53 + (971 + bias)) by lia;
               rewrite (pow2_split 53 (971 + bias)) by (unfold bias; lia);
               assert (2 ^ (fe + bias) <= 2 ^ (971 + bias))
                 by (apply Z.pow_le_mono_r; unfold emax, prec in *; lia);
               nia
             | lia ] ]
         | split; [split; reflexivity|]; cbn [Fval cond_Zopp];
           assert (top <= Z.pos p * 2 ^ (fe + bias)); [|lia];
           unfold top; replace (1024 + bias) with (52 + (972 + bias)) by lia;
           rewrite (pow2_split 52 (972 + bias)) by (unfold bias; lia);
           assert (2 ^ (972 + bias) <= 2 ^ (fe + bias))
             by (apply Z.pow_le_mono_r; unfold emax, prec in *; lia);
           assert (2 ^ 52 <= Z.pos p) by (apply Hn; unfold emax, prec in *; lia);
           assert (0 < 2 ^ (972 + bias)) by (apply pow2_pos; unfold bias; lia);
           nia ]).
Qed.

Lemma rnd_val_scaled (m e n : Z) :
  0 < m -> 0 <= e + bias -> 0 <= n ->
  n + e = Z.max (Z.log2 m + 1 + e - 53) (-1074) ->
  rnd_val (m * 2 ^ (e + bias))
  = pick (m / 2 ^ n) (m mod 2 ^ n) (2 ^ n) * 2 ^ (n + e + bias).
Proof.
  intros Hm He Hn Hfe.
  pose proof (pow2_pos _ He) as HS. pose proof (pow2_pos _ Hn) as HN.
  unfold rnd_val, ulp_exp.
  rewrite Z.log2_mul_pow2 by lia.
  replace (Z.max (e + bias + Z.log2 m - 52) 1074) with (n + (e + bias))
    by (unfold bias in *; lia).
  rewrite (pow2_split n (e + bias)) by lia.
  rewrite Z.div_mul_cancel_r by lia.
  rewrite Z.mul_mod_distr_r by lia.
  replace (n + e + bias) with (n + (e + bias)) by lia.
  rewrite (pow2_split n (e + bias)) by lia.
  f_equal. unfold pick.
  rewrite Z.mul_assoc.
  rewrite <- (Zmult_compare_compat_r (2 * (m mod 2 ^ n)) (2 ^ n)) by lia.
  reflexivity.
Qed.

Lemma round_aux_spec (p : positive) (e : Z) :
  - bias <= e -> e <= fexp prec emax (Zdigits2 (Zpos p) + e) ->
  let out := binary_round_aux prec emax false (Zpos p) e loc_Exact in
  wf out /\ Fval out = Z.min (rnd_val (Zpos p * 2 ^ (e + bias))) top.
Proof.
  intros Hb He. cbv zeta.
  remember (binary_round_aux prec emax false (Z.pos p) e loc_Exact) as out
    eqn:Hout.
  rewrite fexp_eq in He.
  pose proof (digits_bounds p) as [Dl Du].
  pose proof (Zdigits2_log2 p) as Hd.
  set (m := Z.pos p) in *. set (d := Zdigits2 m) in *.
  assert (Hd0 : 0 < d) by (unfold d, m; cbn; lia).
  set (fe := Z.max (d + e - 53) (-1074)) in *.
  set (n := fe - e).
  assert (Hn : 0 <= n) by (unfold n; lia).
  pose proof (pow2_pos _ Hn) as HN.
  assert (Hm : 0 < m) by (unfold m; lia).
  pose proof (Z.mod_pos_bound m (2 ^ n) HN) as Hrem.
  assert (Hq0 : 0 <= m / 2 ^ n) by (apply Z.div_pos; lia).
  pose proof (pick_bounds (m / 2 ^ n) (m mod 2 ^ n) (2 ^ n)) as Hpk.
  (* the quotient has at most 53 digits *)
  assert (Hqu : m / 2 ^ n < 2 ^ 53).
  { apply Z.div_lt_upper_bound; [lia|].
    rewrite <- (pow2_split n 53) by lia.
    assert (2 ^ d <= 2 ^ (n + 53)) by (apply Z.pow_le_mono_r; unfold n, fe; lia).
    lia. }
  (* and exactly 53 above the subnormal range *)
  assert (Hql : -1074 < fe -> 2 ^ 52 <= m / 2 ^ n).
  { intros Hfe. assert (En : n = d - 53) by (unfold n, fe in *; lia).
    apply Z.div_le_lower_bound; [lia|].
    rewrite <- (pow2_split n 52) by lia.
    replace (n + 52) with (d - 1) by lia. exact Dl. }
  pose proof (rnd_val_scaled m e n Hm ltac:(lia) Hn
                ltac:(unfold n, fe; lia)) as Hrv.
  replace (n + e + bias) with (fe + bias) in Hrv by (unfold n; lia).
  pose proof (finish_spec (pick (m / 2 ^ n) (m mod 2 ^ n) (2 ^ n)) fe
                ltac:(lia) ltac:(unfold fe; lia) ltac:(lia)) as F.
  unfold binary_round_aux, shr_fexp at 1 in Hout.
  cbn [shr_record_of_loc] in Hout.
  rewrite fexp_eq in Hout. fold d in Hout. fold fe in Hout. fold n in Hout.
  destruct (shr_spec m e n ltac:(lia) Hn) as [[Hsm Hsl] Hse].
  destruct (shr {| shr_m := m; shr_r := false; shr_s := false |} e n)
    as [mrs' e'].
  cbn [fst snd] in Hsm, Hsl, Hse.
  rewrite Hsm, Hsl, (round_nearest_even_pick _ _ _ Hrem), Hse in Hout.
  replace (e + n) with fe in Hout by (unfold n; lia).
  rewrite Hrv.
  destruct (shr_fexp prec emax (pick (m / 2 ^ n) (m mod 2 ^ n) (2 ^ n)) fe
              loc_Exact) as [mrs'' e''].
  subst out. exact F.
Qed.

(** Rounding with the other sign is the opposite. *)
Lemma binary_round_aux_opp (s : bool) (m e : Z) (l : location) :
  binary_round_aux prec emax s m e l
  = (if s then SFopp else fun x => x)
      (binary_round_aux prec emax false m e l).
Proof.
  unfold binary_round_aux.
  destruct (shr_fexp prec emax m e l) as [mrs' e'].
  destruct (shr_fexp prec emax _ e' loc_Exact) as [mrs'' e''].
  destruct s; [|reflexivity].
  destruct (shr_m mrs''); cbn; try reflexivity.
  destruct (_ <=? _); reflexivity.
Qed.

End RoundAux.

(* ================================================================= *)
(** * Floats: values and comparisons *)

Section Values.

Lemma valid_finite (s : bool) (m : positive) (e : Z) :
  valid (S754_finite s m e) = true ->
  Zpos m < 2 ^ 53 /\ -1074 <= e <= 971 /\ (-1074 < e -> 2 ^ 52 <= Zpos m).
Proof.
  unfold valid, valid_binary, bounded. intros H.
  apply andb_prop in H as [Hc He]. apply Z.leb_le in He.
  destruct (canonical_bound _ _ Hc) as (A & B & C).
  change (emax - prec) with 971 in He. auto.
Qed.

Lemma finite_value_bounds (m : positive) (e : Z) :
  Zpos m < 2 ^ 53 -> -1074 <= e <= 971 ->
  0 < Zpos m * 2 ^ (e + bias) < top.
Proof.
  intros Hm He.
  assert (0 < 2 ^ (e + bias)) by (apply pow2_pos; unfold bias; lia).
  split; [lia|].
  unfold top. replace (1024 + bias) with (53 + (971 + bias)) by lia.
  rewrite (pow2_split 53 (971 + bias)) by (unfold bias; lia).
  assert (2 ^ (e + bias) <= 2 ^ (971 + bias))
    by (apply Z.pow_le_mono_r; unfold bias; lia).
  nia.
Qed.

Lemma Fval_bound (x : float) :
  wf x -> is_finite x = true -> - top < Fval x < top.
Proof.
  intros [Hv _] Hf. pose proof top_pos.
  destruct x as [s|s| |s m e]; try discriminate; cbn [Fval]; try lia.
  destruct (valid_finite _ _ _ Hv) as (A & B & _).
  pose proof (finite_value_bounds m e A B). destruct s; cbn [cond_Zopp]; lia.
Qed.

Lemma Fval_finite (x : float) :
  wf x -> - top < Fval x < top -> is_finite x = true.
Proof.
  intros [_ Hn] H. destruct x as [s|s| |s m e]; try reflexivity;
    try discriminate.
  cbn [Fval] in H. destruct s; cbn [cond_Zopp] in H; lia.
Qed.

Lemma finite_compare (m1 : positive) (e1 : Z) (m2 : positive) (e2 : Z) :
  valid (S754_finite false m1 e1) = true ->
  valid (S754_finite false m2 e2) = true ->
  match e1 ?= e2 with
  | Eq => Pos.compare_cont Eq m1 m2
  | Lt => Lt
  | Gt => Gt
  end = (Zpos m1 * 2 ^ (e1 + bias) ?= Zpos m2 * 2 ^ (e2 + bias)).
Proof.
  intros H1 H2.
  destruct (valid_finite _ _ _ H1) as (A1 & B1 & C1).
  destruct (valid_finite _ _ _ H2) as (A2 & B2 & C2).
  assert (P1 : 0 < 2 ^ (e1 + bias)) by (apply pow2_pos; unfold bias; lia).
  assert (P2 : 0 < 2 ^ (e2 + bias)) by (apply pow2_pos; unfold bias; lia).
  assert (Hlt : forall ma ea mb eb,
             Zpos ma < 2 ^ 53 -> 2 ^ 52 <= Zpos mb -> -1074 <= ea -> ea < eb ->
             Zpos ma * 2 ^ (ea + bias) < Zpos mb * 2 ^ (eb + bias)).
  { intros ma ea mb eb Ha Hb He Hl.
    assert (0 < 2 ^ (ea + bias)) by (apply pow2_pos; unfold bias; lia).
    assert (2 ^ (ea + 1 + bias) <= 2 ^ (eb + bias))
      by (apply Z.pow_le_mono_r; unfold bias; lia).
    replace (ea + 1 + bias) with (1 + (ea + bias)) in * by lia.
    rewrite (pow2_split 1 (ea + bias)) in * by (unfold bias; lia).
    change (2 ^ 1) with 2 in *. change (2 ^ 53) with (2 ^ 52 * 2) in Ha.
    assert (0 < 2 ^ 52) by reflexivity. nia. }
  destruct (Z.compare_spec e1 e2) as [->|L|G].
  - change (Pos.compare_cont Eq m1 m2) with (Zpos m1 ?= Zpos m2).
    apply Zmult_compare_compat_r. lia.
  - symmetry. apply Z.compare_lt_iff. apply Hlt; auto; try lia.
  - symmetry. apply Z.compare_gt_iff. apply Hlt; auto; try lia.
Qed.

Ltac compare_by_lia :=
  symmetry;
  first [ apply Z.compare_eq_iff; lia
        | apply Z.compare_lt_iff; lia
        | apply Z.compare_gt_iff; lia ].

Lemma SFcompare_Fval (x y : float) :
  wf x -> wf y -> SFcompare x y = Some (Fval x ?= Fval y).
Proof.
  intros [Vx Nx] [Vy Ny]. pose proof top_pos as T.
  destruct x as [sx|sx| |sx mx ex]; try discriminate;
    destruct y as [sy|sy| |sy my ey]; try discriminate;
    cbn [SFcompare Fval]; f_equal;
    try (destruct (valid_finite _ _ _ Vx) as (Ax & Bx & _);
         pose proof (finite_value_bounds mx ex Ax Bx));
    try (destruct (valid_finite _ _ _ Vy) as (Ay & By & _);
         pose proof (finite_value_bounds my ey Ay By)).
  all: destruct sx, sy; cbn [cond_Zopp]; try compare_by_lia.
  - rewrite Z.compare_opp.
    rewrite <- (finite_compare my ey mx ex Vy Vx).
    rewrite (Z.compare_antisym ex ey).
    destruct (ex ?= ey); cbn [CompOpp]; try reflexivity.
    rewrite (Pos.compare_cont_antisym). reflexivity.
  - apply (finite_compare mx ex my ey Vx Vy).
Qed.

Lemma fle_Fval (x y : float) :
  wf x -> wf y -> (fle x y = true <-> Fval x <= Fval y).
Proof.
  intros Hx Hy. unfold fle, SFleb. rewrite (SFcompare_Fval x y Hx Hy).
  destruct (Z.compare_spec (Fval x) (Fval y)); split; intros; try lia;
    try discriminate; reflexivity.
Qed.

Lemma flt_Fval (x y : float) :
  wf x -> wf y -> (flt x y = true <-> Fval x < Fval y).
Proof.
  intros Hx Hy. unfold flt, SFltb. rewrite (SFcompare_Fval x y Hx Hy).
  destruct (Z.compare_spec (Fval x) (Fval y)); split; intros; try lia;
    try discriminate; reflexivity.
Qed.


Lemma wf_opp (x : float) : wf x -> wf (SFopp x).
Proof. intros [V N]. destruct x; try discriminate; split; auto. Qed.

Lemma Fval_opp (x : float) : Fval (SFopp x) = - Fval x.
Proof.
  destruct x as [s|s| |s m e]; cbn [SFopp Fval]; try reflexivity;
    destruct s; cbn [negb cond_Zopp]; lia.
Qed.

(** A representable value rounds to itself. *)
Lemma rnd_val_representable (m : positive) (e : Z) :
  valid (S754_finite false m e) = true ->
  rnd_val (Zpos m * 2 ^ (e + bias)) = Zpos m * 2 ^ (e + bias).
Proof.
  intros V. destruct (valid_finite _ _ _ V) as (A & B & C).
  apply rnd_val_exact.
  assert (Hb : 0 <= e + bias) by (unfold bias; lia).
  unfold ulp_exp. rewrite Z.log2_mul_pow2 by lia.
  assert (Hl : Z.log2 (Z.pos m) < 53) by (apply Z.log2_lt_pow2; lia).
  set (u := Z.max (e + bias + Z.log2 (Z.pos m) - 52) 1074).
  assert (Hu : 0 <= u <= e + bias) by (unfold u, bias in *; lia).
  replace (e + bias) with ((e + bias - u) + u) by lia.
  rewrite (pow2_split (e + bias - u) u) by lia.
  rewrite Z.mul_assoc. apply Z.mod_mul.
  pose proof (pow2_pos u ltac:(lia)). lia.
Qed.

Lemma srnd_Fval (x : float) :
  wf x -> is_finite x = true -> srnd (Fval x) = Fval x.
Proof.
  intros [V N] F. destruct x as [s|s| |s m e]; try discriminate;
    cbn [Fval]; try reflexivity.
  destruct (valid_finite _ _ _ V) as (A & B & _).
  pose proof (finite_value_bounds m e A B).
  assert (V' : valid (S754_finite false m e) = true) by exact V.
  pose proof (rnd_val_representable m e V') as R.
  destruct s; cbn [cond_Zopp].
  - rewrite srnd_opp. unfold srnd.
    destruct (Z.ltb_spec (Z.pos m * 2 ^ (e + bias)) 0); lia.
  - unfold srnd. destruct (Z.ltb_spec (Z.pos m * 2 ^ (e + bias)) 0); lia.
Qed.

Lemma clamp_srnd_Fval (x : float) :
  wf x -> is_finite x = true -> clamp (srnd (Fval x)) = Fval x.
Proof.
  intros W F. rewrite (srnd_Fval x W F). apply clamp_id.
  pose proof (Fval_bound x W F). lia.
Qed.

Lemma wf_f0 : wf f0.
Proof. split; reflexivity. Qed.

Lemma wf_f1 : wf f1.
Proof. split; reflexivity. Qed.

End Values.

(* ================================================================= *)
(** * Floats: the operations *)

Section Operations.

Lemma iter_xO_pow2 (m d : positive) :
  Zpos (Pos.iter xO m d) = Zpos m * 2 ^ Zpos d.
Proof.
  induction d as [|d IH] using Pos.peano_ind.
  - cbn [Pos.iter]. lia.
  - rewrite Pos.iter_succ, Pos2Z.inj_xO, IH, Pos2Z.inj_succ.
    rewrite Z.pow_succ_r by lia. lia.
Qed.

Lemma shl_align_spec (m : positive) (e e' : Z) :
  snd (shl_align m e e') = Z.min e e'
  /\ Zpos (fst (shl_align m e e')) = Zpos m * 2 ^ (e - Z.min e e').
Proof.
  unfold shl_align. destruct (e' - e) as [|d|d] eqn:E; cbn [fst snd].
  - replace (Z.min e e') with e by lia. rewrite Z.sub_diag. lia.
  - replace (Z.min e e') with e by lia. rewrite Z.sub_diag. lia.
  - replace (Z.min e e') with e' by lia. split; [reflexivity|].
    rewrite iter_xO_pow2. f_equal. f_equal. lia.
Qed.

Lemma Zdigits2_shift (m : positive) (k : Z) (m' : positive) :
  0 <= k -> Zpos m' = Zpos m * 2 ^ k ->
  Zdigits2 (Zpos m') = Zdigits2 (Zpos m) + k.
Proof.
  intros Hk E. rewrite !Zdigits2_log2, E, Z.log2_mul_pow2 by lia. lia.
Qed.

Lemma binary_round_spec (s : bool) (p : positive) (e : Z) :
  -1074 <= e ->
  wf (binary_round prec emax s p e)
  /\ Fval (binary_round prec emax s p e)
     = clamp (srnd (cond_Zopp s (Zpos p * 2 ^ (e + bias)))).
Proof.
  intros He. unfold binary_round.
  set (fe := fexp prec emax (Z.pos (digits2_pos p) + e)).
  destruct (shl_align_spec p e fe) as [Hs Hf].
  destruct (shl_align p e fe) as [mz ez]. cbn [fst snd] in Hs, Hf.
  assert (Hfe : -1074 <= fe) by (unfold fe; rewrite fexp_eq; lia).
  assert (Hk : 0 <= e - ez) by lia.
  assert (Hd : Zdigits2 (Zpos mz) + ez = Zdigits2 (Zpos p) + e).
  { rewrite (Zdigits2_shift p (e - ez) mz Hk) by (rewrite Hf, Hs; reflexivity).
    lia. }
  assert (Hpre : ez <= fexp prec emax (Zdigits2 (Z.pos mz) + ez)).
  { rewrite Hd. cbn [Zdigits2]. fold fe. lia. }
  destruct (round_aux_spec mz ez ltac:(unfold bias; lia) Hpre) as [W V].
  assert (Ev : Zpos mz * 2 ^ (ez + bias) = Zpos p * 2 ^ (e + bias)).
  { rewrite Hf, <- Hs, <- Z.mul_assoc.
    rewrite <- (pow2_split (e - ez) (ez + bias)) by (unfold bias; lia).
    f_equal. f_equal. lia. }
  rewrite Ev in V.
  assert (Hpos : 0 < Zpos p * 2 ^ (e + bias)).
  { assert (0 < 2 ^ (e + bias)) by (apply pow2_pos; unfold bias; lia). lia. }
  pose proof (rnd_val_nonneg (Zpos p * 2 ^ (e + bias)) ltac:(lia)) as Hr.
  rewrite binary_round_aux_opp. destruct s; cbn [cond_Zopp].
  - split; [apply wf_opp, W|].
    rewrite Fval_opp, V, srnd_opp.
    replace (srnd (Z.pos p * 2 ^ (e + bias)))
      with (rnd_val (Z.pos p * 2 ^ (e + bias)))
      by (unfold srnd; destruct (Z.ltb_spec (Z.pos p * 2 ^ (e + bias)) 0); lia).
    unfold clamp. pose proof top_pos. lia.
  - split; [exact W|]. rewrite V.
    replace (srnd (Z.pos p * 2 ^ (e + bias)))
      with (rnd_val (Z.pos p * 2 ^ (e + bias)))
      by (unfold srnd; destruct (Z.ltb_spec (Z.pos p * 2 ^ (e + bias)) 0); lia).
    symmetry. apply clamp_nonneg, Hr.
Qed.

Lemma binary_normalize_spec (S e : Z) (szero : bool) :
  -1074 <= e ->
  wf (binary_normalize prec emax S e szero)
  /\ Fval (binary_normalize prec emax S e szero)
     = clamp (srnd (S * 2 ^ (e + bias))).
Proof.
  intros He. unfold binary_normalize. destruct S as [|p|p].
  - split; [split; reflexivity|]. cbn [Fval]. rewrite Z.mul_0_l, srnd_0, clamp_0.
    reflexivity.
  - exact (binary_round_spec false p e He).
  - destruct (binary_round_spec true p e He) as [W V]. split; [exact W|].
    rewrite V. cbn [cond_Zopp]. f_equal. f_equal. lia.
Qed.

(** The value of a finite float, from its aligned mantissa. *)
Lemma aligned_value (s : bool) (m : positive) (e ez : Z) :
  -1074 <= ez <= e ->
  cond_Zopp s (Zpos (fst (shl_align m e ez))) * 2 ^ (ez + bias)
  = Fval (S754_finite s m e).
Proof.
  intros H. destruct (shl_align_spec m e ez) as [_ Hf].
  rewrite Hf. replace (Z.min e ez) with ez by lia. cbn [Fval].
  assert (E : Zpos m * 2 ^ (e - ez) * 2 ^ (ez + bias) = Zpos m * 2 ^ (e + bias)).
  { rewrite <- Z.mul_assoc.
    rewrite <- (pow2_split (e - ez) (ez + bias)) by (unfold bias; lia).
    f_equal. f_equal. lia. }
  destruct s; cbn [cond_Zopp]; lia.
Qed.

Lemma fadd_spec (x y : float) :
  wf x -> wf y -> is_finite x = true -> is_finite y = true ->
  wf (fadd x y) /\ Fval (fadd x y) = clamp (srnd (Fval x + Fval y)).
Proof.
  intros Wx Wy Fx Fy. unfold fadd.
  destruct x as [sx|sx| |sx mx ex]; try discriminate;
    destruct y as [sy|sy| |sy my ey]; try discriminate; cbn [SFadd].
  - split; [destruct sx, sy; split; reflexivity|].
    destruct sx, sy; cbn [Fval]; rewrite Z.add_0_l, srnd_0, clamp_0;
      reflexivity.
  - split; [exact Wy|]. change (Fval (S754_zero sx)) with 0. rewrite Z.add_0_l. symmetry.
    apply clamp_srnd_Fval; auto.
  - split; [exact Wx|]. change (Fval (S754_zero sy)) with 0.
    rewrite Z.add_0_r. symmetry. apply clamp_srnd_Fval; auto.
  - destruct Wx as [Vx _], Wy as [Vy _].
    destruct (valid_finite _ _ _ Vx) as (_ & Bx & _).
    destruct (valid_finite _ _ _ Vy) as (_ & By & _).
    set (ez := Z.min ex ey).
    destruct (binary_normalize_spec
                (cond_Zopp sx (Z.pos (fst (shl_align mx ex ez)))
                 + cond_Zopp sy (Z.pos (fst (shl_align my ey ez))))
                ez false ltac:(unfold ez; lia)) as [W V].
    split; [exact W|]. rewrite V. f_equal. f_equal.
    rewrite Z.mul_add_distr_r.
    rewrite (aligned_value sx mx ex ez) by (unfold ez; lia).
    rewrite (aligned_value sy my ey ez) by (unfold ez; lia).
    reflexivity.
Qed.

Lemma fsub_spec (x y : float) :
  wf x -> wf y -> is_finite x = true -> is_finite y = true ->
  wf (fsub x y) /\ Fval (fsub x y) = clamp (srnd (Fval x - Fval y)).
Proof.
  intros Wx Wy Fx Fy. unfold fsub.
  destruct x as [sx|sx| |sx mx ex]; try discriminate;
    destruct y as [sy|sy| |sy my ey]; try discriminate; cbn [SFsub].
  - split; [destruct sx, sy; split; reflexivity|].
    destruct sx, sy; cbn [Fval]; rewrite Z.sub_0_r, srnd_0, clamp_0;
      reflexivity.
  - change (S754_finite (negb sy) my ey) with (SFopp (S754_finite sy my ey)).
    split; [apply wf_opp, Wy|].
    rewrite Fval_opp. change (Fval (S754_zero sx)) with 0.
    replace (0 - Fval (S754_finite sy my ey))
      with (- Fval (S754_finite sy my ey)) by lia.
    rewrite srnd_opp, (srnd_Fval _ Wy Fy).
    apply eq_sym, clamp_id. pose proof (Fval_bound _ Wy Fy). lia.
  - split; [exact Wx|]. change (Fval (S754_zero sy)) with 0.
    rewrite Z.sub_0_r. symmetry. apply clamp_srnd_Fval; auto.
  - destruct Wx as [Vx _], Wy as [Vy _].
    destruct (valid_finite _ _ _ Vx) as (_ & Bx & _).
    destruct (valid_finite _ _ _ Vy) as (_ & By & _).
    set (ez := Z.min ex ey).
    destruct (binary_normalize_spec
                (cond_Zopp sx (Z.pos (fst (shl_align mx ex ez)))
                 - cond_Zopp sy (Z.pos (fst (shl_align my ey ez))))
                ez false ltac:(unfold ez; lia)) as [W V].
    split; [exact W|]. rewrite V. f_equal. f_equal.
    rewrite Z.mul_sub_distr_r.
    rewrite (aligned_value sx mx ex ez) by (unfold ez; lia).
    rewrite (aligned_value sy my ey ez) by (unfold ez; lia).
    reflexivity.
Qed.

Lemma bias_pos : 0 < 2 ^ bias.
Proof. apply pow2_pos. unfold bias. lia. Qed.

Lemma cond_Zopp_mul (sx sy : bool) (a b : Z) :
  cond_Zopp sx a * cond_Zopp sy b = cond_Zopp (xorb sx sy) (a * b).
Proof. destruct sx, sy; cbn [cond_Zopp xorb]; lia. Qed.

Lemma cond_Zopp_div (s : bool) (V : Z) :
  cond_Zopp s (V * 2 ^ bias) / 2 ^ bias = cond_Zopp s V.
Proof.
  pose proof bias_pos. destruct s; cbn [cond_Zopp].
  - rewrite <- Z.mul_opp_l. apply Z.div_mul. lia.
  - apply Z.div_mul. lia.
Qed.

Lemma clamp_srnd_cond (s : bool) (V : Z) :
  0 <= V -> clamp (srnd (cond_Zopp s V)) = cond_Zopp s (Z.min (rnd_val V) top).
Proof.
  intros H. pose proof (rnd_val_nonneg V H). pose proof top_pos.
  destruct s; cbn [cond_Zopp].
  - rewrite srnd_opp.
    replace (srnd V) with (rnd_val V)
      by (unfold srnd; destruct (Z.ltb_spec V 0); lia).
    unfold clamp. lia.
  - replace (srnd V) with (rnd_val V)
      by (unfold srnd; destruct (Z.ltb_spec V 0); lia).
    unfold clamp. lia.
Qed.

Lemma fmul_spec (x y : float) :
  wf x -> wf y -> is_finite x = true -> is_finite y = true ->
  wf (fmul x y)
  /\ Fval (fmul x y) = clamp (srnd (Fval x * Fval y / 2 ^ bias)).
Proof.
  intros Wx Wy Fx Fy. unfold fmul. pose proof bias_pos as HB.
  destruct x as [sx|sx| |sx mx ex]; try discriminate;
    destruct y as [sy|sy| |sy my ey]; try discriminate; cbn [SFmul].
  1-3: split; [split; reflexivity|]; cbn [Fval];
       rewrite ?Z.mul_0_l, ?Z.mul_0_r, Z.div_0_l, srnd_0, clamp_0 by lia;
       reflexivity.
  destruct Wx as [Vx _], Wy as [Vy _].
  destruct (valid_finite _ _ _ Vx) as (Ax & Bx & Cx).
  destruct (valid_finite _ _ _ Vy) as (Ay & By & Cy).
  assert (Hpre : ex + ey
                 <= fexp prec emax (Zdigits2 (Z.pos (mx * my)) + (ex + ey))).
  { rewrite fexp_eq, Zdigits2_log2.
    destruct (Z_le_gt_dec (ex + ey) (-1074)) as [|Hgt]; [lia|].
    assert (2 ^ 52 <= Z.pos (mx * my)).
    { rewrite Pos2Z.inj_mul.
      destruct (Z_le_gt_dec ex (-1074)).
      - assert (2 ^ 52 <= Z.pos my) by (apply Cy; lia). nia.
      - assert (2 ^ 52 <= Z.pos mx) by (apply Cx; lia). nia. }
    assert (52 <= Z.log2 (Z.pos (mx * my))) by (apply Z.log2_le_pow2; lia).
    lia. }
  destruct (round_aux_spec (mx * my) (ex + ey) ltac:(unfold bias; lia) Hpre)
    as [W V].
  rewrite binary_round_aux_opp.
  assert (E : Fval (S754_finite sx mx ex) * Fval (S754_finite sy my ey)
              / 2 ^ bias
              = cond_Zopp (xorb sx sy)
                  (Z.pos (mx * my) * 2 ^ (ex + ey + bias))).
  { cbn [Fval]. rewrite cond_Zopp_mul.
    replace (Z.pos mx * 2 ^ (ex + bias) * (Z.pos my * 2 ^ (ey + bias)))
      with (Z.pos (mx * my) * 2 ^ (ex + ey + bias) * 2 ^ bias).
    - apply cond_Zopp_div.
    - rewrite Pos2Z.inj_mul.
      replace (ex + ey + bias) with ((ex + bias) + (ey + bias) - bias) by lia.
      assert (Hp : 2 ^ (ex + bias + (ey + bias) - bias) * 2 ^ bias
                   = 2 ^ (ex + bias) * 2 ^ (ey + bias)).
      { rewrite <- (pow2_split (ex + bias) (ey + bias)) by (unfold bias; lia).
        rewrite <- (pow2_split (ex + bias + (ey + bias) - bias) bias)
          by (unfold bias; lia).
        f_equal. lia. }
      rewrite <- !Z.mul_assoc, Hp. ring. }
  rewrite E.
  assert (0 <= Z.pos (mx * my) * 2 ^ (ex + ey + bias)).
  { assert (0 < 2 ^ (ex + ey + bias)) by (apply pow2_pos; unfold bias; lia).
    lia. }
  rewrite clamp_srnd_cond by lia.
  destruct (xorb sx sy); cbn [cond_Zopp].
  - split; [apply wf_opp, W|]. rewrite Fval_opp, V. reflexivity.
  - split; [exact W|]. exact V.
Qed.

Lemma of_Z_spec (n : Z) :
  wf (of_Z n) /\ Fval (of_Z n) = clamp (srnd (n * 2 ^ bias)).
Proof.
  unfold of_Z. destruct (binary_normalize_spec n 0 false ltac:(lia)) as [W V].
  split; [exact W|]. rewrite V. reflexivity.
Qed.

Lemma of_int_spec (n : Z) (f : float) :
  of_int n = Ok f ->
  wf f /\ is_finite f = true /\ Fval f = clamp (srnd (n * 2 ^ bias)).
Proof.
  unfold of_int. destruct (of_Z_spec n) as [W V].
  destruct (of_Z n) as [s|s| |s m e] eqn:E; try discriminate;
    intros [= <-]; repeat split; auto; destruct W; auto.
Qed.

Lemma of_Z_exact (n : Z) :
  Z.abs n <= 2 ^ 53 -> Fval (of_Z n) = n * 2 ^ bias.
Proof.
  intros H. destruct (of_Z_spec n) as [_ V]. rewrite V.
  pose proof bias_pos as HB.
  assert (Hex : forall k, 0 < k <= 2 ^ 53 -> rnd_val (k * 2 ^ bias) = k * 2 ^ bias).
  { intros k [Hk0 Hk]. apply rnd_val_exact.
    unfold ulp_exp. rewrite Z.log2_mul_pow2 by (unfold bias; lia).
    destruct (Z.eq_dec k (2 ^ 53)) as [ Ek | Hne ]; [subst k|].
    - replace (Z.log2 (2 ^ 53)) with 53 by reflexivity.
      replace (Z.max (bias + 53 - 52) 1074) with (bias + 1) by (unfold bias; lia).
      rewrite (pow2_split bias 1) by (unfold bias; lia).
      change (2 ^ 53) with (2 ^ 52 * 2 ^ 1).
      replace (2 ^ 52 * 2 ^ 1 * 2 ^ bias) with (2 ^ 52 * (2 ^ bias * 2 ^ 1)) by lia.
      apply Z.mod_mul. change (2 ^ 1) with 2. lia.
    - assert (Z.log2 k < 53) by (apply Z.log2_lt_pow2; lia).
      pose proof (Z.log2_nonneg k).
      set (u := Z.max (bias + Z.log2 k - 52) 1074).
      assert (0 <= u <= bias) by (unfold u, bias; lia).
      replace bias with ((bias - u) + u) at 1 by lia.
      rewrite (pow2_split (bias - u) u) by lia.
      rewrite Z.mul_assoc. apply Z.mod_mul.
      pose proof (pow2_pos u ltac:(lia)). lia. }
  assert (Htop : 2 ^ 53 * 2 ^ bias < top).
  { unfold top. rewrite <- (pow2_split 53 bias) by (unfold bias; lia).
    apply Z.pow_lt_mono_r; unfold bias; lia. }
  destruct (Z_dec n 0) as [ [Hneg|Hpos] | En ]; [| |subst n].
  - replace (n * 2 ^ bias) with (- ((- n) * 2 ^ bias)) by lia.
    rewrite srnd_opp.
    replace (srnd (- n * 2 ^ bias)) with (rnd_val (- n * 2 ^ bias))
      by (unfold srnd; destruct (Z.ltb_spec (- n * 2 ^ bias) 0); nia).
    rewrite Hex by lia. apply clamp_id. nia.
  - replace (srnd (n * 2 ^ bias)) with (rnd_val (n * 2 ^ bias))
      by (unfold srnd; destruct (Z.ltb_spec (n * 2 ^ bias) 0); nia).
    rewrite Hex by lia. apply clamp_id. nia.
  - rewrite Z.mul_0_l, srnd_0, clamp_0. reflexivity.
Qed.

Lemma Fval_f1 : Fval f1 = 2 ^ bias.
Proof.
  change f1 with (S754_finite false 4503599627370496 (-52)). cbn [Fval cond_Zopp].
  change (Z.pos 4503599627370496) with (2 ^ 52).
  rewrite <- (pow2_split 52 (-52 + bias)) by (unfold bias; lia).
  f_equal.
Qed.

End Operations.

(* ================================================================= *)
(** * Text *)

Section Blank.
Import PyStr.

Lemma lstrip_all_space (s : string) : all_space s = true -> lstrip s = EmptyString.
Proof.
  induction s as [|c s IH]; simpl; [reflexivity|].
  intros H. apply andb_prop in H as [Hc Hs]. rewrite Hc. auto.
Qed.

Lemma strip_all_space (s : string) : all_space s = true -> strip s = EmptyString.
Proof.
  intros H. unfold strip. rewrite (lstrip_all_space _ H). reflexivity.
Qed.

Lemma rstrip_empty (s : string) : rstrip s = EmptyString -> all_space s = true.
Proof.
  induction s as [|c s IH]; simpl; [reflexivity|].
  destruct (rstrip s) eqn:E; [|discriminate].
  destruct (isspace c); [|discriminate]. intros _. simpl. auto.
Qed.

Lemma lstrip_suffix_space (s : string) :
  all_space (lstrip s) = true -> all_space s = true.
Proof.
  induction s as [|c s IH]; simpl; [reflexivity|].
  destruct (isspace c) eqn:E; simpl; auto. rewrite E. simpl. discriminate.
Qed.

Lemma strip_empty_iff (s : string) :
  strip s = EmptyString <-> all_space s = true.
Proof.
  split; [|apply strip_all_space].
  intros H. apply lstrip_suffix_space, rstrip_empty, H.
Qed.

End Blank.

Section Counts.
Import PyStr.

Lemma count_char_nonneg (c : ascii) (s : string) : 0 <= count_char c s.
Proof.
  induction s as [|c' s IH]; cbn [count_char]; [lia|].
  destruct (Ascii.eqb c c'); lia.
Qed.

Lemma count_from_nonneg (w s : string) (k : nat) : 0 <= count_from w s k.
Proof.
  revert k. induction s as [|c s IH]; cbn [count_from]; intros k; [lia|].
  destruct k; auto. destruct (prefix w (String c s)); auto.
  specialize (IH (Nat.pred (String.length w))). lia.
Qed.

Lemma count_nonneg (w s : string) : 0 <= count w s.
Proof. apply count_from_nonneg. Qed.

Lemma fold_count_nonneg (s : string) (ws : list string) (acc : Z) :
  0 <= acc -> 0 <= fold_left (fun a w => a + count w s) ws acc.
Proof.
  revert acc. induction ws as [|w ws IH]; cbn [fold_left]; intros acc H; auto.
  apply IH. pose proof (count_nonneg w s). lia.
Qed.

Lemma emphasis_terms_nonneg (s : string) : 0 <= emotion.emphasis_terms s.
Proof. apply fold_count_nonneg. lia. Qed.

End Counts.

(* ================================================================= *)
(** * C1: blank text *)

Lemma detect_nonblank (env : emotion.Env) (text : string) :
  all_space text = false ->
  emotion.detect env text
  = ([emotion.clean text],
     match emotion.post env (emotion.clean text) with
     | emotion.RequestException =>
         Raise (RuntimeError "Failed to classify sentiment via Hugging Face API")
     | emotion.Response data =>
         emotion.classify_payload env (emotion.clean text) data
     end).
Proof.
  intros H. unfold emotion.detect.
  destruct text as [|c t]; [discriminate|]. cbn [PyStr.is_empty orb].
  destruct (PyStr.is_empty (PyStr.strip (String c t))) eqn:E; [|reflexivity].
  assert (PyStr.strip (String c t) = EmptyString)
    by (destruct (PyStr.strip (String c t)); [reflexivity|discriminate]).
  apply strip_empty_iff in H0. congruence.
Qed.

(** Any other text is submitted, once, after cleaning. *)
Lemma detect_nonblank_calls (env : emotion.Env) (text : string) :
  all_space text = false ->
  fst (emotion.detect env text) = [emotion.clean text].
Proof.
  intros H. rewrite (detect_nonblank env text H). reflexivity.
Qed.

(** C1.  For a text that is empty or made of white space only, [detect]
    returns [{label: neutral, intensity: 0.0}] and the list of texts sent
    to the classifier is empty: no request is made. *)
Theorem C1_detect_blank (env : emotion.Env) (text : string) :
  all_space text = true ->
  emotion.detect env text
  = ([], Ok {| emotion.label := emotion.neutral; emotion.intensity := f0 |}).
Proof.
  intros H. unfold emotion.detect.
  rewrite (strip_all_space _ H). simpl. rewrite orb_true_r. reflexivity.
Qed.

Lemma C1_detect_blank_witness :
  all_space "  " = true /\
  emotion.detect (sample.answering sample.positive_answer) "  "
  = ([], Ok {| emotion.label := emotion.neutral; emotion.intensity := f0 |}).
Proof.
  split; [reflexivity|]. apply C1_detect_blank. reflexivity.
Defined.

(* ================================================================= *)
(** * C2: rejected responses *)

Lemma class_scores_rejects (env : emotion.Env) (data : emotion.json) :
  is_error_object data = true \/ emotion.falsy data = true
  \/ first_is_not_scores data = true ->
  exists msg, emotion.class_scores env data = Raise (RuntimeError msg).
Proof.
  unfold emotion.class_scores.
  intros [H|[H|H]].
  - destruct data; try discriminate. simpl in H. rewrite H. eexists; reflexivity.
  - destruct data as [|b|z|f|s|[|x items]|[|kv fields]];
      unfold emotion.falsy in *; try discriminate;
      cbn [bind emotion.has_key emotion.dict_get]; try rewrite H;
      eexists; reflexivity.
  - destruct data as [| | | |s|items|fields]; try discriminate.
    + destruct s as [|c s]; [discriminate|]. eexists. reflexivity.
    + destruct items as [|first rest]; [discriminate|].
      simpl in H.
      destruct first as [| | | | | |fields]; try discriminate;
        try (eexists; reflexivity).
      cbn. destruct (emotion.has_key "label" fields); [discriminate|].
      eexists. reflexivity.
Qed.

Lemma detect_request_failure (env : emotion.Env) (text : string) :
  all_space text = false ->
  emotion.post env (emotion.clean text) = emotion.RequestException ->
  is_runtime_error (snd (emotion.detect env text)) = true.
Proof.
  intros Hb Hp. rewrite (detect_nonblank env text Hb), Hp. reflexivity.
Qed.

Section Rejected.

Lemma of_int_not_runtime (z : Z) : is_runtime_error (of_int z) = false.
Proof. unfold of_int. destruct (of_Z z); reflexivity. Qed.

Lemma score_map_not_runtime (env : emotion.Env) (items : list emotion.json)
    (acc : list (string * float)) :
  is_runtime_error (emotion.score_map env items acc) = false.
Proof.
  revert acc. induction items as [|item rest IH]; intros acc; [reflexivity|].
  cbn [emotion.score_map].
  destruct item as [| | | | | |fields]; try reflexivity.
  cbn [emotion.item_label emotion.item_score].
  destruct (emotion.dict_get "label" fields) as [[| | | |s| |]|];
    try reflexivity.
  cbn [bind].
  destruct (emotion.dict_get "score" fields) as [v|]; [|reflexivity].
  destruct v as [|b|z|f|s'| |]; cbn [emotion.to_score]; try reflexivity;
    try apply IH.
  - pose proof (of_int_not_runtime z) as H.
    destruct (of_int z) as [x|e]; [apply IH|exact H].
  - destruct (emotion.float_of_str env s'); [apply IH|reflexivity].
Qed.

Lemma intensity_bonus_not_runtime (cleaned : string) :
  is_runtime_error (emotion.intensity_bonus cleaned) = false.
Proof.
  unfold emotion.intensity_bonus.
  pose proof (of_int_not_runtime (emotion.exclamations cleaned)) as H1.
  destruct (of_int (emotion.exclamations cleaned)); [|exact H1].
  cbn [bind].
  pose proof (of_int_not_runtime (emotion.emphasis_terms cleaned)) as H2.
  destruct (of_int (emotion.emphasis_terms cleaned)); [|exact H2].
  reflexivity.
Qed.

(** A response that is none of the three rejected kinds is a non-empty list
    whose first item is a list or an object with a label, or something
    that cannot be indexed by 0; in no case does reading it raise
    [RuntimeError]. *)
Lemma classify_payload_accepts (env : emotion.Env) (cleaned : string)
    (data : emotion.json) :
  is_error_object data = false -> emotion.falsy data = false ->
  first_is_not_scores data = false ->
  is_runtime_error (emotion.classify_payload env cleaned data) = false.
Proof.
  intros He Hf Hn.
  assert (T : forall items,
             is_runtime_error
               (scores <-
                  (m <- emotion.score_map env items [] ;;
                   Ok (emotion.class_score m "positive" "label_2",
                       emotion.class_score m "neutral" "label_1",
                       emotion.class_score m "negative" "label_0")) ;;
                (let '(p, n, g) := scores in
                 let '(lbl, primary_score) := emotion.select_winner p n g in
                 bonus <- emotion.intensity_bonus cleaned ;;
                 Ok {| emotion.label := lbl;
                       emotion.intensity :=
                         py_min f1 (fadd primary_score bonus) |})) = false).
  { intros items.
    pose proof (score_map_not_runtime env items []) as H.
    destruct (emotion.score_map env items []) as [m|e]; [|exact H].
    cbn [bind].
    destruct (emotion.select_winner _ _ _) as [lbl s].
    pose proof (intensity_bonus_not_runtime cleaned) as Hb.
    destruct (emotion.intensity_bonus cleaned); [reflexivity|exact Hb]. }
  unfold emotion.classify_payload, emotion.class_scores.
  destruct data as [|b|z|f|s|items|fields];
    cbn [is_error_object first_is_not_scores] in He, Hn;
    try discriminate; rewrite ?He, Hf; try reflexivity.
  - destruct s; discriminate.
  - destruct items as [|first rest]; [discriminate|].
    destruct first as [| | | | |inner|fields]; try discriminate.
    + cbn [bind emotion.flat_scores emotion.first_item].
      exact (T inner).
    + cbn [bind emotion.flat_scores emotion.first_item].
      destruct (emotion.has_key "label" fields); [|discriminate].
      exact (T (emotion.JDict fields :: rest)).
Qed.

End Rejected.

(** C2, as amended.  For a text that is not blank, [detect] makes one
    request and raises [RuntimeError] exactly when the request fails or the
    response is an object with an [error] field, or empty (falsy), or a
    non-empty list or string whose first item is neither a list nor an
    object with a [label] field. *)
Theorem C2_rejected_payloads (env : emotion.Env) (text : string) :
  all_space text = false ->
  fst (emotion.detect env text) = [emotion.clean text]
  /\ (is_runtime_error (snd (emotion.detect env text)) = true
      <-> match emotion.post env (emotion.clean text) with
          | emotion.RequestException => True
          | emotion.Response data =>
              is_error_object data = true \/ emotion.falsy data = true
              \/ first_is_not_scores data = true
          end).
Proof.
  intros Hb. rewrite (detect_nonblank env text Hb). cbn [fst snd].
  split; [reflexivity|].
  destruct (emotion.post env (emotion.clean text)) as [|data].
  - split; auto.
  - split.
    + intros H.
      destruct (is_error_object data) eqn:He; [auto|].
      destruct (emotion.falsy data) eqn:Hf; [auto|].
      destruct (first_is_not_scores data) eqn:Hn; [auto|].
      rewrite (classify_payload_accepts env _ data He Hf Hn) in H.
      discriminate.
    + intros H. destruct (class_scores_rejects env data H) as [msg Hm].
      unfold emotion.classify_payload. rewrite Hm. reflexivity.
Qed.

Lemma C2_rejected_payloads_witness :
  let data := emotion.JDict [("error", emotion.JStr "Model is loading")] in
  fst (emotion.detect (sample.answering data) "hello") = ["hello"]
  /\ (is_runtime_error (snd (emotion.detect (sample.answering data) "hello"))
      = true
      <-> is_error_object data = true \/ emotion.falsy data = true
          \/ first_is_not_scores data = true).
Proof.
  intros data.
  exact (C2_rejected_payloads (sample.answering data) "hello" eq_refl).
Defined.

(** Other malformed responses raise, but not [RuntimeError]: a non-empty
    object without an [error] field has no key [0], a number cannot be
    indexed, an item without a score has no key ["score"]. *)
Example other_shapes_raise_otherwise :
  let detect_on data := snd (emotion.detect (sample.answering data) "hi") in
  detect_on (emotion.JDict [("detail", emotion.JStr "busy")]) = Raise KeyError
  /\ detect_on (emotion.JInt 7) = Raise TypeError
  /\ detect_on
       (emotion.JList [emotion.JList [emotion.JDict [("label", emotion.JStr "positive")]]])
     = Raise KeyError.
Proof. repeat split; reflexivity. Qed.

Lemma C2_counterexample :
  emotion.flat_scores sample.no_scores_answer = Ok []
  /\ emotion.detect (sample.answering sample.no_scores_answer) "hi"
     = (["hi"],
        Ok {| emotion.label := emotion.positive; emotion.intensity := f0 |}).
Proof. split; vm_compute; reflexivity. Qed.

(* ================================================================= *)
(** * C3: the winner *)

Ltac winner_cases :=
  repeat split; auto; try discriminate; try tauto; try congruence;
  try (intros [? ?]; try tauto; congruence).

(** The result of [detect] is built from the winner and its score. *)
Lemma classify_payload_winner (env : emotion.Env) (cleaned : string)
    (data : emotion.json) (p n g b : float) :
  emotion.class_scores env data = Ok (p, n, g) ->
  emotion.intensity_bonus cleaned = Ok b ->
  emotion.classify_payload env cleaned data
  = Ok {| emotion.label := fst (emotion.select_winner p n g);
          emotion.intensity :=
            py_min f1 (fadd (snd (emotion.select_winner p n g)) b) |}.
Proof.
  intros Hs Hb. unfold emotion.classify_payload. rewrite Hs. cbn [bind].
  destruct (emotion.select_winner p n g) as [l s]. rewrite Hb. reflexivity.
Qed.

Section Winner.

(** The order of the three scores decides the winner. *)
Lemma select_winner_order (p n g : float) :
  is_nan p = false -> is_nan n = false -> is_nan g = false ->
  let '(l, s) := emotion.select_winner p n g in
  s = score_of l p n g
  /\ fge s p = true /\ fge s n = true /\ fge s g = true
  /\ (l = emotion.positive <-> fge p n = true /\ fge p g = true)
  /\ (l = emotion.negative <->
      ~ (fge p n = true /\ fge p g = true) /\ fge g n = true)
  /\ (l = emotion.neutral <->
      ~ (fge p n = true /\ fge p g = true) /\ ~ fge g n = true).
Proof.
  intros Hp Hn Hg.
  unfold emotion.select_winner, fge.
  fold (fle (py_max n g) p). fold (fle (py_max p n) g).
  fold (fle n p) (fle g p) (fle n g).
  pose proof (py_max_ge_l n g Hn) as M1.
  pose proof (py_max_ge_r n g Hn Hg) as M2.
  pose proof (py_max_ge_l p n Hp) as M3.
  pose proof (py_max_ge_r p n Hp Hn) as M4.
  destruct (fle (py_max n g) p) eqn:E1.
  - assert (A1 : fle n p = true) by exact (fle_trans _ _ _ M1 E1).
    assert (A2 : fle g p = true) by exact (fle_trans _ _ _ M2 E1).
    cbn [fst snd].
    fold (fle p p) (fle n p) (fle g p). rewrite A1, A2, (fle_refl _ Hp).
    winner_cases.
  - assert (B : ~ (fle n p = true /\ fle g p = true)).
    { intros [A1 A2]. rewrite (py_max_lub _ _ _ A1 A2) in E1. discriminate. }
    destruct (fle (py_max p n) g) eqn:E2.
    + assert (A1 : fle p g = true) by exact (fle_trans _ _ _ M3 E2).
      assert (A2 : fle n g = true) by exact (fle_trans _ _ _ M4 E2).
      cbn [fst snd].
      fold (fle p g) (fle n g) (fle g g). rewrite A1, A2, (fle_refl _ Hg).
      winner_cases.
    + assert (C : ~ (fle p g = true /\ fle n g = true)).
      { intros [A1 A2]. rewrite (py_max_lub _ _ _ A1 A2) in E2. discriminate. }
      assert (D1 : fle n g = false).
      { destruct (fle n g) eqn:E; auto. exfalso.
        destruct (fle p g) eqn:E'; [apply C; auto|].
        apply not_fle_flt in E'; auto. apply flt_fle in E'.
        apply B. split; auto. exact (fle_trans _ _ _ E E'). }
      assert (D2 : fle g n = true) by (apply flt_fle, not_fle_flt; auto).
      assert (D3 : fle p n = true).
      { destruct (fle p n) eqn:E; auto. exfalso.
        apply not_fle_flt in E; auto. apply flt_fle in E.
        apply B. split; auto. exact (fle_trans _ _ _ D2 E). }
      cbn [fst snd].
      fold (fle p n) (fle n n) (fle g n). rewrite D2, D3, (fle_refl _ Hn).
      winner_cases.
Qed.

End Winner.

(** C3, as amended.  When the three class scores read from the response are
    numbers (none is NaN), [detect] selects the class whose score is greater
    than or equal to the two others: positive wins exactly when its score is
    at least the two others (so it wins every tie it is part of), negative
    wins exactly when positive does not and its score is at least the
    neutral one (so it beats neutral in a tie), neutral wins otherwise.  The
    winner is the label of the result and its score is the primary score:
    the intensity is [min(1.0, primary_score + bonus)]. *)
Theorem C3_select_winner (env : emotion.Env) (text : string)
    (data : emotion.json) (p n g : float) :
  all_space text = false ->
  emotion.post env (emotion.clean text) = emotion.Response data ->
  emotion.class_scores env data = Ok (p, n, g) ->
  is_nan p = false -> is_nan n = false -> is_nan g = false ->
  exists l s,
    emotion.detect env text
    = ([emotion.clean text],
       bonus <- emotion.intensity_bonus (emotion.clean text) ;;
       Ok {| emotion.label := l;
             emotion.intensity := py_min f1 (fadd s bonus) |})
    /\ s = score_of l p n g
    /\ fge s p = true /\ fge s n = true /\ fge s g = true
    /\ (l = emotion.positive <-> fge p n = true /\ fge p g = true)
    /\ (l = emotion.negative <->
        ~ (fge p n = true /\ fge p g = true) /\ fge g n = true)
    /\ (l = emotion.neutral <->
        ~ (fge p n = true /\ fge p g = true) /\ ~ fge g n = true).
Proof.
  intros Hb Hpost Hs Hp Hn Hg.
  pose proof (select_winner_order p n g Hp Hn Hg) as W.
  rewrite (detect_nonblank env text Hb), Hpost.
  unfold emotion.classify_payload. rewrite Hs. cbn [bind].
  destruct (emotion.select_winner p n g) as [l s].
  exists l, s. split; [reflexivity|exact W].
Qed.

Lemma C3_select_winner_witness :
  exists l s,
    emotion.detect (sample.answering sample.tie_answer) "so happy"
    = (["so happy"],
       bonus <- emotion.intensity_bonus "so happy" ;;
       Ok {| emotion.label := l;
             emotion.intensity := py_min f1 (fadd s bonus) |})
    /\ s = score_of l sample.c0_9 sample.c0_07 sample.c0_9
    /\ fge s sample.c0_9 = true /\ fge s sample.c0_07 = true
    /\ fge s sample.c0_9 = true
    /\ (l = emotion.positive <->
        fge sample.c0_9 sample.c0_07 = true
        /\ fge sample.c0_9 sample.c0_9 = true)
    /\ (l = emotion.negative <->
        ~ (fge sample.c0_9 sample.c0_07 = true
           /\ fge sample.c0_9 sample.c0_9 = true)
        /\ fge sample.c0_9 sample.c0_07 = true)
    /\ (l = emotion.neutral <->
        ~ (fge sample.c0_9 sample.c0_07 = true
           /\ fge sample.c0_9 sample.c0_9 = true)
        /\ ~ fge sample.c0_9 sample.c0_07 = true).
Proof.
  exact (C3_select_winner (sample.answering sample.tie_answer) "so happy"
           sample.tie_answer sample.c0_9 sample.c0_07 sample.c0_9
           eq_refl eq_refl eq_refl eq_refl eq_refl eq_refl).
Defined.

(** With a score that is NaN no comparison holds: here the positive score
    0.9 is the greatest number, the neutral score is NaN, and [detect]
    returns neutral, whose score is not greater than or equal to any
    other. *)
Lemma C3_counterexample :
  emotion.class_scores (sample.answering sample.nan_answer) sample.nan_answer
  = Ok (sample.c0_9, S754_nan, sample.c0_07)
  /\ emotion.detect (sample.answering sample.nan_answer) "fine"
     = (["fine"],
        Ok {| emotion.label := emotion.neutral; emotion.intensity := f1 |})
  /\ fge S754_nan sample.c0_9 = false
  /\ fge S754_nan sample.c0_07 = false
  /\ fge sample.c0_9 sample.c0_07 = true.
Proof. repeat split; vm_compute; reflexivity. Qed.

(* ================================================================= *)
(** * C4: bounds of the intensity *)

(** Peels the successful steps of a chain of [bind]s in the hypothesis of
    the goal; the failing branches cannot equal an [Ok]. *)
Ltac bind_ok :=
  repeat match goal with
         | |- bind ?r _ = Ok _ -> _ =>
             let x := fresh "x" in
             destruct r as [x|] eqn:?; cbn [bind]; [|discriminate]
         end.

Lemma intensity_bonus_nonneg (cleaned : string) (b : float) :
  emotion.intensity_bonus cleaned = Ok b -> nonneg b.
Proof.
  unfold emotion.intensity_bonus. bind_ok.
  match goal with
  | He : of_int (emotion.exclamations _) = Ok ?e,
    Ht : of_int (emotion.emphasis_terms _) = Ok ?t |- _ =>
      apply of_int_nonneg in He as [He1 He2]; [|apply count_char_nonneg];
      apply of_int_nonneg in Ht as [Ht1 Ht2]; [|apply emphasis_terms_nonneg]
  end.
  intros H.
  match type of H with
  | Ok ?v = Ok _ => assert (Hb : b = v) by congruence
  end.
  rewrite Hb. destruct (emotion.question cleaned); auto 6 with nonneg.
Qed.

Lemma select_winner_cases (p n g : float) :
  let '(l, s) := emotion.select_winner p n g in s = p \/ s = n \/ s = g.
Proof.
  unfold emotion.select_winner.
  destruct (fge p _); [auto|]. destruct (fge g _); auto.
Qed.

(** C4, as amended.  Whenever [detect] returns a result its intensity is at
    most 1; it is at least 0 when the three class scores read from the
    response are at least 0.  (With three scores below 0 the intensity is
    below 0: see the counterexample.) *)
Theorem C4_intensity_bounds (env : emotion.Env) (text : string)
    (sent : list string) (r : emotion.EmotionResult) :
  emotion.detect env text = (sent, Ok r) ->
  fle (emotion.intensity r) f1 = true
  /\ (scores_nonneg env text -> fle f0 (emotion.intensity r) = true).
Proof.
  unfold emotion.detect.
  destruct (PyStr.is_empty text || PyStr.is_empty (PyStr.strip text)).
  { intros [= _ <-]. split; reflexivity. }
  destruct (emotion.post env (emotion.clean text)) as [|data] eqn:Ep;
    [discriminate|].
  intros [= _ H]. unfold emotion.classify_payload in H.
  destruct (emotion.class_scores env data) as [[[p n] g]|] eqn:Es; [|discriminate].
  cbn [bind] in H. pose proof (select_winner_cases p n g) as Hw.
  destruct (emotion.select_winner p n g) as [l s].
  destruct (emotion.intensity_bonus (emotion.clean text)) as [b|] eqn:Eb;
    [|discriminate].
  cbn [bind] in H. injection H as <-. cbn [emotion.intensity]. split.
  - apply py_min_le_l. reflexivity.
  - intros Hn. destruct (Hn data p n g Ep Es) as (Hp & Hn' & Hg).
    apply py_min_nonneg; [reflexivity|].
    apply fadd_nonneg; [|eapply intensity_bonus_nonneg; eauto].
    destruct Hw as [->|[->| ->]]; auto.
Qed.

Lemma C4_intensity_bounds_witness :
  let env := sample.answering sample.positive_answer in
  let r := {| emotion.label := emotion.positive; emotion.intensity := f1 |} in
  scores_nonneg env "I am so very happy!!"
  /\ fle (emotion.intensity r) f1 = true
  /\ fle f0 (emotion.intensity r) = true.
Proof.
  intros env r.
  assert (Hs : scores_nonneg env "I am so very happy!!").
  { intros data p n g Hd. injection Hd as <-.
    vm_compute. intros [= <- <- <-]. repeat split; reflexivity. }
  split; [exact Hs|].
  destruct (C4_intensity_bounds env "I am so very happy!!"
              ["I am so very happy!!"] r eq_refl) as [Hle Hge].
  split; [exact Hle | exact (Hge Hs)].
Defined.

Lemma C4_counterexample :
  let env := sample.answering sample.negative_scores_answer in
  exists r,
    emotion.detect env "hi" = (["hi"], Ok r)
    /\ fle f0 (emotion.intensity r) = false.
Proof.
  intros env.
  exists {| emotion.label := emotion.positive; emotion.intensity := sample.cm0_5 |}.
  split; vm_compute; reflexivity.
Qed.

(* ================================================================= *)
(** * C5: bounds of the modulated parameters *)

Lemma volume_clamp (x : float) :
  let v := py_max service.c0_3 (py_min f1 x) in
  fle service.c0_3 v = true /\ fle v f1 = true.
Proof.
  intros v. split.
  - apply py_max_ge_l. reflexivity.
  - unfold v. apply py_max_lub; [reflexivity|]. apply py_min_le_l. reflexivity.
Qed.

(** C5, as amended.  Whenever modulation returns parameters, the rate is
    at least 120 and the volume lies in [0.3, 1.0]; the pitch is absent
    exactly when the profile has no baseline pitch, it is at least 30 when
    the profile has a baseline pitch and a pitch delta range, and it is the
    baseline pitch unchanged when the profile has no pitch delta range. *)
Theorem C5_modulated_bounds (profile : config.VoiceProfile)
    (emo : emotion.EmotionResult) (r : Z) (v : float) (p : option Z) :
  service._modulate_parameters profile emo = Ok (r, v, p) ->
  120 <= r
  /\ fle service.c0_3 v = true /\ fle v f1 = true
  /\ pitch_outcome profile p.
Proof.
  unfold service._modulate_parameters, pitch_outcome. bind_ok.
  match goal with
  | |- context [py_min f1 ?s] => destruct (volume_clamp s) as [V1 V2]
  end.
  destruct (config.pitch profile) as [base|];
    [destruct (config.pitch_delta_range profile) as [range|]|];
    bind_ok; intros [= <- <- <-]; repeat split; auto; try lia.
  eexists. split; [reflexivity|lia].
Qed.

Lemma C5_modulated_bounds_witness :
  120 <= 231
  /\ fle service.c0_3 f1 = true /\ fle f1 f1 = true
  /\ pitch_outcome service.positive_profile (Some 82).
Proof.
  exact (C5_modulated_bounds service.positive_profile
           {| emotion.label := emotion.positive; emotion.intensity := f1 |}
           231 f1 (Some 82) eq_refl).
Defined.

Lemma C5_counterexample :
  let emo := {| emotion.label := emotion.neutral; emotion.intensity := f0 |} in
  config.pitch_delta_range sample.low_pitch_profile = None
  /\ service._modulate_parameters sample.low_pitch_profile emo
     = Ok (150, sample.c0_9, Some 20)
  /\ ~ 30 <= 20.
Proof.
  intros emo. split; [reflexivity|]. split; [vm_compute; reflexivity|lia].
Qed.

(* ================================================================= *)
(** * C6: interpolation *)

Section Interpolation.

Lemma interpolate_eq (lo hi : num) (flo d i : float) :
  to_float lo = Ok flo -> difference lo hi = Ok d ->
  service._interpolate (lo, hi) i = Ok (fadd flo (fmul d i)).
Proof.
  unfold service._interpolate, difference. intros Hl Hd.
  destruct (num_sub hi lo) as [n|]; [|discriminate]. cbn [bind] in *.
  rewrite Hd. cbn [bind]. rewrite Hl. reflexivity.
Qed.


Lemma unit_interval_value (i : float) :
  unit_interval i -> wf i /\ is_finite i = true /\ 0 <= Fval i <= 2 ^ bias.
Proof.
  intros (W & H0 & H1).
  apply (fle_Fval f0 i wf_f0 W) in H0. apply (fle_Fval i f1 W wf_f1) in H1.
  rewrite Fval_f1 in H1. change (Fval f0) with 0 in H0.
  split; [exact W|]. split; [|lia].
  apply Fval_finite; [exact W|].
  assert (2 ^ bias < top).
  { unfold top. apply Z.pow_lt_mono_r; unfold bias; lia. }
  lia.
Qed.

Lemma unit_interval_f0 : unit_interval f0.
Proof. repeat split; reflexivity. Qed.

Lemma unit_interval_f1 : unit_interval f1.
Proof. repeat split; reflexivity. Qed.

(** The scaled product stays between 0 and the factor [D]. *)
Lemma scaled_between (D I : Z) :
  0 <= I <= 2 ^ bias ->
  (0 <= D -> 0 <= D * I / 2 ^ bias <= D)
  /\ (D <= 0 -> D <= D * I / 2 ^ bias <= 0).
Proof.
  intros HI. pose proof bias_pos as HB. split; intros HD.
  - split; [apply Z.div_pos; nia|].
    rewrite <- (Z.div_mul D (2 ^ bias)) at 2 by lia.
    apply Z.div_le_mono; nia.
  - split.
    + rewrite <- (Z.div_mul D (2 ^ bias)) at 1 by lia.
      apply Z.div_le_mono; nia.
    + apply Z.div_le_upper_bound; nia.
Qed.

End Interpolation.

(** One range, read as the floats [flo] and [d] that [_interpolate] adds
    and multiplies: both in good standing and finite. *)
Section Range.

Variables flo d : float.
Hypothesis Wl : wf flo.
Hypothesis Fl : is_finite flo = true.
Hypothesis Wd : wf d.
Hypothesis Fd : is_finite d = true.

Lemma product_facts (i : float) :
  unit_interval i ->
  wf (fmul d i) /\ is_finite (fmul d i) = true
  /\ Fval (fmul d i) = clamp (srnd (Fval d * Fval i / 2 ^ bias)).
Proof.
  intros Hi. destruct (unit_interval_value i Hi) as (Wi & Fi & Vi).
  destruct (fmul_spec d i Wd Wi Fd Fi) as [W V].
  split; [exact W|]. split; [|exact V].
  apply Fval_finite; [exact W|]. rewrite V.
  pose proof (Fval_bound d Wd Fd) as Bd.
  destruct (scaled_between (Fval d) (Fval i) Vi) as [Hp Hn].
  pose proof (clamp_srnd_Fval d Wd Fd) as Ed.
  destruct (Z_le_gt_dec 0 (Fval d)) as [Hd|Hd].
  - destruct (Hp Hd) as [L U].
    pose proof (clamp_srnd_nonneg _ L). pose proof (clamp_srnd_mono _ _ U). lia.
  - destruct (Hn ltac:(lia)) as [L U].
    pose proof (clamp_srnd_nonpos _ U). pose proof (clamp_srnd_mono _ _ L). lia.
Qed.

Lemma interpolate_value (i : float) :
  unit_interval i ->
  wf (fadd flo (fmul d i))
  /\ Fval (fadd flo (fmul d i))
     = clamp (srnd (Fval flo
                    + clamp (srnd (Fval d * Fval i / 2 ^ bias)))).
Proof.
  intros Hi.
  destruct (product_facts i Hi) as (Wp & Fp & Vp).
  destruct (fadd_spec flo (fmul d i) Wl Wp Fl Fp) as [W V].
  split; [exact W|]. rewrite V, Vp. reflexivity.
Qed.

(** The result lies between the two ends [flo] and [flo + d]. *)
Lemma interpolate_between (i : float) :
  unit_interval i ->
  let r := fadd flo (fmul d i) in
  Fval flo <= Fval r <= Fval (fadd flo d)
  \/ Fval (fadd flo d) <= Fval r <= Fval flo.
Proof.
  intros Hi r.
  destruct (interpolate_value i Hi) as [W V].
  destruct (fadd_spec flo d Wl Wd Fl Fd) as [W1 V1].
  destruct (unit_interval_value i Hi) as (_ & _ & Bi).
  destruct (scaled_between (Fval d) (Fval i) Bi) as [Hp Hn].
  pose proof (clamp_srnd_Fval d Wd Fd) as Ed.
  pose proof (clamp_srnd_Fval flo Wl Fl) as El.
  unfold r. rewrite V, V1.
  destruct (Z_le_gt_dec 0 (Fval d)) as [Hd|Hd].
  - left. destruct (Hp Hd) as [L U].
    pose proof (clamp_srnd_nonneg _ L) as L'.
    pose proof (clamp_srnd_mono _ _ U) as U'. rewrite Ed in U'.
    split.
    + rewrite <- El at 1. apply clamp_srnd_mono. lia.
    + apply clamp_srnd_mono. lia.
  - right. destruct (Hn ltac:(lia)) as [L U].
    pose proof (clamp_srnd_nonpos _ U) as U'.
    pose proof (clamp_srnd_mono _ _ L) as L'. rewrite Ed in L'.
    split.
    + apply clamp_srnd_mono. lia.
    + rewrite <- El at 2. apply clamp_srnd_mono. lia.
Qed.

(** Monotone in the intensity, in the direction of the sign of [d]. *)
Lemma interpolate_mono (i j : float) :
  unit_interval i -> unit_interval j -> fle i j = true ->
  (0 <= Fval d -> fle (fadd flo (fmul d i)) (fadd flo (fmul d j)) = true)
  /\ (Fval d <= 0 -> fle (fadd flo (fmul d j)) (fadd flo (fmul d i)) = true).
Proof.
  intros Hi Hj Hij. pose proof bias_pos as HB.
  destruct (interpolate_value i Hi) as [Wi Vi].
  destruct (interpolate_value j Hj) as [Wj Vj].
  destruct (unit_interval_value i Hi) as (Wi' & _ & Bi).
  destruct (unit_interval_value j Hj) as (Wj' & _ & Bj).
  apply (fle_Fval i j Wi' Wj') in Hij.
  split; intros H.
  - apply (fle_Fval _ _ Wi Wj). rewrite Vi, Vj.
    apply clamp_srnd_mono, Z.add_le_mono_l, clamp_srnd_mono.
    apply Z.div_le_mono; [lia|]. nia.
  - apply (fle_Fval _ _ Wj Wi). rewrite Vi, Vj.
    apply clamp_srnd_mono, Z.add_le_mono_l, clamp_srnd_mono.
    apply Z.div_le_mono; [lia|]. nia.
Qed.

End Range.




(** The ranges of the default table reach their end at intensity 1. *)
Lemma default_ranges_reach_end (p : config.VoiceProfile) :
  In p [service.positive_profile; service.neutral_profile;
        service.negative_profile] ->
  (exists r,
      service._interpolate (service.int_range (config.rate_delta_range p)) f1
      = Ok r
      /\ feq r (of_Z (snd (config.rate_delta_range p))) = true)
  /\ (exists r,
         service._interpolate
           (service.float_range (config.volume_delta_range p)) f1 = Ok r
         /\ feq r (snd (config.volume_delta_range p)) = true).
Proof.
  intros [<-|[<-|[<-|[]]]]; split; eexists; split;
    try (vm_compute; reflexivity).
Qed.

(* ================================================================= *)
(** * Modulation returns on the default table *)

Section Totality.

Lemma between_finite (x a b : float) :
  wf x -> wf a -> wf b -> is_finite a = true -> is_finite b = true ->
  Fval a <= Fval x <= Fval b \/ Fval b <= Fval x <= Fval a ->
  is_finite x = true.
Proof.
  intros Wx Wa Wb Fa Fb H. apply Fval_finite; [exact Wx|].
  pose proof (Fval_bound a Wa Fa). pose proof (Fval_bound b Wb Fb). lia.
Qed.

Lemma py_round_finite (x : float) :
  is_finite x = true -> exists q, py_round x = Ok q.
Proof.
  destruct x; try discriminate; intros _; eexists; reflexivity.
Qed.

Lemma rounded_sum_returns (base : Z) (range : Z * Z) (i : float) :
  corners_fit base range -> unit_interval i ->
  exists fb rd q,
    service._interpolate (service.int_range range) i = Ok rd
    /\ of_int base = Ok fb
    /\ py_round (fadd fb rd) = Ok q.
Proof.
  intros (fb & flo & d & Hb & Hl & Hd & F1 & F2 & F3) Hi.
  destruct (of_int_spec _ _ Hb) as (Wb & Fb & _).
  destruct (of_int_spec _ _ Hl) as (Wl & Fl & _).
  destruct (of_int_spec _ _ Hd) as (Wd & Fd & _).
  set (r := fadd flo (fmul d i)).
  assert (Er : service._interpolate (service.int_range range) i = Ok r).
  { apply interpolate_eq; [exact Hl|]. unfold difference, service.int_range.
    cbn [num_sub bind to_float fst snd]. exact Hd. }
  destruct (interpolate_value flo d Wl Fl Wd Fd i Hi) as [Wr _]. fold r in Wr.
  destruct (fadd_spec flo d Wl Wd Fl Fd) as [W1 _].
  pose proof (interpolate_between flo d Wl Fl Wd Fd i Hi) as Hbt.
  cbv zeta in Hbt. fold r in Hbt.
  assert (Fr : is_finite r = true)
    by (apply (between_finite r flo (fadd flo d)); auto).
  destruct (fadd_spec fb r Wb Wr Fb Fr) as [Ws Vs].
  destruct (fadd_spec fb flo Wb Wl Fb Fl) as [Wa Va].
  destruct (fadd_spec fb (fadd flo d) Wb W1 Fb F1) as [Wc Vc].
  assert (Fs : is_finite (fadd fb r) = true).
  { apply (between_finite _ (fadd fb flo) (fadd fb (fadd flo d))); auto.
    rewrite Vs, Va, Vc.
    destruct Hbt as [[L U]|[L U]]; [left|right]; split;
      apply clamp_srnd_mono; lia. }
  destruct (py_round_finite _ Fs) as [q Hq].
  exists fb, r, q. auto.
Qed.

Lemma float_interpolate_returns (range : float * float) (i : float) :
  exists vd, service._interpolate (service.float_range range) i = Ok vd.
Proof. destruct range as [lo hi]. eexists. reflexivity. Qed.

(** Modulation returns for every intensity in [0, 1] when the extreme sums
    of the rate and of the pitch fit a float. *)
Lemma modulate_returns (profile : config.VoiceProfile)
    (emo : emotion.EmotionResult) :
  unit_interval (emotion.intensity emo) ->
  corners_fit (config.rate profile) (config.rate_delta_range profile) ->
  (forall p range,
      config.pitch profile = Some p ->
      config.pitch_delta_range profile = Some range ->
      corners_fit p range) ->
  exists out, service._modulate_parameters profile emo = Ok out.
Proof.
  intros Hi Hr Hp. unfold service._modulate_parameters.
  destruct (rounded_sum_returns _ _ _ Hr Hi) as (fb & rd & q & E1 & E2 & E3).
  destruct (float_interpolate_returns (config.volume_delta_range profile)
              (emotion.intensity emo)) as [vd Ev].
  rewrite E1. cbn [bind]. rewrite Ev. cbn [bind]. rewrite E2. cbn [bind].
  rewrite E3. cbn [bind].
  destruct (config.pitch profile) as [p|] eqn:Epitch;
    [destruct (config.pitch_delta_range profile) as [range|] eqn:Erange|];
    try (eexists; reflexivity).
  destruct (rounded_sum_returns _ _ _ (Hp p range eq_refl eq_refl) Hi)
    as (fp & pd & qp & P1 & P2 & P3).
  rewrite P1. cbn [bind]. rewrite P2. cbn [bind]. rewrite P3. cbn [bind].
  eexists. reflexivity.
Qed.

(** In particular it returns for the three profiles of the default table. *)
Lemma modulate_default_returns (l : emotion.EmotionLabel) (i : float) :
  unit_interval i ->
  exists profile out,
    config.get service._default_mapping (emotion.label_str l) = Ok profile
    /\ service._modulate_parameters profile
         {| emotion.label := l; emotion.intensity := i |} = Ok out.
Proof.
  intros Hi.
  assert (Hfit : forall base range,
             In (base, range)
                [(186, (0, 45)); (175, (-5, 5)); (160, (0, -40));
                 (70, (0, 12)); (64, (-3, 4)); (58, (0, -12))] ->
             corners_fit base range).
  { intros base range H. unfold corners_fit.
    repeat (destruct H as [H|H]; [injection H as <- <-|]);
      try contradiction;
      do 3 eexists; repeat split; vm_compute; reflexivity. }
  destruct l.
  - destruct (modulate_returns service.positive_profile
                {| emotion.label := emotion.positive; emotion.intensity := i |}
                Hi) as [out Ho].
    + apply Hfit. cbn. auto.
    + intros p range [= <-] [= <-]. apply Hfit. cbn. auto 10.
    + exists service.positive_profile, out. split; [reflexivity|exact Ho].
  - destruct (modulate_returns service.neutral_profile
                {| emotion.label := emotion.neutral; emotion.intensity := i |}
                Hi) as [out Ho].
    + apply Hfit. cbn. auto.
    + intros p range [= <-] [= <-]. apply Hfit. cbn. auto 10.
    + exists service.neutral_profile, out. split; [reflexivity|exact Ho].
  - destruct (modulate_returns service.negative_profile
                {| emotion.label := emotion.negative; emotion.intensity := i |}
                Hi) as [out Ho].
    + apply Hfit. cbn. auto.
    + intros p range [= <-] [= <-]. apply Hfit. cbn. auto 10.
    + exists service.negative_profile, out. split; [reflexivity|exact Ho].
Qed.

End Totality.

(* ================================================================= *)
(** * The document as it is written *)

Section Serialised.
Import PyStr.

Lemma append_nil_right (s : string) : s ++ EmptyString = s.
Proof. induction s as [|c s IH]; cbn [append]; congruence. Qed.

Lemma append_assoc (a b c : string) : (a ++ b) ++ c = a ++ (b ++ c).
Proof. induction a as [|x a IH]; cbn [append]; congruence. Qed.

Lemma escape_cdata_app (a b : string) :
  ssml.escape_cdata (a ++ b) = ssml.escape_cdata a ++ ssml.escape_cdata b.
Proof.
  induction a as [|c a IH]; [reflexivity|].
  cbn [append ssml.escape_cdata]. rewrite IH.
  repeat match goal with
         | |- context [if ?b then _ else _] => destruct b
         end; cbn [append]; rewrite ?append_assoc; reflexivity.
Qed.

Lemma contains_char_app (c : ascii) (a b : string) :
  contains_char c (a ++ b) = contains_char c a || contains_char c b.
Proof.
  induction a as [|x a IH]; [reflexivity|].
  cbn [append contains_char]. rewrite IH, orb_assoc. reflexivity.
Qed.

Lemma html_escape_nonempty (s : string) :
  is_empty s = false -> is_empty (html_escape s) = false.
Proof.
  destruct s as [|c s]; [discriminate|]. intros _. cbn [html_escape].
  repeat match goal with
         | |- context [if ?b then _ else _] => destruct b
         end; reflexivity.
Qed.

Lemma written_text_markup_free (text : string) (c : ascii) :
  In c ["<"; ">"; dquote; squote]%char ->
  contains_char c (written_text text) = false.
Proof.
  intros Hc. unfold written_text.
  induction (strip text) as [|x s IH]; [reflexivity|].
  cbn [html_escape].
  destruct (Ascii.eqb_spec x "&"); [|destruct (Ascii.eqb_spec x "<");
    [|destruct (Ascii.eqb_spec x ">"); [|destruct (Ascii.eqb_spec x dquote);
      [|destruct (Ascii.eqb_spec x squote)]]]];
    try (rewrite escape_cdata_app, contains_char_app, IH, orb_false_r;
         destruct Hc as [<-|[<-|[<-|[<-|[]]]]]; reflexivity).
  cbn [ssml.escape_cdata].
  destruct (Ascii.eqb_spec x "&"); [contradiction|].
  destruct (Ascii.eqb_spec x "<"); [contradiction|].
  destruct (Ascii.eqb_spec x ">"); [contradiction|].
  cbn [contains_char]. rewrite IH, orb_false_r.
  destruct Hc as [<-|[<-|[<-|[<-|[]]]]]; apply Ascii.eqb_neq; congruence.
Qed.

Lemma tostring_eq (tag : string) (attrib : list (string * string))
    (text : option string) (children : list ssml.Element) :
  ssml.tostring (ssml.Elem tag attrib text children)
  = "<" ++ tag ++ concat EmptyString (map ssml.write_attrib attrib)
      ++ (if match text with Some t => is_empty t | None => true end
             && match children with [] => true | _ => false end
          then " />"
          else ">" ++ (match text with
                       | Some t => ssml.escape_cdata t
                       | None => EmptyString
                       end
                       ++ concat EmptyString (map ssml.tostring children))
                   ++ "</" ++ tag ++ ">").
Proof. reflexivity. Qed.

Lemma concat_cons_nosep (x : string) (l : list string) :
  concat EmptyString (x :: l) = x ++ concat EmptyString l.
Proof.
  destruct l as [|y l]; cbn [concat append]; [|reflexivity].
  symmetry. apply append_nil_right.
Qed.

Lemma safe_text_nonempty (text : string) :
  all_space text = false -> is_empty (html_escape (strip text)) = false.
Proof.
  intros Hb. apply html_escape_nonempty.
  destruct (strip text) eqn:E; [|reflexivity].
  apply strip_empty_iff in E. congruence.
Qed.

Lemma Ok_inj {A : Type} (a b : A) : Ok a = Ok b -> a = b.
Proof. intros H. congruence. Qed.

Lemma no_break_start_app (a b : string) :
  no_break_start a = true -> no_break_start b = true ->
  no_break_start (a ++ b) = true.
Proof.
  intros Ha Hb. induction a as [|c a IH]; [exact Hb|].
  cbn [no_break_start append] in *.
  apply andb_prop in Ha as [Hc Ha]. rewrite (IH Ha), andb_true_r.
  destruct (Ascii.eqb c "<"); [|reflexivity].
  destruct a as [|d a]; [discriminate|exact Hc].
Qed.

Lemma no_lt_no_break_start (s : string) :
  contains_char "<" s = false -> no_break_start s = true.
Proof.
  induction s as [|c s IH]; [reflexivity|].
  cbn [contains_char no_break_start]. intros H.
  apply orb_false_elim in H as [Hc Hs].
  rewrite Ascii.eqb_sym, Hc, (IH Hs). reflexivity.
Qed.

(** A pattern that starts with [<b] occurs in [a ++ r] only where it
    occurs in [r], when no break element starts in [a]. *)
Lemma occurs_skip (w a r : string) :
  no_break_start a = true ->
  occurs (String "<" (String "b" w)) (a ++ r)
  = occurs (String "<" (String "b" w)) r.
Proof.
  intros Ha. induction a as [|c a IH]; [reflexivity|].
  cbn [no_break_start] in Ha. apply andb_prop in Ha as [Hc Ha].
  cbn [append occurs]. rewrite (IH Ha).
  cbn [String.prefix].
  destruct (ascii_dec "<" c) as [<-|N]; [|reflexivity].
  cbn [Ascii.eqb Bool.eqb] in Hc.
  destruct a as [|d a]; [discriminate|]. cbn [append String.prefix].
  destruct (ascii_dec "b" d) as [<-|N']; [discriminate|reflexivity].
Qed.

Lemma escape_attrib_no_lt (s : string) :
  contains_char "<" (ssml.escape_attrib s) = false.
Proof.
  induction s as [|c s IH]; [reflexivity|].
  cbn [ssml.escape_attrib].
  repeat match goal with
         | |- context [if Ascii.eqb c ?x then _ else _] =>
             destruct (Ascii.eqb_spec c x)
         end;
    try (rewrite contains_char_app, IH, orb_false_r; reflexivity).
  cbn [contains_char]. rewrite IH, orb_false_r.
  apply Ascii.eqb_neq. congruence.
Qed.

Lemma write_attrib_no_lt (k v : string) :
  contains_char "<" k = false ->
  contains_char "<" (ssml.write_attrib (k, v)) = false.
Proof.
  intros Hk. unfold ssml.write_attrib. cbn [fst snd].
  rewrite !contains_char_app, Hk. cbn [contains_char].
  rewrite escape_attrib_no_lt. reflexivity.
Qed.

(** The attributes of the prosody element are written without [<]. *)
Lemma prosody_attrs_no_lt (profile : config.VoiceProfile) (applied_rate : Z)
    (applied_volume : float) (applied_pitch : option Z)
    (attrs : list (string * string)) :
  ssml.prosody_attrs profile applied_rate applied_volume applied_pitch
  = Ok attrs ->
  contains_char "<" (concat EmptyString (map ssml.write_attrib attrs)) = false.
Proof.
  unfold ssml.prosody_attrs.
  destruct (ssml._rate_percentage _ _) as [pct|]; cbn [bind]; [|discriminate].
  destruct (String.eqb _ "default"); intros [= <-]; cbn [app map];
    rewrite !concat_cons_nosep, !contains_char_app,
      !write_attrib_no_lt by reflexivity; reflexivity.
Qed.

Lemma is_empty_html_escape (text : string) :
  is_empty (html_escape (strip text)) = all_space text.
Proof.
  destruct (all_space text) eqn:E.
  - rewrite (strip_all_space _ E). reflexivity.
  - apply safe_text_nonempty, E.
Qed.

End Serialised.

(* ================================================================= *)
(** * C7: the worked example *)

(** C7.  For the positive profile of the default table and a positive
    emotion of intensity 1.0, modulation yields rate 231, volume 1.0 and
    pitch 82; the rate percentage is 124, the volume bucket x-loud, the
    pitch step +12st; the tree built from those parameters carries exactly
    these three prosody attributes, and so does the document [build]
    returns, for every text: its prosody element is opened with the rate
    124%, the volume x-loud and the pitch +12st. *)
Theorem C7_positive_full_intensity (text : string) :
  service._modulate_parameters service.positive_profile full_positive
  = Ok (231, f1, Some 82)
  /\ ssml._rate_percentage 186 231 = Ok 124
  /\ ssml._volume_descriptor f1 = "x-loud"
  /\ ssml._pitch_step (Some 70) (Some 82) = "+12st"
  /\ ssml.build_root text full_positive service.positive_profile 231 f1 (Some 82)
     = Ok (ssml.Elem "speak"
             [("xmlns", ssml.namespace); ("version", "1.0")] None
             [ssml.Elem "prosody"
                [("rate", "124%"); ("volume", "x-loud"); ("pitch", "+12st")]
                None
                [ssml.Elem "emphasis" [("level", "strong")]
                   (Some (PyStr.html_escape (PyStr.strip text))) [];
                 ssml.Elem "break" [("strength", "medium")] None []]])
  /\ ssml.build text full_positive service.positive_profile 231 f1 (Some 82)
     = Ok ("<speak xmlns=" ++ quoted "http://www.w3.org/2001/10/synthesis"
           ++ " version=" ++ quoted "1.0" ++ ">"
           ++ "<prosody rate=" ++ quoted "124%"
           ++ " volume=" ++ quoted "x-loud"
           ++ " pitch=" ++ quoted "+12st" ++ ">"
           ++ (if all_space text
               then "<emphasis level=" ++ quoted "strong" ++ " />"
               else "<emphasis level=" ++ quoted "strong" ++ ">"
                    ++ written_text text ++ "</emphasis>")
           ++ written_pause_medium ++ "</prosody></speak>").
Proof.
  assert (R : ssml.build_root text full_positive service.positive_profile
                231 f1 (Some 82)
              = Ok (ssml.Elem "speak"
                      [("xmlns", ssml.namespace); ("version", "1.0")] None
                      [ssml.Elem "prosody"
                         [("rate", "124%"); ("volume", "x-loud");
                          ("pitch", "+12st")]
                         None
                         [ssml.Elem "emphasis" [("level", "strong")]
                            (Some (PyStr.html_escape (PyStr.strip text))) [];
                          ssml.Elem "break" [("strength", "medium")] None []]]))
    by (vm_compute; reflexivity).
  split; [vm_compute; reflexivity|].
  split; [vm_compute; reflexivity|].
  split; [vm_compute; reflexivity|].
  split; [vm_compute; reflexivity|].
  split; [exact R|].
  unfold ssml.build. rewrite R. cbn [bind]. f_equal.
  unfold written_text. rewrite <- (is_empty_html_escape text).
  remember (PyStr.html_escape (PyStr.strip text)) as t eqn:Ht. clear Ht R.
  destruct t as [|c t]; [vm_compute; reflexivity|].
  remember (concat EmptyString
              (map ssml.write_attrib
                 [("xmlns", ssml.namespace); ("version", "1.0")])) as SA.
  remember (concat EmptyString
              (map ssml.write_attrib
                 [("rate", "124%"); ("volume", "x-loud"); ("pitch", "+12st")]))
    as W.
  remember (concat EmptyString
              (map ssml.write_attrib [("level", "strong")])) as EA.
  rewrite tostring_eq, <- HeqSA. cbn [map andb].
  rewrite concat_cons_nosep, tostring_eq, <- HeqW. cbn [app map andb].
  rewrite concat_cons_nosep, tostring_eq, <- HeqEA.
  cbn [andb PyStr.is_empty map concat].
  remember (ssml.escape_cdata (String c t)) as T eqn:HT. clear HT.
  remember (ssml.tostring
              (ssml.Elem "break" [("strength", "medium")] None [])) as B.
  repeat rewrite ?append_assoc, ?append_nil_right.
  subst SA W EA B. vm_compute. reflexivity.
Qed.

Lemma positive_full_intensity_markup :
  ssml.build "Great news!" full_positive service.positive_profile 231 f1 (Some 82)
  = Ok (ssml.tostring
          (ssml.Elem "speak"
             [("xmlns", ssml.namespace); ("version", "1.0")] None
             [ssml.Elem "prosody"
                [("rate", "124%"); ("volume", "x-loud"); ("pitch", "+12st")]
                None
                [ssml.Elem "emphasis" [("level", "strong")]
                   (Some "Great news!") [];
                 ssml.Elem "break" [("strength", "medium")] None []]])).
Proof. vm_compute. reflexivity. Qed.

(** The whole pipeline on one text: one request, the same parameters for
    the audio job and for the markup. *)
Example speak_to_file_positive :
  let '(engine', sent, outcome) :=
    engine.speak_to_file (sample.answering sample.positive_answer)
      sample.good_driver sample.default_empathy_engine
      "I am so  very happy!!" None in
  sent = ["I am so very happy!!"]
  /\ exists response,
      outcome = Ok response
      /\ engine.audio_path response = "outputs/empathy_positive.wav"
      /\ engine.emotion response = full_positive
      /\ (engine.applied_rate response, engine.applied_volume response,
          engine.applied_pitch response) = (231, f1, Some 82)
      /\ map (fun j => (speech.job_rate j, speech.job_volume j,
                        speech.job_pitch j))
           (speech.jobs (speech._engine (engine._synthesizer engine')))
         = [(231, f1, Some 82)]
      /\ engine.ssml response
         = ssml.tostring
             (ssml.Elem "speak"
                [("xmlns", ssml.namespace); ("version", "1.0")] None
                [ssml.Elem "prosody"
                   [("rate", "124%"); ("volume", "x-loud"); ("pitch", "+12st")]
                   None
                   [ssml.Elem "emphasis" [("level", "strong")]
                      (Some "I am so  very happy!!") [];
                    ssml.Elem "break" [("strength", "medium")] None []]]).
Proof.
  vm_compute. split; [reflexivity|]. eexists. repeat split; reflexivity.
Qed.

(* ================================================================= *)
(** * C8: pauses *)

Section Pauses.
Import PyStr.

(** The pause elements of the tree (lines 82-85). *)
Lemma pauses_in_tree (text : string) (emo : emotion.EmotionResult)
    (profile : config.VoiceProfile) (applied_rate : Z) (applied_volume : float)
    (applied_pitch : option Z) (root : ssml.Element) :
  ssml.build_root text emo profile applied_rate applied_volume applied_pitch
  = Ok root ->
  (In pause_250ms (pauses root) <-> emotion.label emo = emotion.negative)
  /\ (In pause_medium (pauses root) <->
      emotion.label emo = emotion.positive
      /\ fge (emotion.intensity emo) ssml.c0_5 = true)
  /\ (emotion.label emo <> emotion.negative ->
      ~ (emotion.label emo = emotion.positive
         /\ fge (emotion.intensity emo) ssml.c0_5 = true) ->
      pauses root = []).
Proof.
  unfold ssml.build_root.
  destruct (ssml.prosody_attrs _ _ _ _) as [attrs|]; [|cbn [bind]; discriminate].
  cbn [bind]. unfold ssml.emphasis_part, ssml.break_part.
  destruct emo as [l i]. cbn [emotion.label emotion.intensity].
  destruct (fge i ssml.c0_65); [|destruct (fge i ssml.c0_35)];
    destruct l; try destruct (fge i ssml.c0_5) eqn:E5;
    intros [= <-]; unfold pauses, pause_250ms, pause_medium; cbn;
    repeat split; intros; try discriminate; try contradiction; try tauto;
    try (intuition discriminate); auto.
Qed.

(** The document is a head in which no break element starts, the pause
    elements as they are written, and the closing tags. *)
Lemma document_shape (text : string) (emo : emotion.EmotionResult)
    (profile : config.VoiceProfile) (applied_rate : Z) (applied_volume : float)
    (applied_pitch : option Z) (doc : string) :
  ssml.build text emo profile applied_rate applied_volume applied_pitch
  = Ok doc ->
  exists head tail,
    doc = head
          ++ concat EmptyString (map ssml.tostring (ssml.break_part emo))
          ++ tail
    /\ no_break_start head = true
    /\ (tail = "</prosody></speak>"
        \/ (ssml.break_part emo = [] /\ tail = "</speak>")).
Proof.
  unfold ssml.build, ssml.build_root.
  destruct (ssml.prosody_attrs _ _ _ _) as [attrs|] eqn:Ha;
    [|cbn [bind]; discriminate].
  cbn [bind]. unfold ssml.emphasis_part.
  pose proof (prosody_attrs_no_lt _ _ _ _ _ Ha) as HW.
  pose proof (written_text_markup_free text "<" (or_introl eq_refl)) as HT.
  unfold written_text in HT.
  remember (ssml.break_part emo) as brk eqn:Hbrk.
  remember (concat EmptyString (map ssml.write_attrib attrs)) as W.
  remember (concat EmptyString (map ssml.tostring brk)) as B.
  remember (html_escape (strip text)) as t.
  remember (ssml.escape_cdata t) as T.
  assert (HS : no_break_start
                 ("<speak"
                  ++ concat EmptyString
                       (map ssml.write_attrib
                          [("xmlns", ssml.namespace); ("version", "1.0")])
                  ++ "><prosody") = true) by (vm_compute; reflexivity).
  remember (concat EmptyString
              (map ssml.write_attrib
                 [("xmlns", ssml.namespace); ("version", "1.0")])) as SA.
  apply no_lt_no_break_start in HW, HT.
  assert (E : forall level,
             In level ["strong"; "moderate"] ->
             exists head,
               no_break_start head = true
               /\ ssml.tostring
                    (ssml.Elem "speak"
                       [("xmlns", ssml.namespace); ("version", "1.0")] None
                       [ssml.Elem "prosody" attrs None
                          (app [ssml.Elem "emphasis" [("level", level)]
                                  (Some t) []] brk)])
                  = head ++ B ++ "</prosody></speak>").
  { intros level Hl.
    assert (HE : no_break_start
                   ("><emphasis"
                    ++ concat EmptyString
                         (map ssml.write_attrib [("level", level)])) = true)
      by (destruct Hl as [<-|[<-|[]]]; vm_compute; reflexivity).
    remember (concat EmptyString
                (map ssml.write_attrib [("level", level)])) as EA.
    destruct (is_empty t) eqn:Et.
    - exists (("<speak" ++ SA ++ "><prosody") ++ W ++ ("><emphasis" ++ EA)
              ++ " />").
      split.
      + apply no_break_start_app; [exact HS|].
        apply no_break_start_app; [exact HW|].
        apply no_break_start_app; [exact HE|reflexivity].
      + rewrite tostring_eq, <- HeqSA. cbn [map andb].
        rewrite concat_cons_nosep, tostring_eq, <- HeqW. cbn [app map andb].
        rewrite concat_cons_nosep, tostring_eq, <- HeqEA, <- HeqB, Et.
        cbn [andb map concat].
        repeat rewrite ?append_assoc, ?append_nil_right. reflexivity.
    - exists (("<speak" ++ SA ++ "><prosody") ++ W ++ ("><emphasis" ++ EA)
              ++ ">" ++ T ++ "</emphasis>").
      split.
      + apply no_break_start_app; [exact HS|].
        apply no_break_start_app; [exact HW|].
        apply no_break_start_app; [exact HE|].
        apply (no_break_start_app ">"); [reflexivity|].
        apply no_break_start_app; [exact HT|reflexivity].
      + rewrite tostring_eq, <- HeqSA. cbn [map andb].
        rewrite concat_cons_nosep, tostring_eq, <- HeqW. cbn [app map andb].
        rewrite concat_cons_nosep, tostring_eq, <- HeqEA, <- HeqB, Et,
          <- HeqT.
        cbn [andb map concat].
        repeat rewrite ?append_assoc, ?append_nil_right. reflexivity. }
  destruct (fge (emotion.intensity emo) ssml.c0_65);
    [|destruct (fge (emotion.intensity emo) ssml.c0_35)].
  - cbn [bind]. intros H. apply Ok_inj in H. subst doc.
    destruct (E "strong") as (head & Hh & ->); [cbn; auto|].
    exists head, "</prosody></speak>". auto.
  - cbn [bind]. intros H. apply Ok_inj in H. subst doc.
    destruct (E "moderate") as (head & Hh & ->); [cbn; auto|].
    exists head, "</prosody></speak>". auto.
  - cbn [bind]. intros H. apply Ok_inj in H. subst doc. cbn [app].
    rewrite tostring_eq, <- HeqSA. cbn [map andb].
    rewrite concat_cons_nosep, tostring_eq, <- HeqW, <- HeqB, <- HeqT.
    destruct (is_empty t) eqn:Et; [destruct brk as [|pause rest]|].
    + exists (("<speak" ++ SA ++ "><prosody") ++ W ++ " />"), "</speak>".
      split; [|split; [|right; split; reflexivity]].
      * subst B. cbn [andb map concat].
        repeat rewrite ?append_assoc, ?append_nil_right. reflexivity.
      * apply no_break_start_app; [exact HS|].
        apply no_break_start_app; [exact HW|reflexivity].
    + exists (("<speak" ++ SA ++ "><prosody") ++ W ++ ">" ++ T),
             "</prosody></speak>".
      split; [|split; [|left; reflexivity]].
      * cbn [andb map concat].
        repeat rewrite ?append_assoc, ?append_nil_right. reflexivity.
      * apply no_break_start_app; [exact HS|].
        apply no_break_start_app; [exact HW|].
        apply (no_break_start_app ">"); [reflexivity|exact HT].
    + exists (("<speak" ++ SA ++ "><prosody") ++ W ++ ">" ++ T),
             "</prosody></speak>".
      split; [|split; [|left; reflexivity]].
      * cbn [andb map concat].
        repeat rewrite ?append_assoc, ?append_nil_right. reflexivity.
      * apply no_break_start_app; [exact HS|].
        apply no_break_start_app; [exact HW|].
        apply (no_break_start_app ">"); [reflexivity|exact HT].
Qed.

End Pauses.

(** C8.  The document [build] returns holds the 250ms pause element
    exactly when the label is negative, whatever the intensity; the
    medium-strength pause element exactly when the label is positive and
    the intensity is at least 0.5; and no pause element at all
    otherwise. *)
Theorem C8_pause_by_label (text : string) (emo : emotion.EmotionResult)
    (profile : config.VoiceProfile) (applied_rate : Z) (applied_volume : float)
    (applied_pitch : option Z) (doc : string) :
  ssml.build text emo profile applied_rate applied_volume applied_pitch
  = Ok doc ->
  (occurs written_pause_250ms doc = true
   <-> emotion.label emo = emotion.negative)
  /\ (occurs written_pause_medium doc = true
      <-> emotion.label emo = emotion.positive
          /\ fge (emotion.intensity emo) ssml.c0_5 = true)
  /\ (emotion.label emo <> emotion.negative ->
      ~ (emotion.label emo = emotion.positive
         /\ fge (emotion.intensity emo) ssml.c0_5 = true) ->
      occurs "<break" doc = false).
Proof.
  intros Hd.
  destruct (document_shape _ _ _ _ _ _ _ Hd) as (head & tail & -> & Hh & Ht).
  change written_pause_250ms
    with (String "<" (String "b" ("reak time=" ++ quoted "250ms" ++ " />"))).
  change written_pause_medium
    with (String "<" (String "b"
            ("reak strength=" ++ quoted "medium" ++ " />"))).
  change "<break" with (String "<" (String "b" "reak")).
  rewrite !(occurs_skip _ head _ Hh).
  revert Ht. unfold ssml.break_part.
  destruct emo as [l i]. cbn [emotion.label emotion.intensity].
  destruct l; [destruct (fge i ssml.c0_5)| |];
    intros [->|[Hn ->]]; try discriminate Hn;
    repeat match goal with
           | |- context [occurs ?w ?s] =>
               let v := eval vm_compute in (occurs w s) in
               change (occurs w s) with v
           end;
    repeat split; intros; try discriminate; try reflexivity;
    try tauto; try (intuition congruence).
Qed.

Lemma C8_pause_by_label_witness :
  exists doc,
    ssml.build " Sorry " sample.sorry_emotion service.negative_profile 160
      service.c0_8 (Some 58) = Ok doc
    /\ (occurs written_pause_250ms doc = true
        <-> emotion.label sample.sorry_emotion = emotion.negative)
    /\ (occurs written_pause_medium doc = true
        <-> emotion.label sample.sorry_emotion = emotion.positive
            /\ fge (emotion.intensity sample.sorry_emotion) ssml.c0_5 = true)
    /\ (emotion.label sample.sorry_emotion <> emotion.negative ->
        ~ (emotion.label sample.sorry_emotion = emotion.positive
           /\ fge (emotion.intensity sample.sorry_emotion) ssml.c0_5 = true) ->
        occurs "<break" doc = false).
Proof.
  assert (H : ssml.build " Sorry " sample.sorry_emotion
                service.negative_profile 160 service.c0_8 (Some 58)
              = Ok (ssml.tostring sample.sorry_root))
    by (vm_compute; reflexivity).
  exists (ssml.tostring sample.sorry_root). split; [exact H|].
  exact (C8_pause_by_label " Sorry " sample.sorry_emotion
           service.negative_profile 160 service.c0_8 (Some 58) _ H).
Defined.

(* ================================================================= *)
(** * C9: the state of the engine after a call *)

Lemma synthesize_restores_on_success (drv : speech.Driver)
    (self : speech.SpeechSynthesizer) (text : string) (rate : option Z)
    (volume : option float) (pitch : option Z) (destination : string)
    (self' : speech.SpeechSynthesizer) (d : string) :
  speech.synthesize drv self text rate volume pitch destination = (self', Ok d) ->
  speech.rate (speech._engine self') = speech._default_rate self
  /\ speech.volume (speech._engine self') = speech._default_volume self.
Proof.
  unfold speech.synthesize.
  destruct (speech.render _ _ _ _) as [e4|exc]; [|discriminate].
  intros [= <- _]. split; reflexivity.
Qed.

(** When rendering raises, the rate set for the call stays on the engine. *)
Lemma synthesize_failure_keeps_rate (drv : speech.Driver)
    (self : speech.SpeechSynthesizer) (text : string) (r : Z)
    (volume : option float) (pitch : option Z) (destination : string) :
  speech.render_fails drv text destination = true ->
  let '(self', outcome) :=
    speech.synthesize drv self text (Some r) volume pitch destination in
  outcome = Raise DriverError /\ speech.rate (speech._engine self') = r.
Proof.
  intros H. unfold speech.synthesize, speech.render. rewrite H.
  split; [reflexivity|]. cbn [speech.with_engine speech._engine].
  destruct volume, pitch; unfold speech.try_set_pitch;
    try destruct (speech.supports_pitch drv); reflexivity.
Qed.

(** When the driver takes the pitch and rendering succeeds, the pitch set
    for the call stays on the engine. *)
Lemma synthesize_keeps_pitch (drv : speech.Driver)
    (self : speech.SpeechSynthesizer) (text : string) (rate : option Z)
    (volume : option float) (p : Z) (destination : string) :
  speech.supports_pitch drv = true ->
  speech.render_fails drv text destination = false ->
  let '(self', outcome) :=
    speech.synthesize drv self text rate volume (Some p) destination in
  outcome = Ok destination /\ speech.pitch (speech._engine self') = Some p.
Proof.
  intros Hp Hr. unfold speech.synthesize, speech.render, speech.try_set_pitch.
  rewrite Hp, Hr. split; reflexivity.
Qed.

(** C9, at the inputs where the code departs from it.  When rendering
    raises, the rate and volume set for the call stay on the engine; when
    rendering succeeds, the pitch set for the call is never put back, and
    the next call, made without a pitch, is rendered with it. *)
Theorem C9_overrides_survive :
  let s0 := speech.init sample.default_engine in
  let failed :=
    speech.synthesize sample.failing_driver s0 "hello" (Some 231)
      (Some service.c0_8) None "out.wav" in
  let done :=
    speech.synthesize sample.good_driver s0 "hello" (Some 231) (Some f1)
      (Some 82) "out.wav" in
  let next :=
    speech.synthesize sample.good_driver (fst done) "again" (Some 160)
      (Some f1) None "next.wav" in
  (snd failed = Raise DriverError
   /\ speech.rate (speech._engine s0) = 200
   /\ speech.rate (speech._engine (fst failed)) = 231
   /\ speech.volume (speech._engine s0) = f1
   /\ speech.volume (speech._engine (fst failed)) = service.c0_8)
  /\ (snd done = Ok "out.wav"
      /\ speech.pitch (speech._engine s0) = None
      /\ speech.pitch (speech._engine (fst done)) = Some 82)
  /\ (snd next = Ok "next.wav"
      /\ map speech.job_pitch (speech.jobs (speech._engine (fst next)))
         = [Some 82; Some 82]).
Proof.
  repeat split; vm_compute; reflexivity.
Qed.

(* ================================================================= *)
(** * C10: a canonical score of 0.0 *)

Section ZeroScore.

Lemma class_score_zero (m : list (string * float))
    (canonical ordinal : string) (s : float) :
  emotion.dict_get canonical m = Some s ->
  feq s f0 = true ->
  emotion.class_score m canonical ordinal = ordinal_score m ordinal.
Proof.
  intros Hs Hz. unfold emotion.class_score, ordinal_score, truthy.
  rewrite Hs, Hz. reflexivity.
Qed.

End ZeroScore.

(** C10.  When the response is a list of items that all have a label and a
    score, and the score map [m] made of them binds a canonical label
    (positive, neutral or negative) to a score equal to 0.0, the class score
    [detect] goes on with is the one kept under the ordinal label (label_2,
    label_1, label_0 in that order), or 0.0 when there is none: the
    canonical 0.0 is not used. *)
Theorem C10_zero_score_uses_ordinal (env : emotion.Env) (text : string)
    (data : emotion.json) (items : list emotion.json)
    (m : list (string * float)) :
  all_space text = false ->
  emotion.post env (emotion.clean text) = emotion.Response data ->
  emotion.flat_scores data = Ok items ->
  emotion.score_map env items [] = Ok m ->
  exists p n g,
    emotion.class_scores env data = Ok (p, n, g)
    /\ emotion.detect env text
       = ([emotion.clean text],
          let '(l, s) := emotion.select_winner p n g in
          bonus <- emotion.intensity_bonus (emotion.clean text) ;;
          Ok {| emotion.label := l;
                emotion.intensity := py_min f1 (fadd s bonus) |})
    /\ (forall s, emotion.dict_get "positive" m = Some s -> feq s f0 = true ->
        p = ordinal_score m "label_2")
    /\ (forall s, emotion.dict_get "neutral" m = Some s -> feq s f0 = true ->
        n = ordinal_score m "label_1")
    /\ (forall s, emotion.dict_get "negative" m = Some s -> feq s f0 = true ->
        g = ordinal_score m "label_0").
Proof.
  intros Hb Hpost Hitems Hm.
  assert (Hs : emotion.class_scores env data
               = Ok (emotion.class_score m "positive" "label_2",
                     emotion.class_score m "neutral" "label_1",
                     emotion.class_score m "negative" "label_0")).
  { unfold emotion.class_scores.
    destruct data as [| | | |s|l|fields]; try discriminate.
    - destruct s; discriminate.
    - destruct l as [|first rest]; [discriminate|].
      cbn [bind emotion.falsy]. rewrite Hitems. cbn [bind]. rewrite Hm.
      reflexivity. }
  do 3 eexists. split; [exact Hs|]. split.
  - rewrite (detect_nonblank env text Hb), Hpost.
    unfold emotion.classify_payload. rewrite Hs. reflexivity.
  - repeat split; intros s H0 Hz; exact (class_score_zero m _ _ s H0 Hz).
Qed.

Lemma C10_zero_score_uses_ordinal_witness :
  exists p n g,
    emotion.class_scores (sample.answering sample.zero_positive_answer)
      sample.zero_positive_answer = Ok (p, n, g)
    /\ emotion.detect (sample.answering sample.zero_positive_answer) "fine"
       = (["fine"],
          let '(l, s) := emotion.select_winner p n g in
          bonus <- emotion.intensity_bonus "fine" ;;
          Ok {| emotion.label := l;
                emotion.intensity := py_min f1 (fadd s bonus) |})
    /\ p = sample.c0_9.
Proof.
  destruct (C10_zero_score_uses_ordinal
              (sample.answering sample.zero_positive_answer) "fine"
              sample.zero_positive_answer
              [sample.score_item "positive" f0;
               sample.score_item "LABEL_2" sample.c0_9;
               sample.score_item "neutral" sample.c0_07;
               sample.score_item "negative" emotion.c0_03]
              [("negative", emotion.c0_03); ("neutral", sample.c0_07);
               ("label_2", sample.c0_9); ("positive", f0)]
              eq_refl eq_refl eq_refl eq_refl)
    as (p & n & g & Hs & Hd & Hp & _).
  exists p, n, g. split; [exact Hs|]. split; [exact Hd|].
  exact (Hp f0 eq_refl eq_refl).
Defined.

(** The same through [detect]: with a positive score of 0.0 the score of
    LABEL_2 decides, and positive wins with it. *)
Lemma detect_zero_positive_score :
  emotion.detect (sample.answering sample.zero_positive_answer) "fine"
  = (["fine"],
     Ok {| emotion.label := emotion.positive;
           emotion.intensity := sample.c0_9 |}).
Proof. vm_compute. reflexivity. Qed.

(* ================================================================= *)
(** * Further properties of the code *)

Section Words.
Import PyStr.

(** What [split] reads does not depend on the white space at the ends. *)
Lemma split_aux_lstrip (s : string) : split_aux (lstrip s) [] = split_aux s [].
Proof.
  induction s as [|c s IH]; [reflexivity|]. cbn [lstrip].
  destruct (isspace c) eqn:Ec; [|reflexivity].
  cbn [split_aux]. rewrite Ec. exact IH.
Qed.

Lemma split_aux_all_space (s : string) (cur : list ascii) :
  all_space s = true ->
  split_aux s cur
  = match cur with [] => [] | _ => [string_of_list_ascii (rev cur)] end.
Proof.
  destruct s as [|c s]; [reflexivity|]. cbn [all_space split_aux].
  intros H. apply andb_prop in H as [Hc Hs]. rewrite Hc.
  assert (E : split_aux s [] = []).
  { clear Hc. induction s as [|a s IH]; [reflexivity|].
    cbn [all_space] in Hs. apply andb_prop in Hs as [Ha Hs].
    cbn [split_aux]. rewrite Ha. auto. }
  rewrite E. reflexivity.
Qed.

Lemma split_aux_rstrip (s : string) (cur : list ascii) :
  split_aux (rstrip s) cur = split_aux s cur.
Proof.
  revert cur. induction s as [|c s IH]; intros cur; [reflexivity|].
  cbn [rstrip]. destruct (rstrip s) as [|c' r] eqn:E.
  - pose proof (rstrip_empty _ E) as Hs.
    destruct (isspace c) eqn:Ec.
    + rewrite (split_aux_all_space (String c s) cur)
        by (cbn [all_space]; rewrite Ec, Hs; reflexivity).
      reflexivity.
    + cbn [split_aux]. rewrite Ec.
      rewrite (split_aux_all_space s (c :: cur) Hs). reflexivity.
  - cbn [split_aux]. cbn [split_aux] in IH.
    destruct (isspace c); rewrite <- IH; reflexivity.
Qed.

Lemma split_strip (s : string) : split (strip s) = split s.
Proof.
  unfold split, strip. rewrite split_aux_rstrip. apply split_aux_lstrip.
Qed.

(** [" ".join(text.strip().split())] is [" ".join(text.split())]. *)
Lemma clean_eq (s : string) : emotion.clean s = join " " (split s).
Proof. unfold emotion.clean. rewrite split_strip. reflexivity. Qed.

Lemma forallb_reversed {A : Type} (f : A -> bool) (l : list A) :
  forallb f l = true -> forallb f (rev l) = true.
Proof.
  rewrite !forallb_forall. intros H x Hx. apply H, in_rev, Hx.
Qed.

Lemma no_space_chars (cur : list ascii) :
  cur <> [] -> forallb (fun c => negb (isspace c)) cur = true ->
  no_space (string_of_list_ascii (rev cur)) = true.
Proof.
  intros Hc Hf. unfold no_space.
  rewrite list_ascii_of_string_of_list_ascii, (forallb_reversed _ _ Hf),
    andb_true_r.
  destruct (rev cur) as [|a l] eqn:E; [|reflexivity].
  apply (f_equal (@rev ascii)) in E. rewrite rev_involutive in E.
  contradiction.
Qed.

Lemma split_aux_words (s : string) (cur : list ascii) :
  forallb (fun c => negb (isspace c)) cur = true ->
  Forall (fun w => no_space w = true) (split_aux s cur).
Proof.
  revert cur. induction s as [|c s IH]; intros cur Hc; cbn [split_aux].
  - destruct cur as [|a l]; constructor; [|constructor].
    apply no_space_chars; [discriminate|exact Hc].
  - destruct (isspace c) eqn:Ec.
    + destruct cur as [|a l]; [apply IH; reflexivity|]. constructor.
      * apply no_space_chars; [discriminate|exact Hc].
      * apply IH. reflexivity.
    + apply IH. cbn [forallb]. rewrite Ec, Hc. reflexivity.
Qed.

Lemma split_aux_nonempty (s : string) (cur : list ascii) :
  cur <> [] \/ all_space s = false -> split_aux s cur <> [].
Proof.
  revert cur. induction s as [|c s IH]; intros cur H; cbn [split_aux].
  - destruct H as [H|H]; [|discriminate]. destruct cur; [contradiction|].
    discriminate.
  - destruct (isspace c) eqn:Ec.
    + destruct cur as [|a l]; [|discriminate]. apply IH. right.
      destruct H as [H|H]; [contradiction|]. cbn [all_space] in H.
      rewrite Ec in H. exact H.
    + apply IH. left. discriminate.
Qed.

Lemma single_spaced_word (w r : string) (p : bool) :
  no_space w = true -> single_spaced (w ++ r) p = single_spaced r false.
Proof.
  unfold no_space. destruct w as [|c w]; [discriminate|].
  cbn [is_empty negb andb]. revert c p.
  induction w as [|c' w IH]; intros c p H;
    cbn [list_ascii_of_string forallb] in H;
    apply andb_prop in H as [Hc Hw]; apply negb_true_iff in Hc;
    cbn [append single_spaced]; rewrite Hc.
  - reflexivity.
  - apply (IH c' false). exact Hw.
Qed.

Lemma join_single_spaced (ws : list string) :
  ws <> [] -> Forall (fun w => no_space w = true) ws ->
  single_spaced (join " " ws) true = true.
Proof.
  intros Hne H. revert Hne.
  assert (G : forall p, ws <> [] -> single_spaced (join " " ws) p = true).
  { induction H as [|w ws Hw Hws IH]; intros p Hne; [contradiction|].
    cbn [join]. destruct ws as [|w' ws'].
    - rewrite <- (append_nil_right w) at 1.
      rewrite (single_spaced_word w EmptyString p Hw). reflexivity.
    - rewrite (single_spaced_word w _ p Hw). cbn [append single_spaced].
      change (isspace " ") with true. cbv iota.
      apply (IH true). discriminate. }
  apply G.
Qed.

Lemma string_of_app (l : list ascii) (s : string) :
  string_of_list_ascii (l ++ list_ascii_of_string s)
  = string_of_list_ascii l ++ s.
Proof.
  induction l as [|a l IH]; cbn [app string_of_list_ascii append].
  - apply string_of_list_ascii_of_string.
  - rewrite IH. reflexivity.
Qed.

Lemma join_split_aux (s : string) (cur : list ascii) :
  single_spaced s (match cur with [] => true | _ => false end) = true ->
  join " " (split_aux s cur) = string_of_list_ascii (rev cur) ++ s.
Proof.
  revert cur. induction s as [|c s IH]; intros cur H.
  - cbn [single_spaced] in H. destruct cur as [|a l]; [discriminate|].
    cbn [split_aux join]. rewrite append_nil_right. reflexivity.
  - cbn [single_spaced] in H. cbn [split_aux].
    destruct (isspace c) eqn:Ec.
    + apply andb_prop in H as [H Hs]. apply andb_prop in H as [Hc Hp].
      apply Ascii.eqb_eq in Hc. subst c.
      destruct cur as [|a l]; [discriminate|].
      specialize (IH [] Hs). cbn [rev string_of_list_ascii append] in IH.
      assert (Hne : split_aux s [] <> []).
      { apply split_aux_nonempty. right. destruct s as [|c s]; [discriminate|].
        cbn [single_spaced] in Hs. cbn [all_space].
        destruct (isspace c); [|reflexivity].
        rewrite andb_false_r in Hs. discriminate. }
      cbn [join]. destruct (split_aux s []) as [|w ws]; [contradiction|].
      rewrite IH. reflexivity.
    + rewrite (IH (c :: cur) H). cbn [rev].
      rewrite <- (string_of_app (rev cur ++ [c])%list s).
      rewrite <- (string_of_app (rev cur) (String c s)).
      rewrite <- app_assoc. reflexivity.
Qed.

Lemma normalized_fixed (s : string) :
  normalized s = true -> emotion.clean s = s.
Proof.
  intros H. rewrite clean_eq. unfold split.
  rewrite (join_split_aux s [] H). reflexivity.
Qed.

Lemma clean_normalized (s : string) :
  all_space s = false -> normalized (emotion.clean s) = true.
Proof.
  intros H. rewrite clean_eq. apply join_single_spaced.
  - apply split_aux_nonempty. right. exact H.
  - apply split_aux_words. reflexivity.
Qed.

Lemma clean_blank (s : string) :
  all_space s = true -> emotion.clean s = EmptyString.
Proof.
  intros H. rewrite clean_eq. unfold split.
  rewrite (split_aux_all_space s [] H). reflexivity.
Qed.

Lemma clean_idem (s : string) :
  emotion.clean (emotion.clean s) = emotion.clean s.
Proof.
  destruct (all_space s) eqn:E.
  - rewrite (clean_blank s E). reflexivity.
  - apply normalized_fixed, clean_normalized, E.
Qed.

End Words.

(* ================================================================= *)
(** * The text submitted to the classifier *)

Section Submitted.
Import PyStr.

Lemma detect_cases (env : emotion.Env) (text : string) :
  emotion.detect env text
  = if all_space text
    then ([], Ok {| emotion.label := emotion.neutral;
                    emotion.intensity := f0 |})
    else ([emotion.clean text],
          match emotion.post env (emotion.clean text) with
          | emotion.RequestException =>
              Raise (RuntimeError
                       "Failed to classify sentiment via Hugging Face API")
          | emotion.Response data =>
              emotion.classify_payload env (emotion.clean text) data
          end).
Proof.
  destruct (all_space text) eqn:E.
  - unfold emotion.detect. rewrite (strip_all_space _ E). cbn [is_empty].
    rewrite orb_true_r. reflexivity.
  - apply detect_nonblank, E.
Qed.

Lemma clean_empty_iff (s : string) :
  emotion.clean s = EmptyString <-> all_space s = true.
Proof.
  split; [|apply clean_blank].
  intros H. destruct (all_space s) eqn:E; [reflexivity|].
  pose proof (clean_normalized s E) as N. rewrite H in N. discriminate.
Qed.

End Submitted.

(** X1.  Every text that [detect] submits to the classifier is in normal
    form: it is not empty, its only white space is single spaces between
    words, and cleaning it again changes nothing. *)
Theorem detect_submits_normal_form (env : emotion.Env) (text : string) :
  Forall (fun sent => normalized sent = true /\ emotion.clean sent = sent)
    (fst (emotion.detect env text)).
Proof.
  rewrite detect_cases. destruct (all_space text) eqn:E; cbn [fst].
  - constructor.
  - constructor; [|constructor]. split.
    + apply clean_normalized, E.
    + apply clean_idem.
Qed.

Lemma detect_by_words (env : emotion.Env) (text1 text2 : string) :
  PyStr.split text1 = PyStr.split text2 ->
  emotion.detect env text1 = emotion.detect env text2.
Proof.
  intros H.
  assert (Hc : emotion.clean text1 = emotion.clean text2)
    by (rewrite !clean_eq, H; reflexivity).
  rewrite !detect_cases.
  destruct (all_space text1) eqn:E1, (all_space text2) eqn:E2;
    rewrite ?Hc; try reflexivity; exfalso.
  - apply clean_blank in E1. rewrite Hc in E1.
    apply clean_empty_iff in E1. congruence.
  - apply clean_blank in E2. rewrite <- Hc in E2.
    apply clean_empty_iff in E2. congruence.
Qed.

(** X2.  Two texts made of the same words, whatever the white space around
    and between them, get the same result and the same request. *)
Theorem detect_same_words (env : emotion.Env) (text1 text2 : string) :
  PyStr.split text1 = PyStr.split text2 ->
  emotion.detect env text1 = emotion.detect env text2.
Proof. exact (detect_by_words env text1 text2). Qed.

Lemma detect_same_words_witness :
  emotion.detect (sample.answering sample.positive_answer)
    "  so   happy! "
  = emotion.detect (sample.answering sample.positive_answer) "so happy!".
Proof.
  apply detect_same_words. reflexivity.
Defined.

(* ================================================================= *)
(** * The score map *)

Section ScoreMap.

Lemma dict_get_cons {V : Type} (k k' : string) (v : V)
    (d : list (string * V)) :
  emotion.dict_get k ((k', v) :: d)
  = if String.eqb k k' then Some v else emotion.dict_get k d.
Proof. reflexivity. Qed.

Lemma score_map_absent (env : emotion.Env) (items : list emotion.json)
    (acc m : list (string * float)) (k : string) :
  emotion.score_map env items acc = Ok m ->
  (forall item, In item items -> emotion.item_label item <> Ok k) ->
  emotion.dict_get k m = emotion.dict_get k acc.
Proof.
  revert acc. induction items as [|item rest IH]; intros acc;
    cbn [emotion.score_map].
  - intros [= <-] _. reflexivity.
  - destruct (emotion.item_label item) as [k0|] eqn:El; cbn [bind];
      [|discriminate].
    destruct (emotion.item_score env item) as [v0|]; cbn [bind];
      [|discriminate].
    intros Hm Hno. rewrite (IH _ Hm) by (intros; apply Hno; right; auto).
    rewrite dict_get_cons.
    destruct (String.eqb_spec k k0) as [->|]; [|reflexivity].
    exfalso. apply (Hno item); [left; reflexivity|exact El].
Qed.

Lemma score_map_last (env : emotion.Env) (before after : list emotion.json)
    (item : emotion.json) (acc m : list (string * float)) (k : string)
    (v : float) :
  emotion.score_map env (before ++ item :: after) acc = Ok m ->
  emotion.item_label item = Ok k ->
  emotion.item_score env item = Ok v ->
  (forall later, In later after -> emotion.item_label later <> Ok k) ->
  emotion.dict_get k m = Some v.
Proof.
  revert acc. induction before as [|b before IH]; intros acc;
    cbn [app emotion.score_map].
  - intros Hm Hl Hs Hno. rewrite Hl, Hs in Hm. cbn [bind] in Hm.
    rewrite (score_map_absent _ _ _ _ _ Hm Hno), dict_get_cons, String.eqb_refl.
    reflexivity.
  - destruct (emotion.item_label b) as [k0|]; cbn [bind]; [|discriminate].
    destruct (emotion.item_score env b) as [v0|]; cbn [bind]; [|discriminate].
    apply IH.
Qed.

Lemma score_map_returns (env : emotion.Env) (items : list emotion.json)
    (acc : list (string * float)) :
  (exists m, emotion.score_map env items acc = Ok m)
  <-> Forall (fun item =>
                (exists k, emotion.item_label item = Ok k)
                /\ (exists v, emotion.item_score env item = Ok v)) items.
Proof.
  revert acc. induction items as [|item rest IH]; intros acc;
    cbn [emotion.score_map].
  - split; [constructor|]. intros _. eexists. reflexivity.
  - destruct (emotion.item_label item) as [k0|e0] eqn:El; cbn [bind].
    + destruct (emotion.item_score env item) as [v0|e1] eqn:Es; cbn [bind].
      * rewrite IH. split.
        -- intros H. constructor; [|exact H]. split; eexists; eassumption.
        -- intros H. inversion H. assumption.
      * split; [intros [m Hm]; discriminate|]. intros H.
        inversion H as [|? ? [_ [v Hv]] ?]. congruence.
    + split; [intros [m Hm]; discriminate|]. intros H.
      inversion H as [|? ? [[k Hk] _] ?]. congruence.
Qed.

End ScoreMap.

(** X3.  The score map of line 116 is built exactly when every item has a
    label and a score; it then holds, under a lower-cased label, the score
    of the last item that carries this label, and nothing under a label that
    no item carries. *)
Theorem score_map_last_item_wins (env : emotion.Env)
    (items : list emotion.json) :
  ((exists m, emotion.score_map env items [] = Ok m)
   <-> Forall (fun item =>
                 (exists k, emotion.item_label item = Ok k)
                 /\ (exists v, emotion.item_score env item = Ok v)) items)
  /\ (forall m, emotion.score_map env items [] = Ok m ->
      (forall before item after k v,
          items = (before ++ item :: after)%list ->
          emotion.item_label item = Ok k ->
          emotion.item_score env item = Ok v ->
          (forall later, In later after -> emotion.item_label later <> Ok k) ->
          emotion.dict_get k m = Some v)
      /\ (forall k,
             (forall item, In item items -> emotion.item_label item <> Ok k) ->
             emotion.dict_get k m = None)).
Proof.
  split; [apply score_map_returns|].
  intros m Hm. split.
  - intros before item after k v -> Hl Hs Hno.
    exact (score_map_last env before after item [] m k v Hm Hl Hs Hno).
  - intros k Hno. exact (score_map_absent env items [] m k Hm Hno).
Qed.

Lemma score_map_last_item_wins_witness :
  let items := [sample.score_item "Positive" sample.c0_07;
                sample.score_item "neutral" sample.c0_1;
                sample.score_item "POSITIVE" sample.c0_9] in
  exists m,
    emotion.score_map (sample.answering emotion.JNull) items [] = Ok m
    /\ emotion.dict_get "positive" m = Some sample.c0_9
    /\ emotion.dict_get "negative" m = None.
Proof.
  intros items.
  destruct (score_map_last_item_wins (sample.answering emotion.JNull) items)
    as [_ H].
  eexists. split; [reflexivity|].
  destruct (H _ eq_refl) as [Hlast Hnone]. split.
  - apply (Hlast [sample.score_item "Positive" sample.c0_07;
                  sample.score_item "neutral" sample.c0_1]
                 (sample.score_item "POSITIVE" sample.c0_9) []);
      try reflexivity.
    intros later [].
  - apply Hnone. intros item [<-|[<-|[<-|[]]]]; discriminate.
Defined.

(* ================================================================= *)
(** * Letter case and emphasis words *)

Section Emphasis.
Import PyStr.

Lemma lower_char_idem (c : ascii) : lower_char (lower_char c) = lower_char c.
Proof. destruct c as [[] [] [] [] [] [] [] []]; reflexivity. Qed.

Lemma lower_idem (s : string) : lower (lower s) = lower s.
Proof.
  induction s as [|c s IH]; cbn [lower]; [reflexivity|].
  rewrite lower_char_idem, IH. reflexivity.
Qed.

Lemma lower_app (a b : string) : lower (a ++ b) = lower a ++ lower b.
Proof.
  induction a as [|c a IH]; cbn [lower append]; [reflexivity|].
  rewrite IH. reflexivity.
Qed.

(** Lower-casing neither makes nor removes a punctuation mark. *)
Lemma lower_char_mark (c : ascii) :
  (Ascii.eqb "!" (lower_char c) = Ascii.eqb "!" c)
  /\ (Ascii.eqb "?" (lower_char c) = Ascii.eqb "?" c).
Proof. destruct c as [[] [] [] [] [] [] [] []]; split; reflexivity. Qed.

Lemma exclamations_lower (s : string) :
  emotion.exclamations (lower s) = emotion.exclamations s.
Proof.
  unfold emotion.exclamations.
  induction s as [|c s IH]; cbn [lower count_char]; [reflexivity|].
  rewrite (proj1 (lower_char_mark c)), IH. reflexivity.
Qed.

Lemma question_lower (s : string) :
  emotion.question (lower s) = emotion.question s.
Proof.
  unfold emotion.question.
  induction s as [|c s IH]; cbn [lower contains_char]; [reflexivity|].
  rewrite (proj2 (lower_char_mark c)), IH. reflexivity.
Qed.

Lemma prefix_app (w b : string) : String.prefix w (w ++ b) = true.
Proof.
  induction w as [|c w IH]; cbn [append String.prefix].
  - destruct b; reflexivity.
  - destruct (ascii_dec c c); [exact IH|contradiction].
Qed.

Lemma count_occurrence (w a b : string) :
  w <> EmptyString -> 1 <= count w (a ++ w ++ b).
Proof.
  intros Hw. unfold count.
  induction a as [|c a IH]; cbn [append].
  - destruct w as [|c w]; [contradiction|].
    change (String c w ++ b) with (String c (w ++ b)).
    cbn [count_from].
    change (String c (w ++ b)) with (String c w ++ b).
    rewrite prefix_app.
    pose proof (count_from_nonneg (String c w) (w ++ b)
                  (Nat.pred (String.length (String c w)))). lia.
  - cbn [count_from].
    destruct (String.prefix w (String c (a ++ w ++ b))); [|exact IH].
    pose proof (count_from_nonneg w (a ++ w ++ b)
                  (Nat.pred (String.length w))). lia.
Qed.

Lemma fold_count_ge (s w : string) (ws : list string) (acc : Z) :
  0 <= acc -> In w ws ->
  count w s <= fold_left (fun a x => a + count x s) ws acc.
Proof.
  revert acc. induction ws as [|x ws IH]; intros acc Ha Hin; [contradiction|].
  cbn [fold_left]. pose proof (count_nonneg x s) as Hx.
  destruct Hin as [->|Hin].
  - assert (G : forall l a, count w s <= a ->
                count w s <= fold_left (fun a x => a + count x s) l a).
    { induction l as [|y l IHl]; intros a H; cbn [fold_left]; [exact H|].
      apply IHl. pose proof (count_nonneg y s). lia. }
    apply G. lia.
  - apply IH; [lia|exact Hin].
Qed.

End Emphasis.

(** X4.  The intensity bonus reads the text without regard to letter case:
    two texts that agree once lower-cased get the same bonus. *)
Theorem intensity_bonus_ignores_case (s1 s2 : string) :
  PyStr.lower s1 = PyStr.lower s2 ->
  emotion.intensity_bonus s1 = emotion.intensity_bonus s2.
Proof.
  intros H. unfold emotion.intensity_bonus, emotion.emphasis_terms.
  rewrite <- (exclamations_lower s1), <- (exclamations_lower s2).
  rewrite <- (question_lower s1), <- (question_lower s2), H.
  reflexivity.
Qed.

Lemma intensity_bonus_ignores_case_witness :
  emotion.intensity_bonus "I am VERY Happy!"
  = emotion.intensity_bonus "i am very happy!".
Proof. apply intensity_bonus_ignores_case. reflexivity. Defined.

(** X5.  An emphasis word is counted wherever its letters occur, in any
    letter case and also inside a longer word: a text that contains one
    has at least one emphasis term. *)
Theorem emphasis_terms_counts_substrings (before word after : string) :
  In (PyStr.lower word) emotion.EMPHASIS_WORDS ->
  1 <= emotion.emphasis_terms (before ++ word ++ after).
Proof.
  intros Hin. unfold emotion.emphasis_terms.
  rewrite !lower_app.
  pose proof (fold_count_ge (PyStr.lower before ++ PyStr.lower word
                             ++ PyStr.lower after)
                (PyStr.lower word) emotion.EMPHASIS_WORDS 0
                ltac:(lia) Hin) as H.
  assert (Hw : PyStr.lower word <> EmptyString).
  { intros E. rewrite E in Hin.
    repeat (destruct Hin as [Hin|Hin]; [discriminate|]). exact Hin. }
  pose proof (count_occurrence (PyStr.lower word) (PyStr.lower before)
                (PyStr.lower after) Hw).
  lia.
Qed.

Lemma emphasis_terms_counts_substrings_witness :
  1 <= emotion.emphasis_terms ("al" ++ "SO" ++ " true").
Proof.
  apply emphasis_terms_counts_substrings. cbn. auto.
Defined.

(* ================================================================= *)
(** * The bonus and the intensity *)

Section Bonus.
Import PyStr.

Lemma valid_fadd (x y : float) :
  valid x = true -> valid y = true -> valid (fadd x y) = true.
Proof.
  intros Vx Vy.
  destruct x as [sx|sx| |sx mx ex] eqn:Ex, y as [sy|sy| |sy my ey] eqn:Ey;
    try reflexivity; try assumption;
    try (destruct sx, sy; reflexivity).
  apply (fadd_spec (S754_finite sx mx ex) (S754_finite sy my ey));
    try reflexivity; split; auto.
Qed.

Lemma valid_fmul (x y : float) :
  valid x = true -> valid y = true -> valid (fmul x y) = true.
Proof.
  intros Vx Vy.
  destruct x as [sx|sx| |sx mx ex] eqn:Ex, y as [sy|sy| |sy my ey] eqn:Ey;
    try reflexivity.
  apply (fmul_spec (S754_finite sx mx ex) (S754_finite sy my ey));
    try reflexivity; split; auto.
Qed.

Lemma valid_py_min (a b : float) :
  valid a = true -> valid b = true -> valid (py_min a b) = true.
Proof. intros Va Vb. unfold py_min. destruct (flt b a); assumption. Qed.

Lemma py_min_mono (c a b : float) :
  is_nan c = false -> fle a b = true ->
  fle (py_min c a) (py_min c b) = true.
Proof.
  intros Hc Hab. destruct (fle_not_nan _ _ Hab) as [Ha Hb].
  unfold py_min. destruct (flt a c) eqn:Ea, (flt b c) eqn:Eb.
  - exact Hab.
  - apply flt_fle, Ea.
  - apply (fle_trans _ a); [|exact Hab]. apply not_flt_fle; auto.
  - apply fle_refl, Hc.
Qed.

Lemma bounded_finite (x lo hi : float) :
  wf x -> wf lo -> wf hi -> is_finite lo = true -> is_finite hi = true ->
  fle lo x = true -> fle x hi = true -> is_finite x = true.
Proof.
  intros Wx Wl Wh Fl Fh Hl Hh.
  apply (between_finite x lo hi); auto. left.
  split; [apply (fle_Fval lo x)|apply (fle_Fval x hi)]; auto.
Qed.

Lemma bonus_facts (cleaned : string) (b : float) :
  emotion.intensity_bonus cleaned = Ok b ->
  wf b /\ is_finite b = true /\ nonneg b /\ fle b emotion.c0_3 = true.
Proof.
  intros H. pose proof (intensity_bonus_nonneg cleaned b H) as Hn.
  revert H. unfold emotion.intensity_bonus. bind_ok.
  match goal with
  | He : of_int (emotion.exclamations _) = Ok ?e,
    Ht : of_int (emotion.emphasis_terms _) = Ok ?t |- _ =>
      destruct (of_int_spec _ _ He) as ([Ve _] & _);
      destruct (of_int_spec _ _ Ht) as ([Vt _] & _)
  end.
  intros H.
  match type of H with
  | Ok ?v = Ok _ => assert (Hb : b = v) by congruence
  end.
  assert (Vb : valid b = true).
  { rewrite Hb. apply valid_py_min; [reflexivity|].
    apply valid_fadd; [apply valid_fadd; apply valid_fmul; auto; reflexivity|].
    destruct (emotion.question cleaned); reflexivity. }
  assert (Wb : wf b) by (split; [exact Vb|apply (fle_not_nan _ _ Hn)]).
  assert (Hle : fle b emotion.c0_3 = true)
    by (rewrite Hb; apply py_min_le_l; reflexivity).
  repeat split; auto; try apply Wb.
  apply (bounded_finite b f0 emotion.c0_3); auto; try reflexivity;
    split; reflexivity.
Qed.

Lemma count_char_le (c : ascii) (s : string) :
  count_char c s <= Z.of_nat (String.length s).
Proof.
  induction s as [|c' s IH]; cbn [count_char String.length]; [lia|].
  destruct (Ascii.eqb c c'); lia.
Qed.

Lemma count_from_le (w s : string) (k : nat) :
  count_from w s k <= Z.of_nat (String.length s).
Proof.
  revert k. induction s as [|c s IH]; intros k; cbn [count_from String.length];
    [lia|].
  destruct k as [|k]; [|specialize (IH k); lia].
  destruct (String.prefix w (String c s)).
  - specialize (IH (Nat.pred (String.length w))). lia.
  - specialize (IH O). lia.
Qed.

Lemma lower_length (s : string) : String.length (lower s) = String.length s.
Proof. induction s as [|c s IH]; cbn [lower String.length]; congruence. Qed.

Lemma emphasis_terms_le (s : string) :
  emotion.emphasis_terms s <= 5 * Z.of_nat (String.length s).
Proof.
  unfold emotion.emphasis_terms, emotion.EMPHASIS_WORDS. cbn [fold_left].
  unfold count.
  pose proof (fun w => count_from_le w (lower s) O) as H.
  rewrite lower_length in H.
  pose proof (H "really"). pose proof (H "very"). pose proof (H "so").
  pose proof (H "extremely"). pose proof (H "incredibly"). lia.
Qed.

Lemma of_int_small (n : Z) :
  Z.abs n <= 2 ^ 53 -> exists f, of_int n = Ok f.
Proof.
  intros H. destruct (of_Z_spec n) as [W _].
  pose proof (of_Z_exact n H) as V.
  assert (F : is_finite (of_Z n) = true).
  { apply Fval_finite; [exact W|]. rewrite V.
    assert (2 ^ 53 * 2 ^ bias < top).
    { unfold top. rewrite <- (pow2_split 53 bias) by (unfold bias; lia).
      apply Z.pow_lt_mono_r; unfold bias; lia. }
    pose proof bias_pos. nia. }
  unfold of_int. destruct (of_Z n); try discriminate; eexists; reflexivity.
Qed.

Lemma intensity_bonus_returns (cleaned : string) :
  Z.of_nat (String.length cleaned) <= 2 ^ 50 ->
  exists b, emotion.intensity_bonus cleaned = Ok b.
Proof.
  intros Hlen. unfold emotion.intensity_bonus.
  pose proof (count_char_le "!" cleaned) as H1.
  pose proof (count_char_nonneg "!" cleaned) as H2.
  pose proof (emphasis_terms_le cleaned) as H3.
  pose proof (emphasis_terms_nonneg cleaned) as H4.
  assert (P : 2 ^ 53 = 8 * 2 ^ 50) by reflexivity.
  destruct (of_int_small (emotion.exclamations cleaned)) as [e He];
    [unfold emotion.exclamations; lia|].
  destruct (of_int_small (emotion.emphasis_terms cleaned)) as [t Ht]; [lia|].
  rewrite He, Ht. cbn [bind]. eexists. reflexivity.
Qed.

End Bonus.

(** X6.  The intensity bonus of lines 139-142 is computed for every text of
    at most 2^50 characters, and it always lies between 0 and 0.3. *)
Theorem intensity_bonus_bounds (cleaned : string) :
  (Z.of_nat (String.length cleaned) <= 2 ^ 50 ->
   exists b, emotion.intensity_bonus cleaned = Ok b)
  /\ (forall b, emotion.intensity_bonus cleaned = Ok b ->
      fle f0 b = true /\ fle b emotion.c0_3 = true).
Proof.
  split; [apply intensity_bonus_returns|].
  intros b Hb. destruct (bonus_facts cleaned b Hb) as (_ & _ & Hn & Hle).
  split; assumption.
Qed.

Lemma intensity_bonus_bounds_witness :
  (exists b, emotion.intensity_bonus "so very happy!!!!!" = Ok b)
  /\ fle f0 emotion.c0_3 = true /\ fle emotion.c0_3 emotion.c0_3 = true.
Proof.
  destruct (intensity_bonus_bounds "so very happy!!!!!") as [R B].
  split; [apply R; vm_compute; discriminate|].
  apply B. vm_compute. reflexivity.
Defined.

(** X7.  Punctuation and emphasis words never lower the intensity and
    raise it by at most 0.3: for a finite primary score [s] the intensity
    lies between [min(1.0, s)] and [min(1.0, s + 0.3)]. *)
Theorem intensity_near_primary (env : emotion.Env) (cleaned : string)
    (data : emotion.json) (p n g : float) (r : emotion.EmotionResult) :
  emotion.class_scores env data = Ok (p, n, g) ->
  emotion.classify_payload env cleaned data = Ok r ->
  let s := snd (emotion.select_winner p n g) in
  wf s -> is_finite s = true ->
  fle (py_min f1 s) (emotion.intensity r) = true
  /\ fle (emotion.intensity r) (py_min f1 (fadd s emotion.c0_3)) = true.
Proof.
  intros Hs Hr s Ws Fs.
  destruct (emotion.intensity_bonus cleaned) as [b|e] eqn:Eb.
  - rewrite (classify_payload_winner env cleaned data p n g b Hs Eb) in Hr.
    injection Hr as <-. cbn [emotion.intensity]. fold s.
    destruct (bonus_facts cleaned b Eb) as (Wb & Fb & Hn & Hle).
    assert (W3 : wf emotion.c0_3) by (split; reflexivity).
    destruct (fadd_spec s b Ws Wb Fs Fb) as [W1 V1].
    destruct (fadd_spec s emotion.c0_3 Ws W3 Fs eq_refl) as [W2 V2].
    apply (fle_Fval f0 b wf_f0 Wb) in Hn. change (Fval f0) with 0 in Hn.
    apply (fle_Fval b emotion.c0_3 Wb W3) in Hle.
    split; apply py_min_mono; try reflexivity.
    + apply (fle_Fval s (fadd s b) Ws W1).
      rewrite V1, <- (clamp_srnd_Fval s Ws Fs) at 1.
      apply clamp_srnd_mono. lia.
    + apply (fle_Fval (fadd s b) (fadd s emotion.c0_3) W1 W2).
      rewrite V1, V2. apply clamp_srnd_mono. lia.
  - unfold emotion.classify_payload in Hr. rewrite Hs in Hr. cbn [bind] in Hr.
    destruct (emotion.select_winner p n g). rewrite Eb in Hr. discriminate.
Qed.

Lemma intensity_near_primary_witness :
  let r := {| emotion.label := emotion.positive;
              emotion.intensity := f1 |} in
  fle (py_min f1 sample.c0_9) (emotion.intensity r) = true
  /\ fle (emotion.intensity r) (py_min f1 (fadd sample.c0_9 emotion.c0_3))
     = true.
Proof.
  intros r.
  apply (intensity_near_primary (sample.answering sample.positive_answer)
           "so very happy!" sample.positive_answer
           sample.c0_9 sample.c0_07 emotion.c0_03 r);
    try reflexivity.
  split; reflexivity.
Defined.

(* ================================================================= *)
(** * The lookup of a voice profile *)

Section Lookup.

Lemma dict_get_In {V : Type} (k : string) (d : list (string * V)) (v : V) :
  emotion.dict_get k d = Some v -> In (k, v) d.
Proof.
  induction d as [|[k' v'] d IH]; cbn [emotion.dict_get]; [discriminate|].
  destruct (String.eqb_spec k k') as [->|].
  - intros [= ->]. left. reflexivity.
  - intros H. right. auto.
Qed.

Lemma dict_get_none {V : Type} (k : string) (d : list (string * V)) :
  emotion.dict_get k d = None <-> (forall v, ~ In (k, v) d).
Proof.
  induction d as [|[k' v'] d IH]; cbn [emotion.dict_get].
  - split; [intros _ v []|reflexivity].
  - destruct (String.eqb_spec k k') as [->|Hne].
    + split; [discriminate|]. intros H. exfalso. apply (H v'). left.
      reflexivity.
    + rewrite IH. split; intros H v.
      * intros [[= E _]|Hin]; [congruence|]. exact (H v Hin).
      * intros Hin. apply (H v). right. exact Hin.
Qed.

End Lookup.

(** X8.  [EmotionMapping.get] lower-cases the label it is asked for and
    not the keys of the table: the letter case of the argument does not
    matter, a profile is only ever found under a key that is already in
    lower case, and [KeyError] is raised exactly when the lower-cased label
    is not a key. *)
Theorem get_normalizes_argument (self : config.EmotionMapping)
    (emotion : string) :
  config.get self (PyStr.lower emotion) = config.get self emotion
  /\ (forall p, config.get self emotion = Ok p ->
      exists key, In (key, p) (config.profiles self)
                  /\ key = PyStr.lower emotion /\ PyStr.lower key = key)
  /\ (config.get self emotion = Raise KeyError
      <-> forall p, ~ In (PyStr.lower emotion, p) (config.profiles self)).
Proof.
  unfold config.get. rewrite lower_idem. split; [reflexivity|]. split.
  - intros p.
    destruct (emotion.dict_get (PyStr.lower emotion) (config.profiles self))
      as [q|] eqn:E; [|discriminate].
    intros [= <-]. exists (PyStr.lower emotion).
    split; [apply dict_get_In, E|]. split; [reflexivity|apply lower_idem].
  - rewrite <- dict_get_none.
    destruct (emotion.dict_get (PyStr.lower emotion) (config.profiles self));
      split; intros; try discriminate; reflexivity.
Qed.

(** In particular a profile stored under a key with a capital letter is
    never returned. *)
Example get_misses_capital_key :
  config.get {| config.profiles := [("Positive", service.positive_profile)] |}
    "Positive"
  = Raise KeyError.
Proof. reflexivity. Qed.

(* ================================================================= *)
(** * The SSML document *)

(** X9.  The document carries the escaped, stripped text exactly once: in
    a strong emphasis element when the intensity is at least 0.65, in a
    moderate one when it is at least 0.35 and below 0.65, and directly in
    the prosody element, with no emphasis element, otherwise. *)
Theorem emphasis_by_intensity (text : string) (emo : emotion.EmotionResult)
    (profile : config.VoiceProfile) (applied_rate : Z) (applied_volume : float)
    (applied_pitch : option Z) (root : ssml.Element) :
  ssml.build_root text emo profile applied_rate applied_volume applied_pitch
  = Ok root ->
  let safe_text := PyStr.html_escape (PyStr.strip text) in
  let i := emotion.intensity emo in
  texts root = [safe_text]
  /\ emphases root
     = (if fge i ssml.c0_65 then [emphasis_at "strong" safe_text]
        else if fge i ssml.c0_35 then [emphasis_at "moderate" safe_text]
        else [])
  /\ (fge i ssml.c0_35 = false ->
      exists attrs children,
        ssml.children_of root
        = [ssml.Elem "prosody" attrs (Some safe_text) children]).
Proof.
  unfold ssml.build_root.
  destruct (ssml.prosody_attrs _ _ _ _) as [attrs|];
    [|cbn [bind]; discriminate].
  cbn [bind]. unfold ssml.emphasis_part, ssml.break_part.
  destruct emo as [l i]. cbn [emotion.label emotion.intensity].
  assert (T : fge i ssml.c0_65 = true -> fge i ssml.c0_35 = true).
  { unfold fge. intros H.
    exact (fle_trans ssml.c0_35 ssml.c0_65 i eq_refl H). }
  destruct (fge i ssml.c0_65) eqn:E65;
    [rewrite (T eq_refl)|destruct (fge i ssml.c0_35) eqn:E35];
    destruct l; try destruct (fge i ssml.c0_5);
    intros [= <-]; cbn; repeat split; try discriminate;
    intros _; eexists; eexists; reflexivity.
Qed.

Lemma emphasis_by_intensity_witness :
  texts sample.sorry_root = ["Sorry"]
  /\ emphases sample.sorry_root = []
  /\ (fge f0 ssml.c0_35 = false ->
      exists attrs children,
        ssml.children_of sample.sorry_root
        = [ssml.Elem "prosody" attrs (Some "Sorry") children]).
Proof.
  exact (emphasis_by_intensity " Sorry " sample.sorry_emotion
           service.negative_profile 160 service.c0_8 (Some 58)
           sample.sorry_root eq_refl).
Defined.

Section Attributes.
Import PyStr.

(** A pitch step that is not zero is never written ["default"]. *)
Lemma step_text_not_default (k : Z) :
  k <> 0 ->
  String.eqb ((if k >? 0 then "+" else EmptyString) ++ str_of_int k ++ "st")
    "default" = false.
Proof.
  intros H0. destruct k as [|q|q]; [contradiction| |]; reflexivity.
Qed.

Lemma pitch_step_default (profile_pitch applied_pitch : option Z) :
  String.eqb (ssml._pitch_step profile_pitch applied_pitch) "default"
  = match profile_pitch, applied_pitch with
    | Some pp, Some ap => ap =? pp
    | _, _ => true
    end.
Proof.
  unfold ssml._pitch_step.
  destruct profile_pitch as [pp|], applied_pitch as [ap|]; try reflexivity.
  destruct (Z.eqb_spec (ap - pp) 0) as [E|E];
    destruct (Z.eqb_spec ap pp); try lia; [reflexivity|].
  apply step_text_not_default; lia.
Qed.

Lemma volume_descriptor_cases (v : float) :
  In (ssml._volume_descriptor v) ["x-loud"; "loud"; "medium"; "soft"; "x-soft"].
Proof.
  unfold ssml._volume_descriptor.
  destruct (fge v ssml.c0_95); [cbn; auto|].
  destruct (fge v ssml.c0_85); [cbn; auto|].
  destruct (fge v ssml.c0_7); [cbn; auto|].
  destruct (fge v ssml.c0_5); cbn; auto 6.
Qed.

End Attributes.

(** X10.  The prosody element always has a rate attribute, a percentage
    between 50 and 200 (100 when the baseline rate is not positive), then a
    volume attribute that is one of the five descriptors; a pitch attribute
    follows exactly when the profile and the call both give a pitch and the
    two differ, and it is then the signed offset, kept within 20 semitones. *)
Theorem prosody_attributes (profile : config.VoiceProfile) (applied_rate : Z)
    (applied_volume : float) (applied_pitch : option Z)
    (attrs : list (string * string)) :
  ssml.prosody_attrs profile applied_rate applied_volume applied_pitch
  = Ok attrs ->
  exists pct,
    50 <= pct <= 200
    /\ (config.rate profile <= 0 -> pct = 100)
    /\ In (ssml._volume_descriptor applied_volume)
         ["x-loud"; "loud"; "medium"; "soft"; "x-soft"]
    /\ attrs
       = app [("rate", PyStr.str_of_int pct ++ "%");
              ("volume", ssml._volume_descriptor applied_volume)]
           (match config.pitch profile, applied_pitch with
             | Some pp, Some ap =>
                 if ap =? pp then []
                 else
                   let semitone := Z.max (-20) (Z.min 20 (ap - pp)) in
                   [("pitch",
                     (if semitone >? 0 then "+" else EmptyString)
                     ++ PyStr.str_of_int semitone ++ "st")]
             | _, _ => []
             end).
Proof.
  unfold ssml.prosody_attrs.
  destruct (ssml._rate_percentage (config.rate profile) applied_rate)
    as [pct|] eqn:Ep; cbn [bind]; [|discriminate].
  rewrite pitch_step_default. intros [= <-]. exists pct.
  assert (Hp : 50 <= pct <= 200 /\ (config.rate profile <= 0 -> pct = 100)).
  { revert Ep. unfold ssml._rate_percentage.
    destruct (Z.leb_spec (config.rate profile) 0).
    - intros [= <-]. lia.
    - bind_ok. intros [= <-]. lia. }
  destruct Hp as [Hb H100].
  split; [exact Hb|]. split; [exact H100|].
  split; [apply volume_descriptor_cases|].
  destruct (config.pitch profile) as [pp|], applied_pitch as [ap|];
    try reflexivity.
  destruct (Z.eqb_spec ap pp) as [E|E]; [reflexivity|].
  unfold ssml._pitch_step. destruct (Z.eqb_spec (ap - pp) 0); [lia|].
  reflexivity.
Qed.

Lemma prosody_attributes_witness :
  exists pct,
    50 <= pct <= 200
    /\ (config.rate service.positive_profile <= 0 -> pct = 100)
    /\ In (ssml._volume_descriptor f1)
         ["x-loud"; "loud"; "medium"; "soft"; "x-soft"]
    /\ [("rate", "124%"); ("volume", "x-loud"); ("pitch", "+12st")]
       = app [("rate", PyStr.str_of_int pct ++ "%");
              ("volume", ssml._volume_descriptor f1)]
           [("pitch", "+12st")].
Proof.
  exact (prosody_attributes service.positive_profile 231 f1 (Some 82)
           _ eq_refl).
Defined.

(** X11.  A louder volume never gets a softer descriptor: the descriptors
    follow the order of the volumes. *)
Theorem volume_descriptor_monotone (v w : float) :
  fle v w = true ->
  loudness (ssml._volume_descriptor v) <= loudness (ssml._volume_descriptor w).
Proof.
  intros H. unfold ssml._volume_descriptor.
  assert (T : forall c, fge v c = true -> fge w c = true).
  { unfold fge. intros c Hc. exact (fle_trans c v w Hc H). }
  destruct (fge v ssml.c0_95) eqn:A; [rewrite (T _ A); reflexivity|].
  destruct (fge v ssml.c0_85) eqn:B;
    [rewrite (T _ B); destruct (fge w ssml.c0_95); cbn; lia|].
  destruct (fge v ssml.c0_7) eqn:C;
    [rewrite (T _ C); destruct (fge w ssml.c0_95), (fge w ssml.c0_85);
     cbn; lia|].
  destruct (fge v ssml.c0_5) eqn:D;
    [rewrite (T _ D)|];
    destruct (fge w ssml.c0_95), (fge w ssml.c0_85), (fge w ssml.c0_7);
    try destruct (fge w ssml.c0_5); cbn; lia.
Qed.

Lemma volume_descriptor_monotone_witness :
  loudness (ssml._volume_descriptor service.c0_8)
  <= loudness (ssml._volume_descriptor service.c0_95).
Proof. apply volume_descriptor_monotone. reflexivity. Defined.

Section Frame.
Import PyStr.

(** The document is a frame around the written text; the frame is made of
    the attributes, the emphasis level and the pause, not of the text. *)
Lemma build_frame (emo : emotion.EmotionResult)
    (profile : config.VoiceProfile) (applied_rate : Z) (applied_volume : float)
    (applied_pitch : option Z) (attrs : list (string * string)) :
  ssml.prosody_attrs profile applied_rate applied_volume applied_pitch
  = Ok attrs ->
  exists before after,
    forall text,
      all_space text = false ->
      ssml.build text emo profile applied_rate applied_volume applied_pitch
      = Ok (before ++ written_text text ++ after).
Proof.
  intros Ha. unfold ssml.build, ssml.build_root. rewrite Ha. cbn [bind].
  unfold ssml.emphasis_part, written_text.
  remember (ssml.break_part emo) as brk eqn:Hbrk.
  remember (concat EmptyString
              (map ssml.write_attrib
                 [("xmlns", ssml.namespace); ("version", "1.0")])) as SA.
  remember (concat EmptyString (map ssml.write_attrib attrs)) as W.
  remember (concat EmptyString (map ssml.tostring brk)) as B.
  destruct (fge (emotion.intensity emo) ssml.c0_65);
    [|destruct (fge (emotion.intensity emo) ssml.c0_35)].
  - remember (concat EmptyString
                (map ssml.write_attrib [("level", "strong")])) as EA.
    exists ("<speak" ++ SA ++ "><prosody" ++ W ++ "><emphasis" ++ EA ++ ">"),
           ("</emphasis>" ++ B ++ "</prosody></speak>").
    intros text Hb. cbn [bind]. f_equal.
    rewrite tostring_eq, <- HeqSA. cbn [map andb].
    rewrite concat_cons_nosep, tostring_eq, <- HeqW. cbn [app map andb].
    rewrite concat_cons_nosep, tostring_eq, <- HeqEA, <- HeqB,
      (safe_text_nonempty text Hb).
    cbn [andb map concat].
    remember (ssml.escape_cdata (html_escape (strip text))) as T.
    repeat rewrite ?append_assoc, ?append_nil_right. reflexivity.
  - remember (concat EmptyString
                (map ssml.write_attrib [("level", "moderate")])) as EA.
    exists ("<speak" ++ SA ++ "><prosody" ++ W ++ "><emphasis" ++ EA ++ ">"),
           ("</emphasis>" ++ B ++ "</prosody></speak>").
    intros text Hb. cbn [bind]. f_equal.
    rewrite tostring_eq, <- HeqSA. cbn [map andb].
    rewrite concat_cons_nosep, tostring_eq, <- HeqW. cbn [app map andb].
    rewrite concat_cons_nosep, tostring_eq, <- HeqEA, <- HeqB,
      (safe_text_nonempty text Hb).
    cbn [andb map concat].
    remember (ssml.escape_cdata (html_escape (strip text))) as T.
    repeat rewrite ?append_assoc, ?append_nil_right. reflexivity.
  - exists ("<speak" ++ SA ++ "><prosody" ++ W ++ ">"),
           (B ++ "</prosody></speak>").
    intros text Hb. cbn [bind]. f_equal.
    rewrite tostring_eq, <- HeqSA. cbn [map andb].
    rewrite concat_cons_nosep, tostring_eq, <- HeqW. cbn [app].
    rewrite <- HeqB, (safe_text_nonempty text Hb).
    cbn [andb map concat].
    remember (ssml.escape_cdata (html_escape (strip text))) as T.
    repeat rewrite ?append_assoc, ?append_nil_right. reflexivity.
Qed.

End Frame.

(** X12.  The text cannot change the markup: for given parameters the
    document is a fixed frame around the text as written, whatever the
    (non-blank) text, and the text as written holds no angle bracket and no
    quote. *)
Theorem text_cannot_change_markup (emo : emotion.EmotionResult)
    (profile : config.VoiceProfile) (applied_rate : Z) (applied_volume : float)
    (applied_pitch : option Z) (attrs : list (string * string)) :
  ssml.prosody_attrs profile applied_rate applied_volume applied_pitch
  = Ok attrs ->
  exists before after,
    forall text,
      all_space text = false ->
      ssml.build text emo profile applied_rate applied_volume applied_pitch
      = Ok (before ++ written_text text ++ after)
      /\ (forall c, In c ["<"; ">"; PyStr.dquote; PyStr.squote]%char ->
          PyStr.contains_char c (written_text text) = false).
Proof.
  intros Ha.
  destruct (build_frame emo profile applied_rate applied_volume applied_pitch
              attrs Ha) as (before & after & H).
  exists before, after. intros text Hb. split; [exact (H text Hb)|].
  intros c Hc. apply written_text_markup_free, Hc.
Qed.

Lemma text_cannot_change_markup_witness :
  exists before after,
    forall text,
      all_space text = false ->
      ssml.build text full_positive service.positive_profile 231 f1 (Some 82)
      = Ok (before ++ written_text text ++ after)
      /\ (forall c, In c ["<"; ">"; PyStr.dquote; PyStr.squote]%char ->
          PyStr.contains_char c (written_text text) = false).
Proof.
  exact (text_cannot_change_markup full_positive service.positive_profile
           231 f1 (Some 82) _ eq_refl).
Defined.

Section Escaping.
Import PyStr.

Lemma escape_cdata_length (s : string) :
  (String.length s <= String.length (ssml.escape_cdata s))%nat.
Proof.
  induction s as [|c s IH]; cbn [ssml.escape_cdata String.length]; [lia|].
  repeat match goal with
         | |- context [if ?b then _ else _] => destruct b
         end; cbn [append String.length]; lia.
Qed.

Lemma html_escape_length (s : string) :
  (String.length s <= String.length (html_escape s))%nat
  /\ (plain s = false ->
      (String.length s < String.length (html_escape s))%nat).
Proof.
  induction s as [|c s [IH1 IH2]]; cbn [html_escape String.length plain].
  - split; [lia|discriminate].
  - unfold is_special.
    destruct (Ascii.eqb c "&"); [cbn [append String.length]; split; lia|].
    destruct (Ascii.eqb c "<"); [cbn [append String.length]; split; lia|].
    destruct (Ascii.eqb c ">"); [cbn [append String.length]; split; lia|].
    destruct (Ascii.eqb c dquote); [cbn [append String.length]; split; lia|].
    destruct (Ascii.eqb c squote); [cbn [append String.length]; split; lia|].
    cbn [orb negb andb String.length]. split; [lia|].
    intros H. specialize (IH2 H). lia.
Qed.

Lemma plain_unchanged (s : string) :
  plain s = true -> html_escape s = s /\ ssml.escape_cdata s = s.
Proof.
  induction s as [|c s IH]; cbn [plain]; [split; reflexivity|].
  intros H. apply andb_prop in H as [Hc Hs]. destruct (IH Hs) as [E1 E2].
  unfold is_special in Hc. apply negb_true_iff in Hc.
  repeat (apply orb_false_elim in Hc as [Hc ?]).
  cbn [html_escape ssml.escape_cdata].
  repeat match goal with
         | H : Ascii.eqb _ _ = false |- _ => rewrite H; clear H
         end.
  rewrite E1, E2. split; reflexivity.
Qed.

End Escaping.

(** X13.  The text is escaped twice, by [html.escape] and by the
    serialiser: the document shows the stripped text unchanged exactly when
    it holds no ampersand, angle bracket, double or single quote; an
    ampersand, for one, is written [&amp;amp;]. *)
Theorem text_is_escaped_twice (text : string) :
  (written_text text = PyStr.strip text <-> plain (PyStr.strip text) = true)
  /\ written_text "Q&A" = "Q&amp;amp;A".
Proof.
  split; [|reflexivity]. unfold written_text. split.
  - intros H. destruct (plain (PyStr.strip text)) eqn:E; [reflexivity|].
    exfalso. apply (f_equal String.length) in H.
    pose proof (proj2 (html_escape_length (PyStr.strip text)) E).
    pose proof (escape_cdata_length (PyStr.html_escape (PyStr.strip text))).
    lia.
  - intros H. destruct (plain_unchanged _ H) as [E1 E2].
    rewrite E1. exact E2.
Qed.

(* ================================================================= *)
(** * The synthesizer *)

Section Clamp.

(** [max(0.0, min(1.0, v))] lies in [0, 1] for every float, NaN included. *)
Lemma bounded_volume_range (v : float) :
  let b := py_max f0 (py_min f1 v) in
  fle f0 b = true /\ fle b f1 = true.
Proof.
  intros b. split.
  - apply py_max_ge_l. reflexivity.
  - apply py_max_lub; [reflexivity|]. apply py_min_le_l. reflexivity.
Qed.

Lemma flt_not_nan_r (x y : float) : flt x y = true -> is_nan y = false.
Proof. intros H. apply (fle_not_nan x y), flt_fle, H. Qed.

Lemma py_max_cases (a b : float) :
  (flt a b = true /\ py_max a b = b) \/ (flt a b = false /\ py_max a b = a).
Proof.
  unfold py_max, fgt, flt. destruct (SFltb a b); [left|right]; split;
    reflexivity.
Qed.

Lemma py_min_cases (a b : float) :
  (flt b a = true /\ py_min a b = b) \/ (flt b a = false /\ py_min a b = a).
Proof.
  unfold py_min. destruct (flt b a); [left|right]; split; reflexivity.
Qed.

(** ... and leaves a volume that [_modulate_parameters] made unchanged. *)
Lemma bounded_volume_fixed (x : float) :
  let v := py_max service.c0_3 (py_min f1 x) in
  py_max f0 (py_min f1 v) = v.
Proof.
  intros v.
  assert (Hv : v = service.c0_3 \/ v = f1
               \/ (flt v f1 = true /\ flt service.c0_3 v = true)).
  { unfold v. destruct (py_min_cases f1 x) as [[E1 ->]|[E1 ->]];
      [destruct (py_max_cases service.c0_3 x) as [[E2 ->]|[E2 ->]]
      |destruct (py_max_cases service.c0_3 f1) as [[E2 ->]|[E2 ->]]]; auto. }
  destruct Hv as [->|[->|[E1 E2]]]; try reflexivity.
  destruct (py_min_cases f1 v) as [[_ ->]|[E _]]; [|congruence].
  destruct (py_max_cases f0 v) as [[_ ->]|[E3 _]]; [reflexivity|]. exfalso.
  pose proof (flt_not_nan_r _ _ E2) as Nx.
  pose proof (not_flt_fle v f0 Nx eq_refl E3) as H.
  pose proof (fle_trans _ _ _ (flt_fle _ _ E2) H) as C.
  discriminate C.
Qed.

End Clamp.

(** X14.  A call of [synthesize] that returns has rendered exactly one job,
    with the text given, to the path it returns, at the rate given (or the
    engine's), at a volume between 0 and 1 whatever float was given, and at
    the pitch given only if the driver takes it; it leaves the rate and the
    volume read at construction.  A call that raises has rendered
    nothing. *)
Theorem synthesize_renders_one_job (drv : speech.Driver)
    (self : speech.SpeechSynthesizer) (text : string) (rate : option Z)
    (volume : option float) (pitch : option Z) (destination : string) :
  let '(self', outcome) :=
    speech.synthesize drv self text rate volume pitch destination in
  let before := speech._engine self in
  let after := speech._engine self' in
  match outcome with
  | Ok path =>
      speech.rate after = speech._default_rate self
      /\ speech.volume after = speech._default_volume self
      /\ exists job,
          speech.jobs after = job :: speech.jobs before
          /\ speech.job_text job = text
          /\ speech.job_destination job = path
          /\ speech.job_rate job
             = match rate with Some r => r | None => speech.rate before end
          /\ match volume with
             | Some v =>
                 speech.job_volume job = py_max f0 (py_min f1 v)
                 /\ fle f0 (speech.job_volume job) = true
                 /\ fle (speech.job_volume job) f1 = true
             | None => speech.job_volume job = speech.volume before
             end
          /\ speech.job_pitch job
             = match pitch with
               | Some p =>
                   if speech.supports_pitch drv then Some p
                   else speech.pitch before
               | None => speech.pitch before
               end
  | Raise _ => speech.jobs after = speech.jobs before
  end.
Proof.
  unfold speech.synthesize, speech.render, speech.try_set_pitch.
  destruct rate as [r|], volume as [v|], pitch as [p|];
    try destruct (speech.supports_pitch drv);
    destruct (speech.render_fails drv text destination);
    cbn; repeat split;
    eexists; repeat split; apply bounded_volume_range.
Qed.

(* ================================================================= *)
(** * The orchestration *)

Section Orchestration.

Lemma modulated_volume_shape (profile : config.VoiceProfile)
    (emo : emotion.EmotionResult) (r : Z) (v : float) (p : option Z) :
  service._modulate_parameters profile emo = Ok (r, v, p) ->
  exists x, v = py_max service.c0_3 (py_min f1 x).
Proof.
  unfold service._modulate_parameters. bind_ok.
  destruct (config.pitch profile) as [base|];
    [destruct (config.pitch_delta_range profile) as [range|]|];
    bind_ok; intros [= _ <- _]; eexists; reflexivity.
Qed.

Lemma synthesize_job_fields (drv : speech.Driver)
    (self : speech.SpeechSynthesizer) (text : string) (r : Z) (v : float)
    (pitch : option Z) (destination : string)
    (synth : speech.SpeechSynthesizer) (audio : string) :
  speech.synthesize drv self text (Some r) (Some v) pitch destination
  = (synth, Ok audio) ->
  audio = destination
  /\ exists job,
      speech.jobs (speech._engine synth)
      = job :: speech.jobs (speech._engine self)
      /\ speech.job_text job = text
      /\ speech.job_destination job = destination
      /\ speech.job_rate job = r
      /\ speech.job_volume job = py_max f0 (py_min f1 v)
      /\ speech.job_pitch job
         = match pitch with
           | Some p =>
               if speech.supports_pitch drv then Some p
               else speech.pitch (speech._engine self)
           | None => speech.pitch (speech._engine self)
           end.
Proof.
  unfold speech.synthesize, speech.render, speech.try_set_pitch.
  destruct pitch as [p|]; try destruct (speech.supports_pitch drv);
    destruct (speech.render_fails drv text destination);
    try discriminate; intros [= <- <-]; cbn; repeat split;
    eexists; repeat split.
Qed.

End Orchestration.

(** X15.  When [speak_to_file] returns a response, exactly one job has been
    rendered, with the text as given, to the path of the response, at the
    rate and the volume the response reports (the bounds of [synthesize]
    leave a modulated volume unchanged) and, if the driver takes a pitch,
    at the pitch it reports; the emotion and the markup of the response
    are those of [detect] and [build] for the same text. *)
Theorem speak_to_file_reports_what_it_rendered (env : emotion.Env)
    (drv : speech.Driver) (self : engine.EmpathyEngine) (text : string)
    (filename : option string) (self' : engine.EmpathyEngine)
    (sent : list string) (response : engine.EmpathyResponse) :
  engine.speak_to_file env drv self text filename
  = (self', sent, Ok response) ->
  let before := speech._engine (engine._synthesizer self) in
  let after := speech._engine (engine._synthesizer self') in
  emotion.detect env text = (sent, Ok (engine.emotion response))
  /\ ssml.build text (engine.emotion response)
       (engine.voice_profile response) (engine.applied_rate response)
       (engine.applied_volume response) (engine.applied_pitch response)
     = Ok (engine.ssml response)
  /\ exists job,
      speech.jobs after = job :: speech.jobs before
      /\ speech.job_text job = text
      /\ speech.job_destination job = engine.audio_path response
      /\ speech.job_rate job = engine.applied_rate response
      /\ speech.job_volume job = engine.applied_volume response
      /\ speech.job_pitch job
         = match engine.applied_pitch response with
           | Some p =>
               if speech.supports_pitch drv then Some p
               else speech.pitch before
           | None => speech.pitch before
           end.
Proof.
  unfold engine.speak_to_file.
  destruct (emotion.detect env text) as [sent0 detected].
  destruct detected as [emo|]; cbn [bind]; [|discriminate].
  destruct (config.get _ _) as [profile|]; cbn [bind]; [|discriminate].
  destruct (service._modulate_parameters profile emo)
    as [[[rate volume] pitch]|] eqn:Em; cbn [bind]; [|discriminate].
  destruct (modulated_volume_shape _ _ _ _ _ Em) as [x Hx].
  set (destination :=
         engine._output_directory self ++ "/" ++
         match filename with
         | Some f =>
             if PyStr.is_empty f
             then service._build_filename
                    (emotion.label_str (emotion.label emo))
             else f
         | None =>
             service._build_filename (emotion.label_str (emotion.label emo))
         end).
  destruct (speech.synthesize drv (engine._synthesizer self) text (Some rate)
              (Some volume) pitch destination) as [synth rendered] eqn:Es.
  destruct rendered as [audio|]; cbn [bind]; [|discriminate].
  pose proof (synthesize_job_fields _ _ _ _ _ _ _ _ _ Es) as S.
  destruct (ssml.build text emo profile rate volume pitch) as [markup|] eqn:Eb;
    cbn [bind]; [|discriminate].
  intros [= <- <- <-].
  cbn [engine.emotion engine.voice_profile engine.applied_rate
       engine.applied_volume engine.applied_pitch engine.ssml
       engine.audio_path engine.with_synthesizer engine._synthesizer].
  split; [reflexivity|]. split; [exact Eb|].
  destruct S as (-> & job & Hj & Ht & Hd & Hr & Hv & Hp).
  exists job. repeat split; auto.
  rewrite Hv, Hx. apply bounded_volume_fixed.
Qed.

Lemma speak_to_file_reports_what_it_rendered_witness :
  exists self' sent response,
    engine.speak_to_file (sample.answering sample.positive_answer)
      sample.good_driver sample.default_empathy_engine
      "I am so  very happy!!" None
    = (self', sent, Ok response)
    /\ emotion.detect (sample.answering sample.positive_answer)
         "I am so  very happy!!"
       = (sent, Ok (engine.emotion response))
    /\ exists job,
        speech.jobs (speech._engine (engine._synthesizer self')) = [job]
        /\ speech.job_rate job = engine.applied_rate response
        /\ speech.job_volume job = engine.applied_volume response.
Proof.
  do 3 eexists.
  match goal with
  | |- ?run /\ _ => assert (H : run) by (vm_compute; reflexivity)
  end.
  split; [exact H|].
  destruct (speak_to_file_reports_what_it_rendered _ _ _ _ _ _ _ _ H)
    as (Hd & _ & job & Hj & _ & _ & Hr & Hv & _).
  split; [exact Hd|]. exists job. split; [exact Hj|]. split; assumption.
Defined.

Lemma audio_path_of_response (env : emotion.Env) (drv : speech.Driver)
    (self : engine.EmpathyEngine) (text : string) (filename : option string)
    (self' : engine.EmpathyEngine) (sent : list string)
    (response : engine.EmpathyResponse) :
  engine.speak_to_file env drv self text filename
  = (self', sent, Ok response) ->
  engine.audio_path response
  = engine._output_directory self ++ "/"
    ++ match filename with
       | Some (String c f) => String c f
       | _ =>
           "empathy_"
           ++ emotion.label_str (emotion.label (engine.emotion response))
           ++ ".wav"
       end.
Proof.
  unfold engine.speak_to_file.
  destruct (emotion.detect env text) as [sent0 detected].
  destruct detected as [emo|]; cbn [bind]; [|discriminate].
  destruct (config.get _ _) as [profile|]; cbn [bind]; [|discriminate].
  destruct (service._modulate_parameters profile emo)
    as [[[rate volume] pitch]|] eqn:Em; cbn [bind]; [|discriminate].
  match goal with
  | |- context [speech.synthesize ?d ?s ?t ?r ?v ?p ?dest] =>
      destruct (speech.synthesize d s t r v p dest) as [synth rendered] eqn:Es
  end.
  destruct rendered as [audio|]; cbn [bind]; [|discriminate].
  destruct (ssml.build text emo profile rate volume pitch) as [markup|];
    cbn [bind]; [|discriminate].
  intros [= <- <- <-]. cbn [engine.audio_path engine.emotion].
  apply synthesize_job_fields in Es as [-> _].
  assert (L : service._build_filename (emotion.label_str (emotion.label emo))
              = "empathy_" ++ emotion.label_str (emotion.label emo) ++ ".wav")
    by (destruct (emotion.label emo); reflexivity).
  destruct filename as [[|c f]|]; cbn [PyStr.is_empty]; rewrite ?L;
    reflexivity.
Qed.

(** X16.  Without a file name (none, or an empty one) the audio file is
    named after the detected label alone: two calls on engines with the
    same output directory whose texts get the same label are written to
    the same file. *)
Theorem same_label_same_file (env1 env2 : emotion.Env)
    (drv1 drv2 : speech.Driver) (self1 self2 : engine.EmpathyEngine)
    (text1 text2 : string) (filename1 filename2 : option string)
    (after1 after2 : engine.EmpathyEngine) (sent1 sent2 : list string)
    (response1 response2 : engine.EmpathyResponse) :
  engine.speak_to_file env1 drv1 self1 text1 filename1
  = (after1, sent1, Ok response1) ->
  engine.speak_to_file env2 drv2 self2 text2 filename2
  = (after2, sent2, Ok response2) ->
  engine._output_directory self1 = engine._output_directory self2 ->
  filename1 = None \/ filename1 = Some EmptyString ->
  filename2 = None \/ filename2 = Some EmptyString ->
  emotion.label (engine.emotion response1)
  = emotion.label (engine.emotion response2) ->
  engine.audio_path response1 = engine.audio_path response2.
Proof.
  intros H1 H2 Hd F1 F2 Hl.
  rewrite (audio_path_of_response _ _ _ _ _ _ _ _ H1),
    (audio_path_of_response _ _ _ _ _ _ _ _ H2), Hd, Hl.
  destruct F1 as [-> | ->], F2 as [-> | ->]; reflexivity.
Qed.

Lemma same_label_same_file_witness :
  exists after1 after2 sent1 sent2 response1 response2,
    engine.speak_to_file (sample.answering sample.positive_answer)
      sample.good_driver sample.default_empathy_engine "so happy" None
    = (after1, sent1, Ok response1)
    /\ engine.speak_to_file (sample.answering sample.zero_positive_answer)
         sample.good_driver sample.default_empathy_engine "fine"
         (Some EmptyString)
       = (after2, sent2, Ok response2)
    /\ engine.audio_path response1 = engine.audio_path response2.
Proof.
  do 6 eexists.
  match goal with
  | |- ?run1 /\ ?run2 /\ _ =>
      assert (H1 : run1) by (vm_compute; reflexivity);
      assert (H2 : run2) by (vm_compute; reflexivity)
  end.
  split; [exact H1|]. split; [exact H2|].
  apply (same_label_same_file _ _ _ _ _ _ _ _ _ _ _ _ _ _ _ _ H1 H2);
    auto; reflexivity.
Defined.

Section BlankRun.

Lemma build_blank (text : string) (emo : emotion.EmotionResult)
    (profile : config.VoiceProfile) (r : Z) (v : float) (p : option Z) :
  all_space text = true ->
  ssml.build text emo profile r v p = ssml.build EmptyString emo profile r v p.
Proof.
  intros H. unfold ssml.build, ssml.build_root.
  rewrite (strip_all_space _ H). reflexivity.
Qed.

End BlankRun.

(** X17.  [speak_to_file] does not reject a blank text.  With the default
    table and a driver that renders it, a text of white space only is
    spoken as it is, with no request to the classifier, as a neutral
    emotion of intensity 0.0: rate 170, volume 0.88 - 0.04, pitch 61, and a
    prosody element without content. *)
Theorem blank_text_is_spoken_neutral (env : emotion.Env) (drv : speech.Driver)
    (self : engine.EmpathyEngine) (text : string) (filename : option string) :
  all_space text = true ->
  engine._mapping self = service._default_mapping ->
  (forall destination, speech.render_fails drv text destination = false) ->
  let '(self', sent, outcome) :=
    engine.speak_to_file env drv self text filename in
  sent = []
  /\ exists response,
      outcome = Ok response
      /\ engine.emotion response
         = {| emotion.label := emotion.neutral; emotion.intensity := f0 |}
      /\ engine.applied_rate response = 170
      /\ engine.applied_volume response = fadd service.c0_88 service.cm0_04
      /\ engine.applied_pitch response = Some 61
      /\ engine.ssml response
         = ssml.tostring
             (ssml.Elem "speak"
                [("xmlns", ssml.namespace); ("version", "1.0")] None
                [ssml.Elem "prosody"
                   [("rate", "97%"); ("volume", "medium"); ("pitch", "-3st")]
                   (Some EmptyString) []])
      /\ map speech.job_text
           (speech.jobs (speech._engine (engine._synthesizer self')))
         = text :: map speech.job_text
                     (speech.jobs (speech._engine (engine._synthesizer self))).
Proof.
  intros Hb Hm Hr. unfold engine.speak_to_file.
  rewrite detect_cases, Hb, Hm. cbn [bind emotion.label].
  change (config.get service._default_mapping
            (emotion.label_str emotion.neutral))
    with (Ok service.neutral_profile).
  cbn [bind].
  assert (Em : service._modulate_parameters service.neutral_profile
                 {| emotion.label := emotion.neutral;
                    emotion.intensity := f0 |}
               = Ok (170, fadd service.c0_88 service.cm0_04, Some 61))
    by (vm_compute; reflexivity).
  rewrite Em.
  cbn [bind].
  match goal with
  | |- context [speech.synthesize ?d ?s ?t ?r ?v ?p ?dest] =>
      destruct (speech.synthesize d s t r v p dest) as [synth rendered] eqn:Es
  end.
  revert Es. unfold speech.synthesize, speech.render. rewrite Hr.
  intros [= <- <-]. cbn [bind].
  rewrite build_blank by exact Hb.
  assert (Eb : ssml.build EmptyString
                 {| emotion.label := emotion.neutral;
                    emotion.intensity := f0 |}
                 service.neutral_profile 170
                 (fadd service.c0_88 service.cm0_04) (Some 61)
               = Ok (ssml.tostring
                       (ssml.Elem "speak"
                          [("xmlns", ssml.namespace); ("version", "1.0")] None
                          [ssml.Elem "prosody"
                             [("rate", "97%"); ("volume", "medium");
                              ("pitch", "-3st")]
                             (Some EmptyString) []])))
    by (vm_compute; reflexivity).
  rewrite Eb. cbn [bind].
  split; [reflexivity|]. eexists. split; [reflexivity|].
  cbn [engine.emotion engine.applied_rate engine.applied_volume
       engine.applied_pitch engine.ssml].
  repeat split.
  unfold speech.try_set_pitch.
  destruct (speech.supports_pitch drv); reflexivity.
Qed.

Lemma blank_text_is_spoken_neutral_witness :
  let '(self', sent, outcome) :=
    engine.speak_to_file (sample.answering sample.positive_answer)
      sample.good_driver sample.default_empathy_engine "   " None in
  sent = []
  /\ exists response,
      outcome = Ok response
      /\ engine.emotion response
         = {| emotion.label := emotion.neutral; emotion.intensity := f0 |}
      /\ engine.applied_rate response = 170
      /\ engine.applied_volume response = fadd service.c0_88 service.cm0_04
      /\ engine.applied_pitch response = Some 61
      /\ engine.ssml response
         = ssml.tostring
             (ssml.Elem "speak"
                [("xmlns", ssml.namespace); ("version", "1.0")] None
                [ssml.Elem "prosody"
                   [("rate", "97%"); ("volume", "medium"); ("pitch", "-3st")]
                   (Some EmptyString) []])
      /\ map speech.job_text
           (speech.jobs (speech._engine (engine._synthesizer self')))
         = "   " :: map speech.job_text
                      (speech.jobs
                         (speech._engine
                            (engine._synthesizer
                               sample.default_empathy_engine))).
Proof.
  apply (blank_text_is_spoken_neutral
           (sample.answering sample.positive_answer) sample.good_driver
           sample.default_empathy_engine "   " None);
    reflexivity.
Defined.

(* ================================================================= *)
(** * Modulation follows the intensity *)

Section RoundInt.

Lemma int_round_mono (N N' : Z) : 0 <= N <= N' -> int_round N <= int_round N'.
Proof.
  intros [H0 H]. unfold int_round. pose proof bias_pos as HB.
  apply pick_mono; try (apply Z.mod_pos_bound; lia).
  rewrite (Z.mul_comm (N / 2 ^ bias)), (Z.mul_comm (N' / 2 ^ bias)).
  rewrite <- !Z.div_mod by lia. exact H.
Qed.

Lemma int_round_nonneg (N : Z) : 0 <= N -> 0 <= int_round N.
Proof.
  intros H. unfold int_round. pose proof bias_pos as HB.
  pose proof (pick_bounds (N / 2 ^ bias) (N mod 2 ^ bias) (2 ^ bias)).
  assert (0 <= N / 2 ^ bias) by (apply Z.div_pos; lia). lia.
Qed.

Lemma sint_round_mono (N N' : Z) : N <= N' -> sint_round N <= sint_round N'.
Proof.
  intros H. unfold sint_round.
  destruct (Z.ltb_spec N 0), (Z.ltb_spec N' 0); try lia.
  - pose proof (int_round_mono (- N') (- N) ltac:(lia)). lia.
  - pose proof (int_round_nonneg (- N) ltac:(lia)).
    pose proof (int_round_nonneg N' ltac:(lia)). lia.
  - apply int_round_mono. lia.
Qed.

Lemma round_half_even_value (m e : Z) :
  0 < m -> - bias <= e ->
  round_half_even m e = int_round (m * 2 ^ (e + bias)).
Proof.
  intros Hm He. unfold round_half_even, int_round, pick.
  pose proof bias_pos as HB.
  destruct (Z.leb_spec 0 e) as [H|H].
  - rewrite (pow2_split e bias) by (unfold bias in *; lia).
    rewrite Z.mul_assoc, Z.div_mul, Z.mod_mul by lia.
    assert (L : (2 * 0 ?= 2 ^ bias) = Lt) by (apply Z.compare_lt_iff; lia).
    rewrite L. reflexivity.
  - set (K := 2 ^ (e + bias)).
    assert (HK : 0 < K) by (apply pow2_pos; lia).
    assert (E : 2 ^ bias = 2 ^ (- e) * K).
    { unfold K. rewrite <- (pow2_split (- e) (e + bias)) by lia.
      f_equal. lia. }
    assert (HD : 0 < 2 ^ (- e)) by (apply pow2_pos; lia).
    rewrite E, Z.div_mul_cancel_r, Z.mul_mod_distr_r by lia.
    assert (C : (2 * (m mod 2 ^ (- e) * K) ?= 2 ^ (- e) * K)
                = (2 * (m mod 2 ^ (- e)) ?= 2 ^ (- e))).
    { destruct (Z.compare_spec (2 * (m mod 2 ^ (- e))) (2 ^ (- e)));
        [apply Z.compare_eq_iff|apply Z.compare_lt_iff|apply Z.compare_gt_iff];
        nia. }
    rewrite C. reflexivity.
Qed.

Lemma py_round_value (x : float) (q : Z) :
  wf x -> py_round x = Ok q -> q = sint_round (Fval x).
Proof.
  intros [V N]. destruct x as [s|s| |s m e]; try discriminate; cbn [py_round].
  - intros [= <-]. reflexivity.
  - intros [= <-]. destruct (valid_finite _ _ _ V) as (A & B & C).
    assert (Hb : - bias <= e) by (unfold bias; lia).
    assert (P : 0 < Zpos m * 2 ^ (e + bias)).
    { apply Z.mul_pos_pos; [lia|]. apply pow2_pos. lia. }
    rewrite (round_half_even_value (Zpos m) e ltac:(lia) Hb).
    unfold sint_round. cbn [Fval].
    destruct s; cbn [cond_Zopp].
    + destruct (Z.ltb_spec (- (Zpos m * 2 ^ (e + bias))) 0); [|lia].
      rewrite Z.opp_involutive. reflexivity.
    + destruct (Z.ltb_spec (Zpos m * 2 ^ (e + bias)) 0); [lia|].
      reflexivity.
Qed.

Lemma py_round_mono (x y : float) (a b : Z) :
  wf x -> wf y -> fle x y = true ->
  py_round x = Ok a -> py_round y = Ok b -> a <= b.
Proof.
  intros Wx Wy H Ha Hb.
  rewrite (py_round_value x a Wx Ha), (py_round_value y b Wy Hb).
  apply sint_round_mono, (fle_Fval x y Wx Wy), H.
Qed.

Lemma fadd_mono_r (x a b : float) :
  wf x -> wf a -> wf b -> is_finite x = true -> is_finite a = true ->
  is_finite b = true -> fle a b = true ->
  fle (fadd x a) (fadd x b) = true.
Proof.
  intros Wx Wa Wb Fx Fa Fb H.
  destruct (fadd_spec x a Wx Wa Fx Fa) as [W1 V1].
  destruct (fadd_spec x b Wx Wb Fx Fb) as [W2 V2].
  apply (fle_Fval _ _ W1 W2). rewrite V1, V2.
  apply clamp_srnd_mono. apply (fle_Fval a b Wa Wb) in H. lia.
Qed.

End RoundInt.

Section Follow.

Lemma py_max_mono (c a b : float) :
  is_nan c = false -> fle a b = true ->
  fle (py_max c a) (py_max c b) = true.
Proof.
  intros Hc Hab. destruct (fle_not_nan _ _ Hab) as [Ha Hb].
  destruct (py_max_cases c a) as [[Ea ->]|[Ea ->]],
           (py_max_cases c b) as [[Eb ->]|[Eb ->]].
  - exact Hab.
  - apply (fle_trans _ b); [exact Hab|]. apply not_flt_fle; auto.
  - apply flt_fle, Eb.
  - apply fle_refl, Hc.
Qed.

(** The rounded sum of a baseline and an interpolated integer delta, at
    two intensities. *)
Lemma rounded_sum_mono (base : Z) (range : Z * Z) (i j : float) :
  corners_fit base range -> unit_interval i -> unit_interval j ->
  fle i j = true ->
  exists fb rdi rdj qi qj,
    service._interpolate (service.int_range range) i = Ok rdi
    /\ service._interpolate (service.int_range range) j = Ok rdj
    /\ of_int base = Ok fb
    /\ py_round (fadd fb rdi) = Ok qi
    /\ py_round (fadd fb rdj) = Ok qj
    /\ (fst range <= snd range -> qi <= qj)
    /\ (snd range < fst range -> qj <= qi).
Proof.
  intros (fb & flo & d & Hb & Hl & Hd & F1 & F2 & F3) Hi Hj Hij.
  destruct (of_int_spec _ _ Hb) as (Wb & Fb & _).
  destruct (of_int_spec _ _ Hl) as (Wl & Fl & _).
  destruct (of_int_spec _ _ Hd) as (Wd & Fd & Vd).
  pose proof bias_pos as HB.
  assert (E : forall k, service._interpolate (service.int_range range) k
                        = Ok (fadd flo (fmul d k))).
  { intros k. apply interpolate_eq; [exact Hl|].
    unfold difference, service.int_range.
    cbn [num_sub bind to_float fst snd]. exact Hd. }
  destruct (fadd_spec flo d Wl Wd Fl Fd) as [W1 _].
  assert (Fin : forall k, unit_interval k ->
                  wf (fadd flo (fmul d k))
                  /\ is_finite (fadd flo (fmul d k)) = true
                  /\ wf (fadd fb (fadd flo (fmul d k)))
                  /\ is_finite (fadd fb (fadd flo (fmul d k))) = true).
  { intros k Hk.
    destruct (interpolate_value flo d Wl Fl Wd Fd k Hk) as [Wr _].
    pose proof (interpolate_between flo d Wl Fl Wd Fd k Hk) as Hbt.
    cbv zeta in Hbt.
    assert (Fr : is_finite (fadd flo (fmul d k)) = true)
      by (apply (between_finite _ flo (fadd flo d)); auto).
    destruct (fadd_spec fb _ Wb Wr Fb Fr) as [Ws Vs].
    destruct (fadd_spec fb flo Wb Wl Fb Fl) as [Wa Va].
    destruct (fadd_spec fb (fadd flo d) Wb W1 Fb F1) as [Wc Vc].
    repeat split; try apply Wr; try apply Ws; auto.
    apply (between_finite _ (fadd fb flo) (fadd fb (fadd flo d))); auto.
    rewrite Vs, Va, Vc.
    destruct Hbt as [[L U]|[L U]]; [left|right]; split;
      apply clamp_srnd_mono; lia. }
  destruct (Fin i Hi) as (Wi & Fi & Wsi & Fsi).
  destruct (Fin j Hj) as (Wj & Fj & Wsj & Fsj).
  destruct (py_round_finite _ Fsi) as [qi Hqi].
  destruct (py_round_finite _ Fsj) as [qj Hqj].
  exists fb, (fadd flo (fmul d i)), (fadd flo (fmul d j)), qi, qj.
  repeat split; auto.
  - intros H.
    assert (0 <= Fval d) by (rewrite Vd; apply clamp_srnd_nonneg; nia).
    apply (py_round_mono _ _ qi qj Wsi Wsj); auto.
    apply fadd_mono_r; auto.
    apply (interpolate_mono flo d Wl Fl Wd Fd i j Hi Hj Hij); auto.
  - intros H.
    assert (Fval d <= 0) by (rewrite Vd; apply clamp_srnd_nonpos; nia).
    apply (py_round_mono _ _ qj qi Wsj Wsi); auto.
    apply fadd_mono_r; auto.
    apply (interpolate_mono flo d Wl Fl Wd Fd i j Hi Hj Hij); auto.
Qed.

(** The bounded volume at two intensities. *)
Lemma bounded_volume_mono (volume : float) (range : float * float)
    (i j : float) :
  volume_fits volume range -> unit_interval i -> unit_interval j ->
  fle i j = true ->
  exists vdi vdj,
    service._interpolate (service.float_range range) i = Ok vdi
    /\ service._interpolate (service.float_range range) j = Ok vdj
    /\ (fle (fst range) (snd range) = true ->
        fle (py_max service.c0_3 (py_min f1 (fadd volume vdi)))
            (py_max service.c0_3 (py_min f1 (fadd volume vdj))) = true)
    /\ (flt (snd range) (fst range) = true ->
        fle (py_max service.c0_3 (py_min f1 (fadd volume vdj)))
            (py_max service.c0_3 (py_min f1 (fadd volume vdi))) = true).
Proof.
  destruct range as [lo hi].
  intros ([Wv Fv] & [Wl Fl] & [Wh Fh] & Fd & F1) Hi Hj Hij.
  cbn [fst snd].
  destruct (fsub_spec hi lo Wh Wl Fh Fl) as [Wd Vd].
  destruct (fadd_spec lo (fsub hi lo) Wl Wd Fl Fd) as [W1 _].
  assert (Fin : forall k, unit_interval k ->
                  wf (fadd lo (fmul (fsub hi lo) k))
                  /\ is_finite (fadd lo (fmul (fsub hi lo) k)) = true).
  { intros k Hk.
    destruct (interpolate_value lo _ Wl Fl Wd Fd k Hk) as [Wr _].
    pose proof (interpolate_between lo _ Wl Fl Wd Fd k Hk) as Hbt.
    cbv zeta in Hbt. split; [exact Wr|].
    apply (between_finite _ lo (fadd lo (fsub hi lo))); auto. }
  destruct (Fin i Hi) as (Wi & Fi). destruct (Fin j Hj) as (Wj & Fj).
  exists (fadd lo (fmul (fsub hi lo) i)), (fadd lo (fmul (fsub hi lo) j)).
  split; [reflexivity|]. split; [reflexivity|].
  split; intros H; apply py_max_mono; try reflexivity;
    apply py_min_mono; try reflexivity; apply fadd_mono_r; auto;
    apply (interpolate_mono lo _ Wl Fl Wd Fd i j Hi Hj Hij); rewrite Vd.
  - apply (fle_Fval lo hi Wl Wh) in H. apply clamp_srnd_nonneg. lia.
  - apply (flt_Fval hi lo Wh Wl) in H. apply clamp_srnd_nonpos. lia.
Qed.

End Follow.

Section FollowAll.

Lemma modulate_mono (profile : config.VoiceProfile)
    (low high : emotion.EmotionResult) :
  profile_fits profile ->
  unit_interval (emotion.intensity low) ->
  unit_interval (emotion.intensity high) ->
  fle (emotion.intensity low) (emotion.intensity high) = true ->
  exists r1 v1 p1 r2 v2 p2,
    service._modulate_parameters profile low = Ok (r1, v1, p1)
    /\ service._modulate_parameters profile high = Ok (r2, v2, p2)
    /\ (let '(lo, hi) := config.rate_delta_range profile in
        (lo <= hi -> r1 <= r2) /\ (hi < lo -> r2 <= r1))
    /\ (let '(lo, hi) := config.volume_delta_range profile in
        (fle lo hi = true -> fle v1 v2 = true)
        /\ (flt hi lo = true -> fle v2 v1 = true))
    /\ match config.pitch_delta_range profile with
       | Some (lo, hi) =>
           (lo <= hi -> opt_le p1 p2) /\ (hi < lo -> opt_le p2 p1)
       | None => p1 = p2
       end.
Proof.
  intros (Hr & Hv & Hp) Hi Hj Hij. unfold service._modulate_parameters.
  destruct (rounded_sum_mono _ _ _ _ Hr Hi Hj Hij)
    as (fb & rdi & rdj & qi & qj & E1 & E2 & E3 & E4 & E5 & Up & Down).
  destruct (bounded_volume_mono _ _ _ _ Hv Hi Hj Hij)
    as (vdi & vdj & V1 & V2 & VUp & VDown).
  rewrite E1, E2, V1, V2, E3. cbn [bind]. rewrite E4, E5. cbn [bind].
  destruct (config.pitch profile) as [p|] eqn:Epitch;
    [destruct (config.pitch_delta_range profile) as [range|] eqn:Erange|].
  - destruct (rounded_sum_mono _ _ _ _ (Hp p range eq_refl eq_refl) Hi Hj Hij)
      as (fp & pdi & pdj & ti & tj & P1 & P2 & P3 & P4 & P5 & PUp & PDown).
    rewrite P1, P2, P3. cbn [bind]. rewrite P4, P5. cbn [bind].
    do 6 eexists. split; [reflexivity|]. split; [reflexivity|].
    destruct (config.rate_delta_range profile) as [lo hi],
             (config.volume_delta_range profile) as [vlo vhi],
             range as [plo phi].
    cbn [fst snd opt_le] in *. repeat split; auto; intros H.
    + specialize (Up H). lia.
    + specialize (Down H). lia.
    + specialize (PUp H). lia.
    + specialize (PDown H). lia.
  - do 6 eexists. split; [reflexivity|]. split; [reflexivity|].
    destruct (config.rate_delta_range profile) as [lo hi],
             (config.volume_delta_range profile) as [vlo vhi].
    cbn [fst snd] in *. repeat split; auto; intros H.
    + specialize (Up H). lia.
    + specialize (Down H). lia.
  - do 6 eexists. split; [reflexivity|]. split; [reflexivity|].
    destruct (config.rate_delta_range profile) as [lo hi],
             (config.volume_delta_range profile) as [vlo vhi].
    cbn [fst snd] in *.
    assert (Q : match config.pitch_delta_range profile with
                | Some (plo, phi) =>
                    (plo <= phi -> opt_le None None)
                    /\ (phi < plo -> opt_le None None)
                | None => @None Z = None
                end).
    { destruct (config.pitch_delta_range profile) as [[plo phi]|];
        cbn [opt_le]; auto. }
    repeat split; auto; intros H.
    + specialize (Up H). lia.
    + specialize (Down H). lia.
Qed.

End FollowAll.

(** X18.  For a profile whose numbers are in good standing, modulation
    returns at every intensity in [0, 1], and its results follow the
    intensity: of two intensities the greater one gives a rate, a volume
    and a pitch that are each at least as far along their delta range
    (greater when the range rises, smaller when it falls). *)
Theorem modulation_follows_intensity (profile : config.VoiceProfile)
    (low high : emotion.EmotionResult) :
  profile_fits profile ->
  unit_interval (emotion.intensity low) ->
  unit_interval (emotion.intensity high) ->
  fle (emotion.intensity low) (emotion.intensity high) = true ->
  exists r1 v1 p1 r2 v2 p2,
    service._modulate_parameters profile low = Ok (r1, v1, p1)
    /\ service._modulate_parameters profile high = Ok (r2, v2, p2)
    /\ (let '(lo, hi) := config.rate_delta_range profile in
        (lo <= hi -> r1 <= r2) /\ (hi < lo -> r2 <= r1))
    /\ (let '(lo, hi) := config.volume_delta_range profile in
        (fle lo hi = true -> fle v1 v2 = true)
        /\ (flt hi lo = true -> fle v2 v1 = true))
    /\ match config.pitch_delta_range profile with
       | Some (lo, hi) =>
           (lo <= hi -> opt_le p1 p2) /\ (hi < lo -> opt_le p2 p1)
       | None => p1 = p2
       end.
Proof. exact (modulate_mono profile low high). Qed.

Section DefaultTable.

Lemma default_profiles_fit (p : config.VoiceProfile) :
  In p [service.positive_profile; service.neutral_profile;
        service.negative_profile] ->
  profile_fits p.
Proof.
  assert (Hfit : forall base range,
             In (base, range)
                [(186, (0, 45)); (175, (-5, 5)); (160, (0, -40));
                 (70, (0, 12)); (64, (-3, 4)); (58, (0, -12))] ->
             corners_fit base range).
  { intros base range H. unfold corners_fit.
    repeat (destruct H as [H|H]; [injection H as <- <-|]);
      try contradiction;
      do 3 eexists; repeat split; vm_compute; reflexivity. }
  intros [<-|[<-|[<-|[]]]]; (split; [|split]);
    lazymatch goal with
    | |- corners_fit _ _ => apply Hfit; cbn [In]; tauto
    | |- volume_fits _ _ =>
        unfold volume_fits, wf;
        cbn [config.volume config.volume_delta_range
             service.positive_profile service.neutral_profile
             service.negative_profile];
        repeat match goal with |- _ /\ _ => split end;
        vm_compute; reflexivity
    | |- _ => intros q range [= <-] [= <-]; apply Hfit; cbn [In]; tauto
    end.
Qed.

Lemma unit_interval_half : unit_interval ssml.c0_5.
Proof. repeat split; reflexivity. Qed.

End DefaultTable.

Lemma modulation_follows_intensity_witness :
  exists r1 v1 p1 r2 v2 p2,
    service._modulate_parameters service.negative_profile
      {| emotion.label := emotion.negative; emotion.intensity := ssml.c0_5 |}
    = Ok (r1, v1, p1)
    /\ service._modulate_parameters service.negative_profile
         {| emotion.label := emotion.negative; emotion.intensity := f1 |}
       = Ok (r2, v2, p2)
    /\ r2 <= r1 /\ fle v2 v1 = true /\ opt_le p2 p1.
Proof.
  destruct (modulation_follows_intensity service.negative_profile
              {| emotion.label := emotion.negative;
                 emotion.intensity := ssml.c0_5 |}
              {| emotion.label := emotion.negative; emotion.intensity := f1 |})
    as (r1 & v1 & p1 & r2 & v2 & p2 & E1 & E2 & [_ Hr] & [_ Hv] & [_ Hp]).
  - apply default_profiles_fit. right. right. left. reflexivity.
  - exact unit_interval_half.
  - exact unit_interval_f1.
  - reflexivity.
  - exists r1, v1, p1, r2, v2, p2.
    split; [exact E1|]. split; [exact E2|].
    split; [apply Hr; lia|]. split; [apply Hv; reflexivity|apply Hp; lia].
Defined.

Section Ranges.

Lemma unit_interval_bounds (i : float) :
  unit_interval i -> fle f0 i = true /\ fle i f1 = true.
Proof. intros (_ & H0 & H1). split; assumption. Qed.

(** Modulation at an intensity in [0, 1] lies between modulation at 0 and
    at 1, for a default profile whose three ranges go the same way. *)
Lemma modulate_between_ends (profile : config.VoiceProfile)
    (l : emotion.EmotionLabel) (i : float) (r0 r1 p0 p1 : Z) (v0 v1 : float) :
  profile_fits profile -> unit_interval i ->
  service._modulate_parameters profile
    {| emotion.label := l; emotion.intensity := f0 |} = Ok (r0, v0, Some p0) ->
  service._modulate_parameters profile
    {| emotion.label := l; emotion.intensity := f1 |} = Ok (r1, v1, Some p1) ->
  exists r v p,
    service._modulate_parameters profile
      {| emotion.label := l; emotion.intensity := i |} = Ok (r, v, Some p)
    /\ (let '(lo, hi) := config.rate_delta_range profile in
        (lo <= hi -> r0 <= r <= r1) /\ (hi < lo -> r1 <= r <= r0))
    /\ (let '(lo, hi) := config.volume_delta_range profile in
        (fle lo hi = true -> fle v0 v = true /\ fle v v1 = true)
        /\ (flt hi lo = true -> fle v1 v = true /\ fle v v0 = true))
    /\ match config.pitch_delta_range profile with
       | Some (lo, hi) =>
           (lo <= hi -> p0 <= p <= p1) /\ (hi < lo -> p1 <= p <= p0)
       | None => True
       end.
Proof.
  intros Hf Hi E0 E1. destruct (unit_interval_bounds i Hi) as [L U].
  destruct (modulate_mono profile
              {| emotion.label := l; emotion.intensity := f0 |}
              {| emotion.label := l; emotion.intensity := i |}
              Hf unit_interval_f0 Hi L)
    as (a1 & b1 & c1 & r & v & p & A1 & A2 & Ar & Av & Ap).
  destruct (modulate_mono profile
              {| emotion.label := l; emotion.intensity := i |}
              {| emotion.label := l; emotion.intensity := f1 |}
              Hf Hi unit_interval_f1 U)
    as (r' & v' & p' & a2 & b2 & c2 & B1 & B2 & Br & Bv & Bp).
  rewrite E0 in A1. injection A1 as <- <- <-.
  rewrite E1 in B2. injection B2 as <- <- <-.
  rewrite A2 in B1. injection B1 as <- <- <-.
  destruct (config.rate_delta_range profile) as [lo hi],
           (config.volume_delta_range profile) as [vlo vhi].
  destruct Ar as [Ar1 Ar2], Br as [Br1 Br2], Av as [Av1 Av2],
           Bv as [Bv1 Bv2].
  destruct (config.pitch_delta_range profile) as [[plo phi]|].
  - destruct Ap as [Ap1 Ap2], Bp as [Bp1 Bp2].
    destruct p as [p|];
      [|exfalso; destruct (Z_le_gt_dec plo phi);
        [apply Ap1; assumption|apply Ap2; lia]].
    exists r, v, p. split; [exact A2|]. cbn [opt_le] in *.
    split; [split; intros H;
            [specialize (Ar1 H); specialize (Br1 H)
            |specialize (Ar2 H); specialize (Br2 H)]; lia|].
    split; [split; intros H;
            [split; [apply Av1|apply Bv1]|split; [apply Bv2|apply Av2]];
            exact H|].
    split; intros H;
      [specialize (Ap1 H); specialize (Bp1 H)
      |specialize (Ap2 H); specialize (Bp2 H)]; lia.
  - subst p. exists r, v, p0. split; [exact A2|].
    split; [split; intros H;
            [specialize (Ar1 H); specialize (Br1 H)
            |specialize (Ar2 H); specialize (Br2 H)]; lia|].
    split; [split; intros H;
            [split; [apply Av1|apply Bv1]|split; [apply Bv2|apply Av2]];
            exact H|exact I].
Qed.

Lemma default_ranges_hold (l : emotion.EmotionLabel) (i : float) :
  unit_interval i ->
  exists profile r v p,
    config.get service._default_mapping (emotion.label_str l) = Ok profile
    /\ service._modulate_parameters profile
         {| emotion.label := l; emotion.intensity := i |} = Ok (r, v, Some p)
    /\ let '(rates, volumes, pitches) := default_ranges l in
       fst rates <= r <= snd rates
       /\ fle (fst volumes) v = true /\ fle v (snd volumes) = true
       /\ fst pitches <= p <= snd pitches.
Proof.
  intros Hi. destruct l.
  - destruct (modulate_between_ends service.positive_profile emotion.positive
                i 186 231 70 82 service.c0_95 f1)
      as (r & v & p & E & Hr & Hv & Hp);
      [apply default_profiles_fit; left; reflexivity|exact Hi
      |vm_compute; reflexivity|vm_compute; reflexivity|].
    exists service.positive_profile, r, v, p.
    split; [reflexivity|]. split; [exact E|].
    cbn [default_ranges fst snd]. cbv beta iota in Hr, Hv, Hp.
    destruct Hr as [Hr _], Hv as [Hv _], Hp as [Hp _].
    specialize (Hr ltac:(lia)). specialize (Hv eq_refl).
    specialize (Hp ltac:(lia)). tauto.
  - destruct (modulate_between_ends service.neutral_profile emotion.neutral
                i 170 180 61 68 c0_84 c0_92) as (r & v & p & E & Hr & Hv & Hp);
      [apply default_profiles_fit; right; left; reflexivity|exact Hi
      |vm_compute; reflexivity|vm_compute; reflexivity|].
    exists service.neutral_profile, r, v, p.
    split; [reflexivity|]. split; [exact E|].
    cbn [default_ranges fst snd]. cbv beta iota in Hr, Hv, Hp.
    destruct Hr as [Hr _], Hv as [Hv _], Hp as [Hp _].
    specialize (Hr ltac:(lia)). specialize (Hv eq_refl).
    specialize (Hp ltac:(lia)). tauto.
  - destruct (modulate_between_ends service.negative_profile emotion.negative
                i 160 120 58 46 service.c0_8 ssml.c0_65)
      as (r & v & p & E & Hr & Hv & Hp);
      [apply default_profiles_fit; right; right; left; reflexivity|exact Hi
      |vm_compute; reflexivity|vm_compute; reflexivity|].
    exists service.negative_profile, r, v, p.
    split; [reflexivity|]. split; [exact E|].
    cbn [default_ranges fst snd]. cbv beta iota in Hr, Hv, Hp.
    destruct Hr as [_ Hr], Hv as [_ Hv], Hp as [_ Hp].
    specialize (Hr ltac:(lia)). specialize (Hv eq_refl).
    specialize (Hp ltac:(lia)). tauto.
Qed.

End Ranges.

(** X19.  On the default table, at every intensity in [0, 1], modulation
    returns a rate, a volume and a pitch within the range of the label:
    186..231, 0.95..1.0 and 70..82 for positive; 170..180, 0.84..0.92 and
    61..68 for neutral; 120..160, 0.65..0.8 and 46..58 for negative. *)
Theorem default_table_ranges (l : emotion.EmotionLabel) (i : float) :
  unit_interval i ->
  exists profile r v p,
    config.get service._default_mapping (emotion.label_str l) = Ok profile
    /\ service._modulate_parameters profile
         {| emotion.label := l; emotion.intensity := i |} = Ok (r, v, Some p)
    /\ let '(rates, volumes, pitches) := default_ranges l in
       fst rates <= r <= snd rates
       /\ fle (fst volumes) v = true /\ fle v (snd volumes) = true
       /\ fst pitches <= p <= snd pitches.
Proof. exact (default_ranges_hold l i). Qed.

Lemma default_table_ranges_witness :
  exists profile r v p,
    config.get service._default_mapping "negative" = Ok profile
    /\ service._modulate_parameters profile
         {| emotion.label := emotion.negative;
            emotion.intensity := ssml.c0_5 |} = Ok (r, v, Some p)
    /\ 120 <= r <= 160
    /\ fle ssml.c0_65 v = true /\ fle v service.c0_8 = true
    /\ 46 <= p <= 58.
Proof.
  exact (default_table_ranges emotion.negative ssml.c0_5 unit_interval_half).
Defined.

(* ================================================================= *)
(** * The construction of the detector *)

Section Token.
Import PyStr.

Lemma resolve_token_some (getenv : string -> option string)
    (env_vars : list string) (tok : string) :
  EmotionDetector._resolve_token getenv env_vars = Some tok ->
  tok <> EmptyString
  /\ exists before name after,
      env_vars = (before ++ name :: after)%list
      /\ getenv name = Some tok
      /\ Forall (unset getenv) before.
Proof.
  induction env_vars as [|name rest IH]; cbn [EmotionDetector._resolve_token];
    [discriminate|].
  destruct (getenv name) as [value|] eqn:E.
  - destruct value as [|c value]; cbn [is_empty].
    + intros H. destruct (IH H) as (Hne & before & n & after & -> & Hg & Hb).
      split; [exact Hne|]. exists (name :: before), n, after.
      repeat split; auto. constructor; [|exact Hb]. unfold unset.
      rewrite E. reflexivity.
    + intros [= <-]. split; [discriminate|].
      exists [], name, rest. repeat split; auto.
  - intros H. destruct (IH H) as (Hne & before & n & after & -> & Hg & Hb).
    split; [exact Hne|]. exists (name :: before), n, after.
    repeat split; auto. constructor; [|exact Hb]. unfold unset.
    rewrite E. exact I.
Qed.

Lemma resolve_token_none (getenv : string -> option string)
    (env_vars : list string) :
  EmotionDetector._resolve_token getenv env_vars = None
  <-> Forall (unset getenv) env_vars.
Proof.
  induction env_vars as [|name rest IH]; cbn [EmotionDetector._resolve_token].
  - split; [constructor|reflexivity].
  - unfold unset at 1. destruct (getenv name) as [[|c value]|] eqn:E;
      cbn [is_empty].
    + rewrite IH. split; intros H.
      * constructor; [unfold unset; rewrite E; reflexivity|exact H].
      * inversion H. assumption.
    + split; [discriminate|]. intros H. inversion H as [|? ? Hu ?].
      unfold unset in Hu. rewrite E in Hu. discriminate.
    + rewrite IH. split; intros H.
      * constructor; [unfold unset; rewrite E; exact I|exact H].
      * inversion H. assumption.
Qed.

End Token.

(** X20.  [EmotionDetector.__init__] takes the token given, if it is not
    empty, and otherwise the value of the first listed environment
    variable that is set and not empty; the token it keeps is never empty
    and is sent as the bearer.  It raises [RuntimeError], naming the listed
    variables, exactly when no token is given and none of them is set. *)
Theorem detector_token_resolution (getenv : string -> option string)
    (model_id : string) (token : option string) (env_vars : list string)
    (timeout : float) :
  let given := negb (none_or_empty token) in
  match EmotionDetector.__init__ getenv model_id token env_vars timeout with
  | Ok d =>
      EmotionDetector._token d <> EmptyString
      /\ emotion.dict_get "Authorization" (EmotionDetector.headers d)
         = Some ("Bearer " ++ EmotionDetector._token d)
      /\ (if given then token = Some (EmotionDetector._token d)
          else exists before name after,
              env_vars = (before ++ name :: after)%list
              /\ getenv name = Some (EmotionDetector._token d)
              /\ Forall (unset getenv) before)
  | Raise exc =>
      exc = EmotionDetector.missing_token env_vars
      /\ given = false /\ Forall (unset getenv) env_vars
  end.
Proof.
  unfold EmotionDetector.__init__, none_or_empty.
  destruct token as [[|c t]|]; cbn [PyStr.is_empty negb].
  1, 3: destruct (EmotionDetector._resolve_token getenv env_vars)
    as [tok|] eqn:E;
    [ destruct (resolve_token_some _ _ _ E) as (Hne & Hex);
      destruct tok as [|c tok]; [contradiction|]; cbn [PyStr.is_empty];
      cbn [EmotionDetector._token EmotionDetector.headers];
      split; [discriminate|]; split; [reflexivity|exact Hex]
    | apply resolve_token_none in E; repeat split; auto ].
  cbn [EmotionDetector._token EmotionDetector.headers].
  split; [discriminate|]. split; reflexivity.
Qed.

(* ================================================================= *)
(** * The callers: the HTTP handler and the command line *)

Section Callers.

Lemma speak_to_file_detect (env : emotion.Env) (drv : speech.Driver)
    (self : engine.EmpathyEngine) (text : string) (filename : option string) :
  let '(self', sent, outcome) :=
    engine.speak_to_file env drv self text filename in
  sent = fst (emotion.detect env text)
  /\ match outcome with
     | Ok response =>
         snd (emotion.detect env text) = Ok (engine.emotion response)
         /\ exists job,
             speech.jobs (speech._engine (engine._synthesizer self'))
             = job :: speech.jobs (speech._engine (engine._synthesizer self))
             /\ speech.job_text job = text
     | Raise _ => True
     end.
Proof.
  unfold engine.speak_to_file.
  destruct (emotion.detect env text) as [sent0 detected]. cbn [fst snd].
  destruct detected as [emo|]; cbn [bind]; [|split; auto].
  destruct (config.get _ _) as [profile|]; cbn [bind]; [|split; auto].
  destruct (service._modulate_parameters profile emo)
    as [[[rate volume] pitch]|] eqn:Em; cbn [bind]; [|split; auto].
  match goal with
  | |- context [speech.synthesize ?d ?s ?t ?r ?v ?p ?dest] =>
      destruct (speech.synthesize d s t r v p dest) as [synth rendered] eqn:Es
  end.
  split; [reflexivity|].
  destruct rendered as [audio|]; cbn [bind]; [|exact I].
  destruct (ssml.build text emo profile rate volume pitch) as [markup|];
    cbn [bind]; [|exact I].
  cbn [engine.emotion engine.with_synthesizer engine._synthesizer].
  split; [reflexivity|].
  apply synthesize_job_fields in Es as (_ & job & Hj & Ht & _).
  exists job. split; assumption.
Qed.

Lemma strip_blank (text : string) :
  PyStr.is_empty (PyStr.strip text) = all_space text.
Proof.
  destruct (all_space text) eqn:E.
  - rewrite (strip_all_space _ E). reflexivity.
  - destruct (PyStr.strip text) eqn:Es; [|reflexivity].
    apply strip_empty_iff in Es. congruence.
Qed.

Lemma detect_strip (env : emotion.Env) (text : string) :
  emotion.detect env (PyStr.strip text) = emotion.detect env text.
Proof. apply detect_by_words, split_strip. Qed.

End Callers.

(** X21.  The handler of [POST /synthesize] answers a text of white space
    only with status 400, without any request to the classifier and
    without touching the engine.  Any other text is submitted to the
    classifier exactly once, cleaned; a response carries the label and the
    intensity that [detect] gives for the text as sent, and the markup
    exactly when the request asks for it. *)
Theorem api_synthesize_requests (env : emotion.Env) (drv : speech.Driver)
    (_engine : engine.EmpathyEngine) (request : api.SynthesisRequest) :
  let '(engine', sent, outcome) := api.synthesize env drv _engine request in
  if all_space (api.text request)
  then outcome = api.HTTPException 400 "Input text is empty."
       /\ sent = [] /\ engine' = _engine
  else sent = [emotion.clean (api.text request)]
       /\ match outcome with
          | api.Returned response =>
              (exists r,
                  snd (emotion.detect env (api.text request)) = Ok r
                  /\ api.emotion response
                     = emotion.label_str (emotion.label r)
                  /\ api.intensity response = emotion.intensity r)
              /\ (api.ssml response = None
                  <-> api.include_ssml request = false)
          | api.HTTPException _ _ => False
          | api.Failed _ => True
          end.
Proof.
  unfold api.synthesize. rewrite strip_blank.
  destruct (all_space (api.text request)) eqn:E; [repeat split|].
  pose proof (speak_to_file_detect env drv _engine
                (PyStr.strip (api.text request)) (api.filename request)) as H.
  destruct (engine.speak_to_file env drv _engine
              (PyStr.strip (api.text request)) (api.filename request))
    as [[engine' sent] result].
  rewrite detect_strip in H. destruct H as [Hs Hr].
  split.
  - rewrite Hs, detect_cases, E. reflexivity.
  - destruct result as [response|exc]; [|exact I].
    destruct Hr as [Hd _]. split.
    + exists (engine.emotion response). repeat split. exact Hd.
    + cbn [api.ssml]. destruct (api.include_ssml request);
        split; intros; try discriminate; reflexivity.
Qed.

Section CommandLine.


End CommandLine.


(** X23.  An engine built without a detector needs a token from the
    environment: when neither [HF_TOKEN] nor [HUGGINGFACEHUB_API_TOKEN] is
    set the call raises the [RuntimeError] naming them, before anything
    else is built, and otherwise the detector holds the value of
    [HF_TOKEN] if that one is set, of the other if not.  With a detector
    given the environment is not read.  The only other ways the call can
    raise are the set-up of the speech driver, when no synthesizer is
    given, and the resolution and the creation of the output directory.
    The engine uses the default table and a synthesizer with the defaults
    of the driver's engine unless it is given others, and its output
    directory is the resolved one, created. *)
Theorem engine_construction (getenv : string -> option string)
    (tts : result speech.Engine) (resolve : string -> result string)
    (mkdir : string -> result unit)
    (mapping : option config.EmotionMapping)
    (detector : option EmotionDetector.EmotionDetector)
    (synthesizer : option speech.SpeechSynthesizer)
    (output_directory : string) :
  let no_token :=
    match detector with
    | Some _ => false
    | None =>
        none_or_empty (getenv "HF_TOKEN")
        && none_or_empty (getenv "HUGGINGFACEHUB_API_TOKEN")
    end in
  match EmpathyEngine.__init__ getenv tts resolve mkdir mapping detector
          synthesizer output_directory with
  | Ok (built, kept) =>
      no_token = false
      /\ match detector with
         | Some given => kept = given
         | None =>
             if none_or_empty (getenv "HF_TOKEN")
             then getenv "HUGGINGFACEHUB_API_TOKEN"
                  = Some (EmotionDetector._token kept)
                  /\ EmotionDetector._token kept <> EmptyString
             else getenv "HF_TOKEN" = Some (EmotionDetector._token kept)
         end
      /\ engine._mapping built
         = match mapping with
           | Some m => m
           | None => service._default_mapping
           end
      /\ match synthesizer with
         | Some s => engine._synthesizer built = s
         | None =>
             exists e,
               tts = Ok e /\ engine._synthesizer built = speech.init e
         end
      /\ resolve output_directory = Ok (engine._output_directory built)
      /\ mkdir (engine._output_directory built) = Ok tt
  | Raise exc =>
      if no_token
      then exc = EmotionDetector.missing_token EmotionDetector.default_env_vars
      else (synthesizer = None /\ tts = Raise exc)
           \/ resolve output_directory = Raise exc
           \/ exists directory,
               resolve output_directory = Ok directory
               /\ mkdir directory = Raise exc
  end.
Proof.
  intros no_token. subst no_token. unfold EmpathyEngine.__init__.
  destruct detector as [given|].
  2: unfold EmotionDetector.__init__, EmotionDetector.default_env_vars;
     cbn [none_or_empty EmotionDetector._resolve_token];
     destruct (getenv "HF_TOKEN") as [[|c t]|];
     destruct (getenv "HUGGINGFACEHUB_API_TOKEN") as [[|d u]|].
  all: cbn [PyStr.is_empty none_or_empty bind andb]; try reflexivity.
  all: destruct synthesizer as [s|]; [|destruct tts as [e|exc]]; cbn [bind];
    try (left; split; reflexivity).
  all: destruct (resolve output_directory) as [directory|exc'] eqn:Er;
    cbn [bind]; [|right; left; reflexivity].
  all: destruct (mkdir directory) as [[]|exc''] eqn:Em; cbn [bind];
    [|right; right; exists directory; split; [reflexivity|exact Em]].
  all: cbn [engine._mapping engine._synthesizer engine._output_directory
            EmotionDetector._token];
    repeat split; auto; try discriminate.
  all: exists e; split; reflexivity.
Qed.

(* ================================================================= *)
(** * The whole pipeline on the default table *)

Section Pipeline.

Lemma in_zrange (lo : Z) (n : nat) (r : Z) :
  lo <= r < lo + Z.of_nat n -> In r (zrange lo n).
Proof.
  intros H. unfold zrange.
  replace r with (lo + Z.of_nat (Z.to_nat (r - lo))) by lia.
  apply (in_map (fun k => lo + Z.of_nat k)), in_seq. lia.
Qed.

(** The rate percentage is computed for every rate the default table can
    give. *)
Lemma rate_percentage_returns (l : emotion.EmotionLabel) (baseline r : Z) :
  In (l, baseline)
    [(emotion.positive, 186); (emotion.neutral, 175);
     (emotion.negative, 160)] ->
  fst (fst (fst (default_ranges l))) <= r
  <= snd (fst (fst (default_ranges l))) ->
  exists pct, ssml._rate_percentage baseline r = Ok pct.
Proof.
  assert (C : forall b lo n,
             forallb (fun x => returns (ssml._rate_percentage b x))
               (zrange lo n) = true ->
             forall x, lo <= x < lo + Z.of_nat n ->
             exists pct, ssml._rate_percentage b x = Ok pct).
  { intros b lo n H x Hx. rewrite forallb_forall in H.
    specialize (H x (in_zrange lo n x Hx)).
    destruct (ssml._rate_percentage b x) as [pct|]; [|discriminate].
    exists pct. reflexivity. }
  intros [[= <- <-]|[[= <- <-]|[[= <- <-]|[]]]]; cbn [default_ranges fst snd];
    intros H.
  - apply (C 186 186 46%nat); [vm_compute; reflexivity|lia].
  - apply (C 175 170 11%nat); [vm_compute; reflexivity|lia].
  - apply (C 160 120 41%nat); [vm_compute; reflexivity|lia].
Qed.

Lemma wf_py_min (a b : float) : wf a -> valid b = true -> wf (py_min a b).
Proof.
  intros Wa Vb. destruct (py_min_cases a b) as [[E ->]|[E ->]]; [|exact Wa].
  split; [exact Vb|]. apply (fle_not_nan b a), flt_fle, E.
Qed.

(** The intensity [detect] computes from a score that is a finite float
    at least 0 lies in [0, 1]. *)
Lemma intensity_in_unit_interval (s b : float) (cleaned : string) :
  score_ok s -> emotion.intensity_bonus cleaned = Ok b ->
  unit_interval (py_min f1 (fadd s b)).
Proof.
  intros (Ws & Fs & Ns) Hb.
  destruct (bonus_facts cleaned b Hb) as (Wb & Fb & Nb & _).
  destruct (fadd_spec s b Ws Wb Fs Fb) as [W _].
  split; [apply wf_py_min; [exact wf_f1|apply W]|]. split.
  - apply py_min_nonneg; [reflexivity|]. apply fadd_nonneg; assumption.
  - apply py_min_le_l. reflexivity.
Qed.

End Pipeline.

(** X24.  On the default table the only ways [speak_to_file] can fail are
    the classifier and the driver: when the classifier answers a text of at
    most 2^50 characters with three class scores that are finite floats at
    least 0, and the driver renders, the call returns a response, after one
    request; its label is the winner of the scores and its rate, volume and
    pitch lie in the ranges of that label. *)
Theorem speak_to_file_returns (env : emotion.Env) (drv : speech.Driver)
    (self : engine.EmpathyEngine) (text : string) (filename : option string)
    (data : emotion.json) (p n g : float) :
  engine._mapping self = service._default_mapping ->
  all_space text = false ->
  Z.of_nat (String.length (emotion.clean text)) <= 2 ^ 50 ->
  emotion.post env (emotion.clean text) = emotion.Response data ->
  emotion.class_scores env data = Ok (p, n, g) ->
  score_ok p -> score_ok n -> score_ok g ->
  (forall destination, speech.render_fails drv text destination = false) ->
  exists self' response pitch,
    engine.speak_to_file env drv self text filename
    = (self', [emotion.clean text], Ok response)
    /\ emotion.label (engine.emotion response)
       = fst (emotion.select_winner p n g)
    /\ engine.applied_pitch response = Some pitch
    /\ let '(rates, volumes, pitches) :=
         default_ranges (emotion.label (engine.emotion response)) in
       fst rates <= engine.applied_rate response <= snd rates
       /\ fle (fst volumes) (engine.applied_volume response) = true
       /\ fle (engine.applied_volume response) (snd volumes) = true
       /\ fst pitches <= pitch <= snd pitches.
Proof.
  intros Hm Hb Hlen Hpost Hs Sp Sn Sg Hr.
  destruct (intensity_bonus_returns _ Hlen) as [b Eb].
  pose proof (classify_payload_winner env (emotion.clean text) data p n g b
                Hs Eb) as Hc.
  pose proof (select_winner_cases p n g) as Hw.
  destruct (emotion.select_winner p n g) as [l s]. cbn [fst snd] in *.
  assert (Ss : score_ok s) by (destruct Hw as [->|[->| ->]]; assumption).
  pose proof (intensity_in_unit_interval s b _ Ss Eb) as Hi.
  set (i := py_min f1 (fadd s b)) in *.
  destruct (default_ranges_hold l i Hi)
    as (profile & r & v & q & Hg & Emod & Hrange).
  assert (Hbase : In (l, config.rate profile)
                    [(emotion.positive, 186); (emotion.neutral, 175);
                     (emotion.negative, 160)]).
  { destruct l; cbv in Hg; injection Hg as <-; cbn; auto. }
  assert (Hrate : fst (fst (fst (default_ranges l))) <= r
                  <= snd (fst (fst (default_ranges l)))).
  { destruct (default_ranges l) as [[rates volumes] pitches].
    cbn [fst snd]. apply Hrange. }
  destruct (rate_percentage_returns l _ r Hbase Hrate) as [pct Hpct].
  unfold engine.speak_to_file.
  rewrite detect_cases, Hb, Hpost, Hc, Hm. cbn [bind emotion.label].
  rewrite Hg. cbn [bind]. rewrite Emod. cbn [bind].
  match goal with
  | |- context [speech.synthesize ?d ?s ?t ?r ?v ?p ?dest] =>
      destruct (speech.synthesize d s t r v p dest) as [synth rendered] eqn:Es
  end.
  revert Es. unfold speech.synthesize, speech.render. rewrite Hr.
  intros [= <- <-]. cbn [bind].
  unfold ssml.build, ssml.build_root, ssml.prosody_attrs.
  rewrite Hpct. cbn [bind].
  destruct (ssml.emphasis_part _ _) as [prosody_text emphasis].
  cbn [bind].
  do 2 eexists. exists q. split; [reflexivity|].
  cbn [engine.emotion engine.applied_rate engine.applied_volume
       engine.applied_pitch emotion.label].
  split; [reflexivity|]. split; [reflexivity|]. exact Hrange.
Qed.

Lemma speak_to_file_returns_witness :
  exists self' response pitch,
    engine.speak_to_file (sample.answering sample.positive_answer)
      sample.good_driver sample.default_empathy_engine "so happy" None
    = (self', ["so happy"], Ok response)
    /\ emotion.label (engine.emotion response) = emotion.positive
    /\ engine.applied_pitch response = Some pitch
    /\ 186 <= engine.applied_rate response <= 231
    /\ fle service.c0_95 (engine.applied_volume response) = true
    /\ fle (engine.applied_volume response) f1 = true
    /\ 70 <= pitch <= 82.
Proof.
  assert (S : forall x, In x [sample.c0_9; sample.c0_07; emotion.c0_03] ->
                        score_ok x).
  { intros x [<-|[<-|[<-|[]]]]; repeat split; reflexivity. }
  destruct (speak_to_file_returns (sample.answering sample.positive_answer)
              sample.good_driver sample.default_empathy_engine "so happy"
              None sample.positive_answer
              sample.c0_9 sample.c0_07 emotion.c0_03)
    as (self' & response & pitch & E & Hl & Hp & H);
    try reflexivity; try (apply S; cbn; auto).
  - vm_compute. discriminate.
  - exists self', response, pitch. split; [exact E|].
    split; [exact Hl|]. split; [exact Hp|]. rewrite Hl in H. exact H.
Defined.
